(** * CrimeScrape: merge, cache and orchestration core

    A shallow embedding of [src/lib/basesearch.py] (response construction
    and merging) and of the cache, in-flight registry and orchestration
    functions of [src/crimescrape.py], with the properties of the
    specification stated over it. *)

From Stdlib Require Import QArith Lqa.
From stdpp Require Import gmap strings list.

Local Open Scope string_scope.
Local Open Scope list_scope.
Local Open Scope nat_scope.

(** ** Python values and exceptions *)

(** The exception classes the modelled code can meet.  All of them derive
    from Python's [Exception]; [IOError] is an alias of [OSError], and
    [JSONDecodeError] is a [ValueError]. *)
Inductive exn :=
  | ValueError
  | TypeError
  | KeyError
  | AttributeError
  | RuntimeError
  | RecursionError
  | OSError
  | SystemError
  | InvalidResponseError
  | CaptchaError.

(** The exception classes that derive from [BaseException] and not from
    [Exception]: an [except Exception] clause does not catch them.  In
    the model only the units of work that run in worker threads raise
    them. *)
Inductive base_exn :=
  | SystemExit
  | KeyboardInterrupt
  | GeneratorExit.

(** Outcome of a computation that may raise. *)
Inductive result (A : Type) :=
  | Ok (a : A)
  | Raise (e : exn).
Arguments Ok {A} a.
Arguments Raise {A} e.

#[global] Instance result_ret : MRet result := fun A a => Ok a.
#[global] Instance result_bind : MBind result := fun A B f m =>
  match m with
  | Ok a => f a
  | Raise e => Raise e
  end.
#[global] Instance result_fmap : FMap result := fun A B f m =>
  match m with
  | Ok a => Ok (f a)
  | Raise e => Raise e
  end.

(** How a call that waits for worker threads ends: it returns, it
    raises an exception that derives from [Exception], it raises one
    that does not, or it never ends. *)
Inductive ending (A : Type) :=
  | Returns (a : A)
  | Raises (e : exn)
  | Exits (b : base_exn)
  | Never.
Arguments Returns {A} a.
Arguments Raises {A} e.
Arguments Exits {A} b.
Arguments Never {A}.

#[global] Instance ending_ret : MRet ending := fun A a => Returns a.
#[global] Instance ending_bind : MBind ending := fun A B f m =>
  match m with
  | Returns a => f a
  | Raises e => Raises e
  | Exits b => Exits b
  | Never => Never
  end.

(** JSON-shaped Python values: [None], integers, strings, lists and
    dictionaries.  The type is parametric in what stands for a dictionary:
    its contents, when dictionaries are taken by value, or the address of
    a dictionary object, when the store is modelled. *)
#[warnings="-register-all"]
Inductive pyval (D : Type) :=
  | VNone
  | VInt (z : Z)
  | VStr (s : string)
  | VList (xs : list (pyval D))
  | VOb (d : D).
Arguments VNone {D}.
Arguments VInt {D} z.
Arguments VStr {D} s.
Arguments VList {D} xs.
Arguments VOb {D} d.

(** [pmap f v] replaces every dictionary [d] of [v] by [f d]; [pflat f v]
    collects what [f] gives on the dictionaries of [v]. *)
Fixpoint pmap {D E : Type} (f : D → E) (v : pyval D) : pyval E :=
  match v with
  | VNone => VNone
  | VInt z => VInt z
  | VStr s => VStr s
  | VList xs => VList (pmap f <$> xs)
  | VOb d => VOb (f d)
  end.

Fixpoint pflat {D A : Type} (f : D → list A) (v : pyval D) : list A :=
  match v with
  | VList xs => concat (pflat f <$> xs)
  | VOb d => f d
  | _ => []
  end.

(** A dictionary by value: its items, with string keys, in insertion
    order, as Python's [dict] keeps them. *)
#[warnings="-register-all"]
Inductive dict :=
  | Dict (items : list (string * pyval dict)).

Definition value : Type := pyval dict.

Abbreviation VDict kvs := (VOb (Dict kvs)).

(** How deep dictionaries are nested in a dictionary: the number of
    nested calls [merge_recursive] can need to go through it. *)
Fixpoint dict_height (d : dict) : nat :=
  match d with
  | Dict items =>
      S (max_list ((fun kv => max_list (pflat (fun d' => [dict_height d']) kv.2))
                     <$> items))
  end.

#[global] Instance VStr_inj {D : Type} : Inj (=) (=) (@VStr D).
Proof. by intros s t [= ->]. Qed.

(** [key in d] and [d[key]] *)
Fixpoint dict_get {V : Type} (key : string) (d : list (string * V)) : option V :=
  match d with
  | [] => None
  | (k, v) :: rest => if String.eqb k key then Some v else dict_get key rest
  end.

(** [d[key] = v]: replaces the value of an existing key in place, and
    appends a new key at the end. *)
Fixpoint dict_set {V : Type} (key : string) (v : V) (d : list (string * V))
  : list (string * V) :=
  match d with
  | [] => [(key, v)]
  | (k, old) :: rest =>
      if String.eqb k key then (k, v) :: rest else (k, old) :: dict_set key v rest
  end.

(** Truth value of an object, as tested by [if result:]. *)
Definition py_truthy (v : value) : bool :=
  match v with
  | VNone => false
  | VInt z => negb (Z.eqb z 0)
  | VStr s => negb (String.eqb s "")
  | VList xs => negb (Nat.eqb (length xs) 0)
  | VDict kvs => negb (Nat.eqb (length kvs) 0)
  end.

(** Objects that can be put in a [set]: lists and dictionaries cannot. *)
Definition hashable {D : Type} (v : pyval D) : bool :=
  match v with
  | VNone | VInt _ | VStr _ => true
  | VList _ | VOb _ => false
  end.

(** [==] on hashable objects. *)
Definition hash_eqb {D : Type} (a b : pyval D) : bool :=
  match a, b with
  | VNone, VNone => true
  | VInt x, VInt y => Z.eqb x y
  | VStr s, VStr t => String.eqb s t
  | _, _ => false
  end.

(** Whether two values are both dictionaries, the first test of the
    loop of [merge_recursive]. *)
Definition both_dicts {D : Type} (a b : pyval D) : bool :=
  match a, b with
  | VOb _, VOb _ => true
  | _, _ => false
  end.

(** ** lib/basesearch.py *)

Module BaseSearch.

Definition RISK_LEVELS : list string := ["Low"; "Medium"; "High"; "Dangerous"].

(** [risk in RISK_LEVELS] *)
Definition in_risk_levels (risk : string) : bool :=
  existsb (String.eqb risk) RISK_LEVELS.

(** [gen_response(risk, source, notice_id, charges)].  [charges] is either
    a string or a list; a string is wrapped before the risk is checked. *)
Definition gen_response (risk source notice_id : string) (charges : value)
  : result value :=
  let charges := match charges with
                 | VStr s => VList [VStr s]
                 | _ => charges
                 end in
  if negb (in_risk_levels risk) then Raise ValueError
  else Ok (VDict [("risk", VStr risk);
                  ("notices",
                    VDict [(source, VDict [("id", VStr notice_id);
                                           ("charges", charges)])])]).

(** The loop of [_preserve_order_dedup]: [seen] is the set of items met so
    far (used through membership only), [acc] the list built so far.
    Testing [item not in seen] hashes the item, which raises [TypeError]
    on a list or a dictionary. *)
Fixpoint dedup_loop {D : Type} (items seen acc : list (pyval D))
  : result (list (pyval D)) :=
  match items with
  | [] => Ok acc
  | item :: rest =>
      if hashable item then
        if existsb (hash_eqb item) seen then dedup_loop rest seen acc
        else dedup_loop rest (item :: seen) (acc ++ [item])
      else Raise TypeError
  end.

Definition _preserve_order_dedup {D : Type} (items : list (pyval D))
  : result (list (pyval D)) :=
  dedup_loop items [] [].

(** [RISK_LEVELS.index(r)]: the position of [r], [ValueError] when [r] is
    not one of the four levels. *)
Fixpoint index_of (s : string) (l : list string) : option nat :=
  match l with
  | [] => None
  | x :: rest => if String.eqb x s then Some 0%nat else S <$> index_of s rest
  end.

Definition risk_index {D : Type} (r : pyval D) : result nat :=
  match r with
  | VStr s => match index_of s RISK_LEVELS with
              | Some i => Ok i
              | None => Raise ValueError
              end
  | _ => Raise ValueError
  end.

(** [max(a, b, key=lambda r: RISK_LEVELS.index(r))]: both keys are
    computed; the first argument is kept unless the second is strictly
    greater. *)
Definition max_risk {D : Type} (a b : pyval D) : result (pyval D) :=
  ia ← risk_index a;
  ib ← risk_index b;
  mret (if (ia <? ib)%nat then b else a).

(** What one iteration of the loop of [merge_recursive] stores in
    [d1[key]] when the key is already present and the two values are not
    both dictionaries. *)
Definition merge_leaf {D : Type} (key : string) (old new : pyval D)
  : result (pyval D) :=
  match old, new with
  | VList l1, VList l2 => VList <$> _preserve_order_dedup (l1 ++ l2)
  | _, _ => if String.eqb key "risk" then max_risk old new else Ok new
  end.

(** [merge_recursive(d1, d2)] on dictionaries taken by value: the loop
    runs over the items of [d2] in order and threads the updated contents
    of [d1]. *)
Fixpoint merge_recursive (d1 : list (string * value)) (d2 : dict) {struct d2}
  : result (list (string * value)) :=
  match d2 with
  | Dict items =>
      (fix loop (d1 : list (string * value)) (items : list (string * value))
         {struct items} : result (list (string * value)) :=
         match items with
         | [] => Ok d1
         | (key, new) :: rest =>
             d1' ← match dict_get key d1 with
                   | Some old =>
                       match old, new with
                       | VDict sub, VOb d2' =>
                           sub' ← merge_recursive sub d2';
                           mret (dict_set key (VDict sub') d1)
                       | _, _ =>
                           v ← merge_leaf key old new;
                           mret (dict_set key v d1)
                       end
                   | None => Ok (dict_set key new d1)
                   end;
             loop d1' rest
         end) d1 items
  end.

(** One iteration of the loop of [merge_recursive]: what becomes of [d1]
    for the item [key, new] of [d2]. *)
Definition merge_item (d1 : list (string * value)) (key : string) (new : value)
  : result (list (string * value)) :=
  match dict_get key d1 with
  | Some old =>
      match old, new with
      | VDict sub, VOb d2' =>
          sub' ← merge_recursive sub d2';
          mret (dict_set key (VDict sub') d1)
      | _, _ =>
          v ← merge_leaf key old new;
          mret (dict_set key v d1)
      end
  | None => Ok (dict_set key new d1)
  end.

(** [merge_responses(responses)]: a left fold from the empty dictionary.
    Calling [d.items()] on a response that is not a dictionary raises
    [AttributeError]. *)
Fixpoint merge_all (merged : list (string * value)) (responses : list value)
  : result (list (string * value)) :=
  match responses with
  | [] => Ok merged
  | VOb d :: rest => merged' ← merge_recursive merged d; merge_all merged' rest
  | _ :: _ => Raise AttributeError
  end.

Definition merge_responses (responses : list value) : result value :=
  (fun merged => VDict merged) <$> merge_all [] responses.

End BaseSearch.

(** ** lib/basesearch.py on the object store *)

(** Python dictionaries are objects: [d1[key] = value] stores a reference
    to the object [value], and [merge_recursive] updates [d1] in place.
    Here the store is explicit: a dictionary value is the address of a
    dictionary object, and the store maps addresses to the items of the
    objects.  Lists are never updated in place by the modelled code (it
    builds new lists with [+] and [_preserve_order_dedup]) and stay values. *)
Module Store.

Abbreviation hval := (pyval nat).
Abbreviation heap := (gmap nat (list (string * pyval nat))).

(** The items of the object at an address.  A dangling address does not
    occur in Python; the model answers [SystemError]. *)
Definition read (l : nat) (h : heap) : result (list (string * hval)) :=
  match h !! l with
  | Some d => Ok d
  | None => Raise SystemError
  end.

(** The body of the loop of [merge_recursive] for the item [key, new] of
    [d2], with [d1] the object at [l1]; [recurse] is the nested call.  When
    both values are dictionaries the nested call updates the object
    [d1[key]] itself and [d1] is not assigned. *)
Definition merge_item (recurse : nat → nat → heap → result heap)
  (l1 : nat) (key : string) (new : hval) (h : heap) : result heap :=
  d1 ← read l1 h;
  match dict_get key d1 with
  | Some old =>
      match old, new with
      | VOb sub1, VOb sub2 => recurse sub1 sub2 h
      | _, _ =>
          v ← BaseSearch.merge_leaf key old new;
          mret (<[l1 := dict_set key v d1]> h)
      end
  | None => Ok (<[l1 := dict_set key new d1]> h)
  end.

(** The loop [for key, value in d2.items()]: it reads [d2], the object at
    [l2], as it is at each step, and stops with [RuntimeError] when the
    number of its items is no longer [size]; [todo] counts the items
    still to visit. *)
Fixpoint merge_loop (recurse : nat → nat → heap → result heap)
  (l1 l2 : nat) (size todo : nat) (h : heap) {struct todo} : result heap :=
  d2 ← read l2 h;
  if negb (Nat.eqb (length d2) size) then Raise RuntimeError
  else
    match todo with
    | 0 => Ok h
    | S todo' =>
        match d2 !! (size - todo) with
        | None => Raise SystemError
        | Some (key, new) =>
            h' ← merge_item recurse l1 key new h;
            merge_loop recurse l1 l2 size todo' h'
        end
    end.

(** [merge_recursive(d1, d2)] on the objects at [l1] and [l2].  [depth] is
    the number of nested calls the interpreter still allows; beyond it
    Python raises [RecursionError]. *)
Fixpoint merge_recursive (depth : nat) (l1 l2 : nat) (h : heap) {struct depth}
  : result heap :=
  match depth with
  | 0 => Raise RecursionError
  | S depth' =>
      d2 ← read l2 h;
      merge_loop (merge_recursive depth') l1 l2 (length d2) (length d2) h
  end.

Fixpoint merge_all (depth : nat) (merged : nat) (responses : list hval) (h : heap)
  : result heap :=
  match responses with
  | [] => Ok h
  | VOb d :: rest =>
      h' ← merge_recursive depth merged d h; merge_all depth merged rest h'
  | _ :: _ => Raise AttributeError
  end.

(** [merge_responses(responses)]: [merged_dict = {}] is a new object, at
    an address not in use; its address is returned with the final store. *)
Definition merge_responses (depth : nat) (responses : list hval) (h : heap)
  : result (nat * heap) :=
  let merged := fresh (dom h) in
  h' ← merge_all depth merged responses (<[merged := []]> h);
  mret (merged, h').

(** *** Dictionaries by value, laid out in the store *)

(** A located dictionary is a dictionary by value in which every
    dictionary carries the address of the object that holds it. *)
#[warnings="-register-all"]
Inductive ldict :=
  | LDict (l : nat) (items : list (string * pyval ldict)).

Definition lroot (t : ldict) : nat :=
  match t with LDict l _ => l end.

Definition litems (t : ldict) : list (string * pyval ldict) :=
  match t with LDict _ items => items end.

(** The value a located value is in the store: its dictionaries are
    replaced by their addresses. *)
Definition shallow (v : pyval ldict) : hval := pmap lroot v.

Definition shallow_items (items : list (string * pyval ldict))
  : list (string * hval) :=
  prod_map id shallow <$> items.

(** The dictionary by value a located dictionary stands for. *)
Fixpoint erase (t : ldict) : dict :=
  match t with
  | LDict _ items => Dict (prod_map id (pmap erase) <$> items)
  end.

Definition erase_items (items : list (string * pyval ldict))
  : list (string * value) :=
  prod_map id (pmap erase) <$> items.

(** The objects of a located dictionary: each address with the items the
    store has to hold there. *)
Fixpoint nodes (t : ldict) : list (nat * list (string * hval)) :=
  match t with
  | LDict l items =>
      (l, shallow_items items)
        :: concat ((fun kv => pflat nodes kv.2) <$> items)
  end.

Definition value_nodes (v : pyval ldict) : list (nat * list (string * hval)) :=
  pflat nodes v.

Definition items_nodes (items : list (string * pyval ldict))
  : list (nat * list (string * hval)) :=
  concat ((fun kv => value_nodes kv.2) <$> items).

Definition locs (t : ldict) : list nat := (nodes t).*1.

Definition items_locs (items : list (string * pyval ldict)) : list nat :=
  (items_nodes items).*1.

(** The store holds a located dictionary when each of its objects is at
    its address. *)
Definition holds (h : heap) (ns : list (nat * list (string * hval))) : Prop :=
  Forall (fun n => h !! n.1 = Some n.2) ns.

Definition stored (h : heap) (t : ldict) : Prop := holds h (nodes t).

(** [h'] is [h] after merging [t2] into [t1]: the object of [t1] now
    holds the located items [items], which stand for the items [r]; the
    objects of the result are objects of [t1] and [t2], each used once;
    the store is unchanged elsewhere. *)
Definition merged_into (h h' : heap) (t1 t2 : ldict)
  (items : list (string * pyval ldict)) (r : list (string * value)) : Prop :=
  stored h' (LDict (lroot t1) items) ∧
  erase_items items = r ∧
  locs (LDict (lroot t1) items) ⊆+ locs t1 ++ locs t2 ∧
  ∀ l, l ∉ locs t1 ++ locs t2 → h' !! l = h !! l.

(** [recurse] does on the store what [merge_recursive] does by value, on
    located dictionaries that share no object and for a second
    dictionary of height at most [n]. *)
Definition simulates (recurse : nat → nat → heap → result heap) (n : nat) : Prop :=
  ∀ h t1 t2 r,
    dict_height (erase t2) ≤ n →
    stored h t1 → stored h t2 → NoDup (locs t1 ++ locs t2) →
    BaseSearch.merge_recursive (erase_items (litems t1)) (erase t2) = Ok r →
    ∃ h' items,
      recurse (lroot t1) (lroot t2) h = Ok h' ∧ merged_into h h' t1 t2 items r.

(** The two responses of [sample_heap] below, as located dictionaries. *)
Definition sample_located_low : ldict :=
  LDict 0 [("risk", VStr "Low");
           ("notices",
             VOb (LDict 1 [("X", VOb (LDict 2 [("id", VStr "1");
                                               ("charges", VList [VStr "A"; VStr "B"])]))]))].

Definition sample_located_high : ldict :=
  LDict 3 [("risk", VStr "High");
           ("notices",
             VOb (LDict 4 [("X", VOb (LDict 5 [("id", VStr "1");
                                               ("charges", VList [VStr "B"; VStr "C"])]))]))].

(** A store holding the two responses
    [{"risk": "Low", "notices": {"X": {"id": "1", "charges": ["A", "B"]}}}]
    at address 0 and
    [{"risk": "High", "notices": {"X": {"id": "1", "charges": ["B", "C"]}}}]
    at address 3. *)
Definition sample_heap : heap :=
  list_to_map
    [(0, [("risk", VStr "Low"); ("notices", VOb 1)]);
     (1, [("X", VOb 2)]);
     (2, [("id", VStr "1"); ("charges", VList [VStr "A"; VStr "B"])]);
     (3, [("risk", VStr "High"); ("notices", VOb 4)]);
     (4, [("X", VOb 5)]);
     (5, [("id", VStr "1"); ("charges", VList [VStr "B"; VStr "C"])])].

End Store.

(** ** crimescrape.py *)

Module CrimeScrape.

(** Library functions the module calls: [hashlib.md5(..).hexdigest()],
    [str.upper], [markupsafe.escape], [json.dumps] and [json.loads].
    [text] is what a file holds. *)
Class Library := {
  text : Type;
  md5_hexdigest : string → string;
  str_upper : string → string;
  escape : string → string;
  json_dumps : value → text;
  json_loads : text → result value
}.

(** [json.loads(json.dumps(v))] gives [v] back, for the values of the
    model (string keys, no floats). *)
Definition json_round_trip (L : Library) : Prop :=
  ∀ v : value, json_loads (json_dumps v) = Ok v.

(** A library instance for examples: files hold values, and the string
    functions are the identity. *)
Definition sample_library : Library :=
  {| text := value;
     md5_hexdigest := id;
     str_upper := id;
     escape := id;
     json_dumps := id;
     json_loads := Ok |}.

Definition CACHE_MAX_DAYS : Z := 5.

(** Command-line settings read by the module; [--threads] and
    [--timeout] take any integer. *)
Record settings := Settings {
  USE_CACHE : bool;
  STANDALONE : bool;
  MAX_THREADS : Z;
  TIMEOUT : Z
}.

(** What sits at the path [CACHE_DIR]: nothing, a directory, or
    something that is not a directory (so that [os.makedirs] raises
    [FileExistsError], an [OSError]). *)
Inductive dir_state :=
  | DirAbsent
  | DirPresent
  | DirBlocked.

(** The state the module works on: the list [CURRENTLY_RUNNING], the
    cache directory with its files, whether [open(path, "w")] succeeds
    there, and whether [os.remove] does (it does not in a directory
    that cannot be written to, nor, on some systems, on a file that is
    open). *)
Record world {L : Library} := World {
  CURRENTLY_RUNNING : list string;
  cache_dir : dir_state;
  cache_files : gmap string text;
  write_ok : bool;
  remove_ok : bool
}.

Section crimescrape.
Context {L : Library}.

Definition set_running (r : list string) (w : world) : world :=
  World L r (cache_dir w) (cache_files w) (write_ok w) (remove_ok w).
Definition set_cache_dir (d : dir_state) (w : world) : world :=
  World L (CURRENTLY_RUNNING w) d (cache_files w) (write_ok w) (remove_ok w).
Definition set_cache_files (f : gmap string text) (w : world) : world :=
  World L (CURRENTLY_RUNNING w) (cache_dir w) f (write_ok w) (remove_ok w).

(** *** RunningSearches *)

Definition add_running (search_item : string) (w : world) : world :=
  set_running (CURRENTLY_RUNNING w ++ [search_item]) w.

(** [list.remove(x)]: drops the first occurrence, [ValueError] when
    there is none. *)
Fixpoint list_remove (x : string) (l : list string) : result (list string) :=
  match l with
  | [] => Raise ValueError
  | y :: rest =>
      if String.eqb y x then Ok rest else cons y <$> list_remove x rest
  end.

Definition remove_running (search_item : string) (w : world) : result world :=
  (fun r => set_running r w) <$> list_remove search_item (CURRENTLY_RUNNING w).

Definition is_running (search_item : string) (w : world) : bool :=
  existsb (String.eqb search_item) (CURRENTLY_RUNNING w).

(** *** The cache *)

(** [int(x)] on a number: truncation towards zero.  Times are taken as
    rationals: the rounding and the range of Python's floats are not
    modelled.  In particular [time.time() - timestamp] is exact here,
    where Python first converts the integer to a float: it rounds an
    integer beyond 2^53, and raises [OverflowError] on one beyond the
    range of floats. *)
Definition py_int (x : Q) : Z := Z.quot (Qnum x) (Z.pos (Qden x)).

(** [int((time.time() - timestamp) / 86400)] *)
Definition days_since (now : Q) (timestamp : Z) : Z :=
  py_int ((now - inject_Z timestamp) / inject_Z 86400).

(** [os.makedirs(CACHE_DIR, exist_ok=True)]: creates the directory, empty,
    where there is none. *)
Definition makedirs (w : world) : result world :=
  match cache_dir w with
  | DirAbsent => Ok (set_cache_files ∅ (set_cache_dir DirPresent w))
  | DirPresent => Ok w
  | DirBlocked => Raise OSError
  end.

(** [store_cache(filename, data)] at time [now].  [os.makedirs] runs
    before the [try]: its [OSError] propagates.  A failure of
    [open(cache_path, "w")] is caught and answered with [False]. *)
Definition store_cache (filename : string) (data : value) (now : Q) (w : world)
  : result bool * world :=
  match makedirs w with
  | Raise e => (Raise e, w)
  | Ok w =>
      let cache_data := VDict [("timestamp", VInt (py_int now)); ("data", data)] in
      if write_ok w
      then (Ok true, set_cache_files (<[filename := json_dumps cache_data]> (cache_files w)) w)
      else (Ok false, w)
  end.

(** The body of the [try] of [load_cache], up to the staleness test:
    the timestamp and the data of the entry.  Whatever is raised here
    is caught by [except Exception]. *)
Definition read_entry (filename : string) (w : world) : result (Z * value) :=
  match cache_dir w with
  | DirPresent =>
      match cache_files w !! filename with
      | Some file =>
          cache ← json_loads file;
          match cache with
          | VDict kvs =>
              match dict_get "timestamp" kvs with
              | Some timestamp =>
                  match dict_get "data" kvs with
                  | Some data =>
                      match timestamp with
                      | VInt t => Ok (t, data)
                      | _ => Raise TypeError
                      end
                  | None => Raise KeyError
                  end
              | None => Raise KeyError
              end
          | _ => Raise TypeError
          end
      | None => Raise OSError
      end
  | _ => Raise OSError
  end.

(** [os.remove(cache_path)] *)
Definition os_remove (filename : string) (w : world) : result world :=
  if remove_ok w
  then Ok (set_cache_files (delete filename (cache_files w)) w)
  else Raise OSError.

(** [load_cache(filename)] at time [now]; [VNone] is Python's [None].
    A stale entry is removed with [os.remove], which runs inside the
    [try]: when it raises, the file stays and [None] is returned all
    the same. *)
Definition load_cache (filename : string) (now : Q) (w : world) : value * world :=
  match read_entry filename w with
  | Ok (timestamp, data) =>
      if (CACHE_MAX_DAYS <? days_since now timestamp)%Z
      then match os_remove filename w with
           | Ok w => (VNone, w)
           | Raise _ => (VNone, w)
           end
      else (data, w)
  | Raise _ => (VNone, w)
  end.

Definition gen_cache_filename (content : string) : string :=
  md5_hexdigest (str_upper content).

Definition gen_results (status : string) (data : value) : value :=
  if existsb (String.eqb status) ["fresh"; "cached"; "error"]
  then VDict [("status", VStr status); ("data", data)]
  else VDict [("status", VStr "error")].

(** *** The orchestrator *)

(** What a unit of work [method(src)] does under the executor.  By the
    time the caller stops waiting it has returned a value, raised an
    exception that derives from [Exception], or raised one that does
    not ([SystemExit] and the like); or it has not finished by then,
    and either comes to an end later (a unit that has not started yet
    is cancelled), or runs for ever. *)
Inductive unit_outcome :=
  | Returned (v : value)
  | Raised (e : exn)
  | Exited (b : base_exn)
  | Pending
  | Hanging.

Definition finished (o : unit_outcome) : bool :=
  match o with Pending | Hanging => false | _ => true end.

Definition hanging (o : unit_outcome) : bool :=
  match o with Hanging => true | _ => false end.

Definition exited (o : unit_outcome) : bool :=
  match o with Exited _ => true | _ => false end.

(** [future.result()] of a future in [done]: what the unit returned, or
    the exception it raised, whatever its class.  Only futures that
    are done are asked; on a unit that has not finished the call would
    wait for it, and what stands here for [Pending] is never used. *)
Definition future_result (o : unit_outcome) : ending value :=
  match o with
  | Returned v => Returns v
  | Raised e => Raises e
  | Exited b => Exits b
  | Pending => Raises SystemError
  | Hanging => Never
  end.

(** [try: body except Exception: handler]: an exception that does not
    derive from [Exception] passes through. *)
Definition try_except {A : Type} (body : ending A) (handler : exn → ending A)
  : ending A :=
  match body with
  | Raises e => handler e
  | other => other
  end.

Section execute.
Context {Src Method : Type}.
(** [behaviour max_threads timeout method src] is the outcome of the
    unit [method(src)] in a pool of [max_threads] workers, [timeout]
    seconds after [wait] was called.  [set_order] is the order in
    which a set of futures is iterated.  The units work on the network
    and on files of their own: none touches the cache directory or the
    list of running searches. *)
Variable behaviour : Z → Z → Method → Src → unit_outcome.
Variable set_order : list (Src * Method) → list (Src * Method).

(** The loop over [done]. *)
Fixpoint collect (max_threads timeout : Z)
  (done : list (Src * Method)) (results : list value) : ending (list value) :=
  match done with
  | [] => Returns results
  | (source, method) :: rest =>
      results' ←
        try_except
          (result ← future_result (behaviour max_threads timeout method source);
           if py_truthy result then Returns (results ++ [result]) else Returns results)
          (fun e => Returns results);
      collect max_threads timeout rest results'
  end.

(** [execute_search(sources, search_methods, results, max_threads,
    timeout)]: the list [results] after the call.
    [ThreadPoolExecutor(max_workers=max_threads)] raises [ValueError]
    unless [max_threads] is positive.  The loop over [not_done] logs
    and cancels, and leaves [results] as it is.  Leaving the [with]
    block, by its end or by an exception, calls
    [executor.shutdown(wait=True)], which returns when every unit
    that runs has come to an end. *)
Definition execute_search (sources : list Src) (search_methods : list Method)
  (results : list value) (max_threads timeout : Z)
  : ending (list value) :=
  if (max_threads <=? 0)%Z then Raises ValueError
  else
    let future_tasks :=
      src ← sources; method ← search_methods; [(src, method)] in
    let is_done := fun '(src, method) =>
      finished (behaviour max_threads timeout method src) in
    let never_ends := fun '(src, method) =>
      hanging (behaviour max_threads timeout method src) in
    let done := set_order (List.filter is_done future_tasks) in
    let body := collect max_threads timeout done results in
    if existsb never_ends future_tasks then Never else body.

(** The non-empty values returned by the units that completed within
    the timeout, in submission order. *)
Definition successful (max_threads timeout : Z) (unit : Src * Method)
  : option value :=
  match behaviour max_threads timeout unit.2 unit.1 with
  | Returned v => if py_truthy v then Some v else None
  | _ => None
  end.

Definition successes (sources : list Src) (search_methods : list Method)
  (max_threads timeout : Z) : list value :=
  omap (successful max_threads timeout)
       (src ← sources; method ← search_methods; [(src, method)]).

(** The response of a request: the dictionary as it is, or wrapped
    by Flask's [jsonify]. *)
Inductive response :=
  | Plain (body : value)
  | Jsonify (body : value).

Definition response_body (r : response) : value :=
  match r with Plain b | Jsonify b => b end.

(** How [perform_search] ends: it returns; it raises an exception that
    derives from [Exception], or one that does not; it is still in its
    waiting loop after [spins] rounds; or it never returns, because
    [execute_search] does not. *)
Inductive outcome :=
  | Return (r : response) (w : world)
  | Throw (e : exn) (w : world)
  | Exit (b : base_exn) (w : world)
  | Waiting
  | Stuck (w : world).

(** The world [perform_search] leaves when it ends otherwise than by
    returning: by an exception, or stuck in [execute_search]. *)
Definition left_with (o : outcome) : option world :=
  match o with
  | Throw _ w | Exit _ w | Stuck w => Some w
  | Return _ _ | Waiting => None
  end.

(** [while RunningSearches.is_running(query_id): time.sleep(0.1)], for
    at most [spins] rounds; within one thread of control the list
    does not change while the caller sleeps. *)
Fixpoint wait_until_free (spins : nat) (query_id : string) (w : world) : bool :=
  if is_running query_id w
  then match spins with
       | 0 => false
       | S spins' => wait_until_free spins' query_id w
       end
  else true.

(** The fingerprint of a query: [cache_type + escape(query)] is a
    [Markup] string, which escapes [cache_type] as well. *)
Definition fingerprint (query cache_type : string) : string :=
  gen_cache_filename (escape cache_type +:+ escape query).

(** [perform_search(query, cache_type, sources, search_methods,
    log_message)], with the times at which the cache is read and
    written. *)
Definition perform_search (cfg : settings) (query cache_type : string)
  (sources : list Src) (search_methods : list Method)
  (t_load t_store : Q) (spins : nat) (w : world) : outcome :=
  let query_id := fingerprint query cache_type in
  if negb (wait_until_free spins query_id w) then Waiting
  else
    let w := add_running query_id w in
    let '(cache, w) :=
      if USE_CACHE cfg then load_cache query_id t_load w else (VNone, w) in
    if USE_CACHE cfg && py_truthy cache then
      match remove_running query_id w with
      | Ok w => Return (Jsonify (gen_results "cached" cache)) w
      | Raise e => Throw e w
      end
    else
      match execute_search sources search_methods []
              (MAX_THREADS cfg) (TIMEOUT cfg) with
      | Raises e => Throw e w
      | Exits b => Exit b w
      | Never => Stuck w
      | Returns results =>
          let '(stored, w) :=
            if USE_CACHE cfg
            then store_cache query_id (VList results) t_store w
            else (Ok false, w) in
          match stored with
          | Raise e => Throw e w
          | Ok _ =>
              match remove_running query_id w with
              | Raise e => Throw e w
              | Ok w =>
                  let body := gen_results "fresh" (VList results) in
                  Return (if STANDALONE cfg then Plain body else Jsonify body) w
              end
          end
      end.
End execute.
End crimescrape.

End CrimeScrape.

(** ** Well-formed partial results *)

(** The shape [gen_response] produces and [validate_response] checks: a
    dictionary with exactly the keys ["risk"] (one of the four levels)
    and ["notices"] (a dictionary from source keys to notices); a notice has
    exactly the keys ["id"] (a string) and ["charges"] (a list of
    strings).  The order of the keys is free. *)
Definition is_str (v : value) : bool :=
  match v with VStr _ => true | _ => false end.

Definition is_str_list (v : value) : bool :=
  match v with VList xs => forallb is_str xs | _ => false end.

Definition wf_notice (v : value) : bool :=
  match v with
  | VDict d =>
      Nat.eqb (length d) 2
      && match dict_get "id" d with Some i => is_str i | None => false end
      && match dict_get "charges" d with Some c => is_str_list c | None => false end
  | _ => false
  end.

Definition wf_partial (v : value) : bool :=
  match v with
  | VDict d =>
      Nat.eqb (length d) 2
      && match dict_get "risk" d with
         | Some (VStr r) => BaseSearch.in_risk_levels r
         | _ => false
         end
      && match dict_get "notices" d with
         | Some (VDict ns) =>
             bool_decide (NoDup (ns.*1)) && forallb (fun kv => wf_notice kv.2) ns
         | _ => false
         end
  | _ => false
  end.

(** Reading a response: [v["risk"]], [v["notices"][source]] and
    [v["notices"][source]["charges"]]. *)
Definition item (key : string) (v : value) : option value :=
  match v with VDict d => dict_get key d | _ => None end.

Definition risk_of (v : value) : option value := item "risk" v.

Definition notice_of (source : string) (v : value) : option value :=
  item "notices" v ≫= item source.

Definition charges_of (source : string) (v : value) : option value :=
  notice_of source v ≫= item "charges".

(** Severity of a risk level: its position in [RISK_LEVELS]. *)
Definition severity (r : string) : nat :=
  default 0%nat (BaseSearch.index_of r BaseSearch.RISK_LEVELS).

(** Deduplication as the specification words it: every element is kept
    at its first occurrence and its later occurrences are dropped. *)
Fixpoint first_occurrences (l : list string) : list string :=
  match l with
  | [] => []
  | x :: rest => x :: filter (fun y => y ≠ x) (first_occurrences rest)
  end.

(** *** A typed view of well-formed responses *)

(** A notice and a partial result as records; the boolean records which
    of the two keys comes first in the dictionary. *)
Record notice := Notice {
  n_id_first : bool;
  n_id : string;
  n_charges : list string
}.

Record partial := Partial {
  p_risk_first : bool;
  p_risk : string;
  p_notices : list (string * notice)
}.

Definition notice_items (n : notice) : list (string * value) :=
  if n_id_first n
  then [("id", VStr (n_id n)); ("charges", VList (VStr <$> n_charges n))]
  else [("charges", VList (VStr <$> n_charges n)); ("id", VStr (n_id n))].

Definition notices_items (ns : list (string * notice)) : list (string * value) :=
  prod_map id (fun n => VDict (notice_items n)) <$> ns.

Definition partial_items (p : partial) : list (string * value) :=
  if p_risk_first p
  then [("risk", VStr (p_risk p)); ("notices", VDict (notices_items (p_notices p)))]
  else [("notices", VDict (notices_items (p_notices p))); ("risk", VStr (p_risk p))].

Definition partial_ok (p : partial) : Prop :=
  BaseSearch.in_risk_levels (p_risk p) = true ∧ NoDup ((p_notices p).*1).

(** Merging on the typed view: the later id wins, the charges are
    concatenated and deduplicated, the higher risk is kept, and notices
    are merged key by key in the order of [merge_recursive]. *)
Definition notice_merge (n1 n2 : notice) : notice :=
  Notice (n_id_first n1) (n_id n2)
         (first_occurrences (n_charges n1 ++ n_charges n2)).

Fixpoint dict_merge {V : Type} (f : V → V → V) (d1 d2 : list (string * V))
  : list (string * V) :=
  match d2 with
  | [] => d1
  | (key, new) :: rest =>
      dict_merge f
        (dict_set key (match dict_get key d1 with
                       | Some old => f old new
                       | None => new
                       end) d1)
        rest
  end.

(** The value [dict_merge] leaves under a key, from the values the two
    dictionaries have under it. *)
Definition merge_opt {V : Type} (f : V → V → V) (o1 o2 : option V) : option V :=
  match o1, o2 with
  | Some a, Some b => Some (f a b)
  | Some a, None => Some a
  | None, o => o
  end.

Definition risk_max (r1 r2 : string) : string :=
  if (severity r1 <? severity r2)%nat then r2 else r1.

Definition partial_merge (p1 p2 : partial) : partial :=
  Partial (p_risk_first p1) (risk_max (p_risk p1) (p_risk p2))
          (dict_merge notice_merge (p_notices p1) (p_notices p2)).

(** ** Sample responses *)

Definition sample_notice (notice_id : string) (charges : list string) : value :=
  VDict [("id", VStr notice_id); ("charges", VList (VStr <$> charges))].

Definition sample_fbi : value :=
  VDict [("risk", VStr "Low");
         ("notices", VDict [("fbi-most-wanted", sample_notice "1" ["A"; "B"])])].

Definition sample_fbi_terror : value :=
  VDict [("risk", VStr "Dangerous");
         ("notices", VDict [("fbi-most-wanted", sample_notice "2" ["B"; "C"]);
                            ("fbi-terrorists", sample_notice "7" ["T"])])].

Definition sample_interpol : value :=
  VDict [("notices", VDict [("interpol-red", sample_notice "9" ["C"; "A"; "C"]);
                            ("fbi-most-wanted", sample_notice "3" ["D"; "A"])]);
         ("risk", VStr "High")].

(** The two responses of the specification's charge example; they carry
    no risk. *)
Definition sample_x_ab : value :=
  VDict [("notices", VDict [("X", sample_notice "1" ["A"; "B"])])].

Definition sample_x_bc : value :=
  VDict [("notices", VDict [("X", sample_notice "1" ["B"; "C"])])].

(** ** Sample runs *)

(** Five sources and one method: source 0 finds the subject, source 1 is
    blocked by a CAPTCHA, source 2 does not finish in time, source 3
    finds nothing, source 4 gets an invalid response. *)
Definition sample_behaviour (max_threads timeout : Z) (method : unit)
  (src : nat) : CrimeScrape.unit_outcome :=
  match src with
  | 0 => CrimeScrape.Returned sample_fbi
  | 1 => CrimeScrape.Raised CaptchaError
  | 2 => CrimeScrape.Pending
  | 3 => CrimeScrape.Returned VNone
  | 4 => CrimeScrape.Raised InvalidResponseError
  | _ => CrimeScrape.Returned sample_interpol
  end.

Definition sample_settings : CrimeScrape.settings :=
  CrimeScrape.Settings true false 5 30.

(** A cache directory holding one entry, written at time 0 under the
    name ["k"]. *)
Definition sample_world (data : value) : @CrimeScrape.world CrimeScrape.sample_library :=
  CrimeScrape.World CrimeScrape.sample_library []
    CrimeScrape.DirPresent
    {[ "k" := VDict [("timestamp", VInt 0); ("data", data)] ]}
    true true.

(** A place where the cache directory cannot be created. *)
Definition blocked_world : @CrimeScrape.world CrimeScrape.sample_library :=
  CrimeScrape.World CrimeScrape.sample_library [] CrimeScrape.DirBlocked ∅ true true.

(** The same cache directory as [sample_world], where files can be
    neither written nor removed. *)
Definition sample_world_read_only (data : value)
  : @CrimeScrape.world CrimeScrape.sample_library :=
  CrimeScrape.World CrimeScrape.sample_library []
    CrimeScrape.DirPresent
    {[ "k" := VDict [("timestamp", VInt 0); ("data", data)] ]}
    false false.

(** Source 0 finds the subject and source 1 ends its thread with
    [sys.exit()]. *)
Definition sample_behaviour_exit (max_threads timeout : Z) (method : unit)
  (src : nat) : CrimeScrape.unit_outcome :=
  match src with
  | 0 => CrimeScrape.Returned sample_fbi
  | _ => CrimeScrape.Exited SystemExit
  end.

(** Source 0 finds the subject and source 1 never answers. *)
Definition sample_behaviour_hang (max_threads timeout : Z) (method : unit)
  (src : nat) : CrimeScrape.unit_outcome :=
  match src with
  | 0 => CrimeScrape.Returned sample_fbi
  | _ => CrimeScrape.Hanging
  end.

(** The settings of [--threads 0]. *)
Definition sample_settings_no_threads : CrimeScrape.settings :=
  CrimeScrape.Settings true false 0 30.

(** ** lib/basesearch.py: validation *)

(** The body of the loop of [validate_response] over
    [data["notices"].items()]: the checks on one notice. *)
Definition validate_details (details : value) : result unit :=
  match details with
  | VDict d =>
      match dict_get "id" d with
      | Some (VStr _) =>
          match dict_get "charges" d with
          | Some (VList charges) =>
              if forallb is_str charges then Ok () else Raise InvalidResponseError
          | _ => Raise InvalidResponseError
          end
      | _ => Raise InvalidResponseError
      end
  | _ => Raise InvalidResponseError
  end.

Fixpoint validate_notices (notices : list (string * value)) : result unit :=
  match notices with
  | [] => Ok ()
  | (source, details) :: rest =>
      _ ← validate_details details; validate_notices rest
  end.

(** [validate_response(data)]: [data] itself when it has the shape of a
    response, [InvalidResponseError] otherwise.  The deprecation warning
    it emits first is not part of the model. *)
Definition validate_response (data : value) : result value :=
  match data with
  | VDict d =>
      match dict_get "risk" d, dict_get "notices" d with
      | Some risk, Some notices =>
          match risk with
          | VStr r =>
              if BaseSearch.in_risk_levels r then
                match notices with
                | VDict ns => _ ← validate_notices ns; Ok data
                | _ => Raise InvalidResponseError
                end
              else Raise InvalidResponseError
          | _ => Raise InvalidResponseError
          end
      | _, _ => Raise InvalidResponseError
      end
  | _ => Raise InvalidResponseError
  end.

(** [v["notices"][source]["id"]] *)
Definition id_of (source : string) (v : value) : option value :=
  notice_of source v ≫= item "id".

(** The keys of [v["notices"]]. *)
Definition sources_of (v : value) : list string :=
  match item "notices" v with
  | Some (VDict ns) => ns.*1
  | _ => []
  end.

(** What [_preserve_order_dedup] keeps of [items] when the elements of
    [seen] have been met before: each element at its first occurrence. *)
Fixpoint unseen {D : Type} (items seen : list (pyval D)) : list (pyval D) :=
  match items with
  | [] => []
  | x :: rest =>
      if existsb (hash_eqb x) seen then unseen rest seen
      else x :: unseen rest (x :: seen)
  end.

(** ** crimescrape.py: the routes and the standalone run *)

Module Routes.
Import CrimeScrape.

Definition EMAIL_REGEX : string := "^\S+@\S+\.\S+$".
Definition PHONE_REGEX : string := "^\+?[(]?\d{3})?[-\s\.]?[0-9]{3}[-\s\.]?[0-9]{4,6}$".
Definition IP_REGEX : string :=
  "^((\d|[1-9]\d|1\d{2}|2[0-4]\d|25[0-5])\.){3}(\d|[1-9]\d|1\d{2}|2[0-4]\d|25[0-5])$".
Definition HOST_REGEX : string :=
  "^(([a-zA-Z0-9]|[a-zA-Z0-9][a-zA-Z0-9\-]*[a-zA-Z0-9])\.)*([A-Za-z0-9]|[A-Za-z0-9][A-Za-z0-9\-]*[A-Za-z0-9])$".

(** [gen_error(info)] *)
Definition gen_error (info : string) : value :=
  VDict [("status", VStr "error"); ("info", VStr info)].

(** A closing parenthesis of a pattern that closes no group: [re]
    rejects such a pattern with [re.error] ("unbalanced parenthesis")
    when it compiles it.  The scan skips escaped characters and
    character classes; in a class a [[]] that comes first, or first after
    [[^]], is an ordinary character. *)
Inductive scan_mode :=
  | Outside
  | ClassStart
  | ClassNegated
  | ClassBody.

(** Whether the character [c] is the one of the one-character string
    [s]. *)
Definition is_char (c : Ascii.ascii) (s : string) : bool :=
  String.eqb (String c EmptyString) s.

Fixpoint unbalanced_from (mode : scan_mode) (escaped : bool) (depth : nat)
  (pattern : string) : bool :=
  match pattern with
  | EmptyString => false
  | String c rest =>
      if escaped then
        unbalanced_from (match mode with Outside => Outside | _ => ClassBody end)
          false depth rest
      else if is_char c "\" then unbalanced_from mode true depth rest
      else
        match mode with
        | Outside =>
            if is_char c "[" then unbalanced_from ClassStart false depth rest
            else if is_char c "(" then unbalanced_from Outside false (S depth) rest
            else if is_char c ")" then
              match depth with
              | 0 => true
              | S depth' => unbalanced_from Outside false depth' rest
              end
            else unbalanced_from Outside false depth rest
        | ClassStart =>
            if is_char c "^" then unbalanced_from ClassNegated false depth rest
            else unbalanced_from ClassBody false depth rest
        | ClassNegated => unbalanced_from ClassBody false depth rest
        | ClassBody =>
            if is_char c "]" then unbalanced_from Outside false depth rest
            else unbalanced_from ClassBody false depth rest
        end
  end.

Definition unbalanced (pattern : string) : bool :=
  unbalanced_from Outside false 0 pattern.

Section routes.
Context {L : Library} {Src : Type}.
(** [bool(re.match(pattern, s))], or what compiling the pattern
    raises. *)
Variable re_match : string → string → result bool.
(** A search method of [search_by_name] is the closure
    [lambda src: src.search(fname, lname)]; it stands here as the pair of
    names it holds. *)
Variable behaviour : Z → Z → string * string → Src → unit_outcome.
Variable set_order :
  list (Src * (string * string)) → list (Src * (string * string)).
Variable cfg : settings.
(** [get_name_sources()] *)
Variable name_sources : list Src.

Definition search_by_host (host : string) (t_load t_store : Q) (spins : nat)
  (w : world) : outcome :=
  match (is_ip ← re_match IP_REGEX host;
         if is_ip : bool then mret true else re_match HOST_REGEX host) with
  | Raise e => Throw e w
  | Ok false => Return (Plain (gen_error "Invalid hostname")) w
  | Ok true =>
      perform_search behaviour set_order cfg host "host" [] []
        t_load t_store spins w
  end.

Definition search_by_phone (phone : string) (t_load t_store : Q) (spins : nat)
  (w : world) : outcome :=
  match re_match PHONE_REGEX phone with
  | Raise e => Throw e w
  | Ok false => Return (Plain (gen_error "Invalid phone number")) w
  | Ok true =>
      perform_search behaviour set_order cfg phone "phone" [] []
        t_load t_store spins w
  end.

Definition search_by_email (email : string) (t_load t_store : Q) (spins : nat)
  (w : world) : outcome :=
  match re_match EMAIL_REGEX email with
  | Raise e => Throw e w
  | Ok false => Return (Plain (gen_error "Invalid email address")) w
  | Ok true =>
      perform_search behaviour set_order cfg email "email" [] []
        t_load t_store spins w
  end.

Definition search_by_ssn (ssn : string) (t_load t_store : Q) (spins : nat)
  (w : world) : outcome :=
  perform_search behaviour set_order cfg ssn "ssn" [] [] t_load t_store spins w.

Definition search_by_name (fname lname : string) (t_load t_store : Q)
  (spins : nat) (w : world) : outcome :=
  perform_search behaviour set_order cfg (fname +:+ lname) "name"
    name_sources [(fname, lname)] t_load t_store spins w.
End routes.
End Routes.

Module Standalone.
Import CrimeScrape.

(** [v[key]] for a string key: [KeyError] on a dictionary without the
    key, [TypeError] on anything that is not a dictionary. *)
Definition py_getitem (v : value) (key : string) : result value :=
  match v with
  | VDict d =>
      match dict_get key d with
      | Some x => Ok x
      | None => Raise KeyError
      end
  | _ => Raise TypeError
  end.

(** The files [run_standalone] works on, and whether [open(path, "w")]
    succeeds on a path. *)
Record disk {L : Library} := Disk {
  files : gmap string text;
  can_write : string → bool
}.

(** How [run_standalone] ends: it returns or raises an exception that
    derives from [Exception]; it raises one that does not; or it never
    returns because an engine never finishes ([as_completed] has no
    timeout, and leaving the [with] block waits for every engine). *)
Inductive run {L : Library} :=
  | Finished (r : result (option string)) (d : disk)
  | Aborted (b : base_exn) (d : disk)
  | Blocked (d : disk).

Section standalone.
Context {L : Library} {Engine : Type}.
Variable cfg : settings.
(** [engine.__class__.__name__] *)
Variable class_name : Engine → string.
(** What [engine.search(fname, lname)] does in its worker; there is no
    timeout here, and an engine that is [Pending] or [Hanging] has not
    finished however long the caller waits. *)
Variable search : Engine → value → value → unit_outcome.
(** What the engines do to the files while they run: [DatabaseSearch],
    for one, opens [db/local.db], which creates it when it is not
    there. *)
Variable engine_files : gmap string text → gmap string text.
(** The order in which [as_completed] yields the futures. *)
Variable as_completed : list Engine → list Engine.
(** [json.dumps(results, indent=4, sort_keys=True)], which is what
    [json.dump] writes, and [os.path.abspath]. *)
Variable json_dump_sorted : value → text.
Variable abspath : string → string.

Definition set_files (f : gmap string text) (d : disk) : disk :=
  Disk L f (can_write d).

(** The loop over [as_completed(future_to_engine)]. *)
Fixpoint gather (fname lname : value) (completed : list Engine)
  (results : list (string * value)) : ending (list (string * value)) :=
  match completed with
  | [] => Returns results
  | engine :: rest =>
      results' ←
        try_except
          (result ← future_result (search engine fname lname);
           if py_truthy result
           then Returns (dict_set (class_name engine) result results)
           else Returns results)
          (fun err => Returns results);
      gather fname lname rest results'
  end.

(** [run_standalone(queryfile, resultfile)], with [search_engines] the
    list [get_name_sources()] gives.
    [ThreadPoolExecutor(max_workers=MAX_THREADS)] raises [ValueError]
    unless [MAX_THREADS] is positive.  The arguments
    [search_query["fname"]] and [search_query["lname"]] are evaluated
    when the first engine is submitted. *)
Definition run_standalone (search_engines : list Engine)
  (queryfile resultfile : string) (d : disk) : run :=
  let d := if bool_decide (is_Some (files d !! resultfile))
           then set_files (delete resultfile (files d)) d
           else d in
  match files d !! queryfile with
  | None => Finished (Raise OSError) d
  | Some query_text =>
      match json_loads query_text with
      | Raise e => Finished (Raise e) d
      | Ok search_query =>
          if (MAX_THREADS cfg <=? 0)%Z then Finished (Raise ValueError) d
          else
            let submitted :=
              match search_engines with
              | [] => Ok (VNone, VNone)
              | _ :: _ =>
                  fname ← py_getitem search_query "fname";
                  lname ← py_getitem search_query "lname";
                  mret (fname, lname)
              end in
            match submitted with
            | Raise e => Finished (Raise e) d
            | Ok (fname, lname) =>
                let d := match search_engines with
                         | [] => d
                         | _ :: _ => set_files (engine_files (files d)) d
                         end in
                if forallb (fun engine => finished (search engine fname lname))
                     search_engines
                then
                  match gather fname lname (as_completed search_engines) [] with
                  | Returns results =>
                      if py_truthy (VDict results) then
                        if can_write d resultfile
                        then Finished (Ok (Some (abspath resultfile)))
                               (set_files
                                  (<[resultfile := json_dump_sorted (VDict results)]>
                                     (files d)) d)
                        else Finished (Raise OSError) d
                      else Finished (Ok None) d
                  | Raises e => Finished (Raise e) d
                  | Exits b => Aborted b d
                  | Never => Blocked d
                  end
                else Blocked d
            end
      end
  end.

(** The engines that return a non-empty result, with their class
    names. *)
Definition found (fname lname : value) (search_engines : list Engine)
  : list (string * value) :=
  omap (fun engine =>
          match search engine fname lname with
          | Returned result =>
              if py_truthy result then Some (class_name engine, result) else None
          | _ => None
          end) search_engines.

(** The exception of the first engine of the list that raised one that
    does not derive from [Exception]. *)
Definition first_exit (fname lname : value) (completed : list Engine)
  : option base_exn :=
  head (omap (fun engine =>
                match search engine fname lname with
                | Exited b => Some b
                | _ => None
                end) completed).
End standalone.
End Standalone.

(** The world a first search for ["k"] leaves, which found
    [sample_interpol] and [sample_fbi] and stored them at time 20. *)
Definition sample_world_searched : @CrimeScrape.world CrimeScrape.sample_library :=
  (CrimeScrape.store_cache "k" (VList [sample_interpol; sample_fbi]) (20 # 1)
     (sample_world (VList []))).2.

(** The world a search for ["k"] that found nothing leaves. *)
Definition sample_world_nothing : @CrimeScrape.world CrimeScrape.sample_library :=
  (CrimeScrape.store_cache "k" (VList []) (20 # 1) (sample_world (VList []))).2.

(** Settings with the cache off (--nocache), in standalone mode. *)
Definition sample_settings_nocache : CrimeScrape.settings :=
  CrimeScrape.Settings false true 5 30.

(** A stand-in for [re.match]: it rejects the patterns with a closing
    parenthesis that closes nothing ([ValueError] stands for [re.error],
    which the model does not name) and matches every non-empty string
    otherwise. *)
Definition sample_re_match (pattern s : string) : result bool :=
  if Routes.unbalanced pattern then Raise ValueError
  else Ok (negb (String.eqb s "")).

(** Name searches: the source 0 finds the subject whatever the names
    are, the other sources find nothing. *)
Definition sample_name_behaviour (max_threads timeout : Z)
  (method : string * string) (src : nat) : CrimeScrape.unit_outcome :=
  match src with
  | 0 => CrimeScrape.Returned sample_fbi
  | _ => CrimeScrape.Returned VNone
  end.

(** The world the name search for ("Jo", "Hnson") leaves when it ran at
    time 20 on an empty cache. *)
Definition sample_world_named : @CrimeScrape.world CrimeScrape.sample_library :=
  (CrimeScrape.store_cache "nameJoHnson" (VList [sample_fbi]) (20 # 1)
     (sample_world (VList []))).2.

(** ** A sample standalone run *)

(** Three engines: the first two find the subject, the third is stopped
    by a CAPTCHA. *)
Definition sample_class_name (engine : nat) : string :=
  match engine with
  | 0 => "InterpolSearch"
  | 1 => "FBISearch"
  | _ => "NCASearch"
  end.

Definition sample_engine_search (engine : nat) (fname lname : value)
  : CrimeScrape.unit_outcome :=
  match engine with
  | 0 => CrimeScrape.Returned sample_interpol
  | 1 => CrimeScrape.Returned sample_fbi
  | _ => CrimeScrape.Raised CaptchaError
  end.

(** A dump that does not depend on the order of the items of the
    dictionary: the items are listed in the order of the finite map
    they make. *)
Definition sample_dump_sorted (v : value) : value :=
  match v with
  | VDict items => VDict (map_to_list (list_to_map items : gmap string value))
  | _ => v
  end.

(** What the engines leave on the disk: [DatabaseSearch] has created
    its database where there was none. *)
Definition sample_engine_files (f : gmap string value) : gmap string value :=
  match f !! "db/local.db" with
  | Some _ => f
  | None => <["db/local.db" := VStr ""]> f
  end.

Definition sample_disk : @Standalone.disk CrimeScrape.sample_library :=
  Standalone.Disk CrimeScrape.sample_library
    {[ "query.json" := VDict [("fname", VStr "John"); ("lname", VStr "Doe")];
       "results.json" := VStr "previous results" ]}
    (fun _ => true).

(** ** Strings and dynamic operations *)

(** [needle in haystack] on strings. *)
Fixpoint str_in (needle haystack : string) : bool :=
  String.prefix needle haystack ||
  match haystack with
  | EmptyString => false
  | String _ rest => str_in needle rest
  end.

(** [s.split(sep)] for a separator that is not empty: the pieces between
    the occurrences of [sep], found from left to right.  [skip] counts
    the characters of an occurrence still to pass, [piece] is the piece
    being read. *)
Fixpoint str_split_from (sep : string) (skip : nat) (piece s : string)
  : list string :=
  match s with
  | EmptyString => [piece]
  | String c rest =>
      match skip with
      | S skip' => str_split_from sep skip' piece rest
      | 0 =>
          if String.prefix sep s
          then piece :: str_split_from sep (String.length sep - 1) EmptyString rest
          else str_split_from sep 0 (piece +:+ String c EmptyString) rest
      end
  end.

Definition str_split (sep s : string) : list string :=
  str_split_from sep 0 EmptyString s.

(** [s.replace(old, new)] for an [old] that is not empty. *)
Definition str_replace (old new s : string) : string :=
  String.concat new (str_split old s).

(** The case conversions of [str], which follow the Unicode tables:
    [s.lower()] and [s.capitalize()]. *)
Class CaseOps := {
  str_lower : string → string;
  str_capitalize : string → string
}.

(** [v.get(key, default)], which only dictionaries have. *)
Definition py_get (v : value) (key : string) (dflt : value) : result value :=
  match v with
  | VDict d => Ok (default dflt (dict_get key d))
  | _ => Raise AttributeError
  end.

(** The elements [for x in v] goes through: the items of a list, the keys
    of a dictionary, the characters of a string. *)
Definition py_iter (v : value) : result (list value) :=
  match v with
  | VList xs => Ok xs
  | VDict d => Ok (VStr <$> d.*1)
  | VStr s => Ok ((fun c => VStr (String c EmptyString)) <$> String.list_ascii_of_string s)
  | _ => Raise TypeError
  end.

(** ** The sources *)

Module FBISearch.

Definition non_dangerous_crimes : list string :=
  ["White Collar Crimes"; "Counterintelligence"].

(** [_clean_charges(charges_str)] *)
Definition _clean_charges `{CaseOps} (charges_str : string) : list string :=
  (fun charge => str_capitalize (str_lower charge)) <$> str_split "; " charges_str.

(** [_default_notice(crime)] *)
Definition _default_notice (crime : string) : value :=
  VDict [("risk", VStr (if existsb (String.eqb crime) non_dangerous_crimes
                        then "High" else "Dangerous"));
         ("notices",
           VDict [("fbi-most-wanted",
                   VDict [("id", VStr ""); ("charges", VList [VStr "Unknown"])])])].

(** [_scrape_details(notice_url, matched_name, crime)], with the texts
    [extract_text] finds on the page of the notice: the name banner, the
    summary and the warning banner. *)
Definition _scrape_details `{CaseOps} (name_banner charges warning_banner : string)
  (matched_name crime : string) : value :=
  if negb (String.eqb name_banner matched_name) then _default_notice crime
  else
    let risk := if str_in "DANGEROUS" warning_banner then "Dangerous" else "High" in
    VDict [("risk", VStr risk);
           ("notices",
             VDict [("fbi-most-wanted",
                     VDict [("id", VStr (str_replace " " "" (str_lower crime)));
                            ("charges", VList (VStr <$> _clean_charges charges))])])].

(** [x and x != ""] *)
Definition found (v : value) : bool :=
  py_truthy v && negb (match v with VStr s => String.eqb s "" | _ => false end).

(** [search(fname, lname)], with the outcomes of the three lookups
    [_search_most_wanted], [_search_fugitives] and [_search_terrorists],
    which run in this order. *)
Definition search (most_wanted fugitives terrorists : result value) : result value :=
  most_wanted ← most_wanted;
  fugitives ← fugitives;
  terrorists ← terrorists;
  if negb (py_truthy most_wanted || py_truthy fugitives || py_truthy terrorists)
  then Ok VNone
  else
    let results := [] in
    let results := if found most_wanted then results ++ [most_wanted] else results in
    let results := if found fugitives then results ++ [fugitives] else results in
    let results := if found terrorists then results ++ [terrorists] else results in
    BaseSearch.merge_responses results.

End FBISearch.

Module InterpolSearch.

(** [";\r\n"], the separator of the charges of a warrant. *)
Definition charge_separator : string :=
  ";" +:+ String (Ascii.ascii_of_nat 13) (String (Ascii.ascii_of_nat 10) EmptyString).

(** [[warrant.get("charge", "Unknown") for warrant in
    notice_data.get("arrest_warrants", [])]] *)
Definition charges_tmp (notice_data : value) : result (list value) :=
  warrants ← py_get notice_data "arrest_warrants" (VList []);
  warrants ← py_iter warrants;
  mapM (fun warrant => py_get warrant "charge" (VStr "Unknown")) warrants.

(** [try: charges = charges_tmp[0].split(";\r\n")] and
    [except: charges = charges_tmp]: an empty list has no first element,
    and only a string has [split]. *)
Definition split_first (charges_tmp : list value) : list value :=
  match charges_tmp with
  | VStr first :: _ => VStr <$> str_split charge_separator first
  | _ => charges_tmp
  end.

(** [_process_notice(notice_data, notice_type)] *)
Definition _process_notice (notice_data : value) (notice_type : string)
  : result value :=
  charges_tmp ← charges_tmp notice_data;
  let charges := split_first charges_tmp in
  entity_id ← py_get notice_data "entity_id" VNone;
  mret (VDict [("risk", VStr "Dangerous");
               ("notices",
                 VDict [("interpol-" +:+ notice_type +:+ "-notice",
                         VDict [("id", entity_id);
                                ("charges",
                                  VList (if py_truthy (VList charges) then charges
                                         else [VStr "No charges available"]))])])]).

(** [search(fname, lname)], with the outcomes of [_search_red_notices]
    and [_search_un_notices]. *)
Definition search (red un : result value) : result value :=
  red ← red;
  un ← un;
  if negb (py_truthy red || py_truthy un) then Ok VNone
  else
    let results := [] in
    let results := if py_truthy red then results ++ [red] else results in
    let results := if py_truthy un then results ++ [un] else results in
    BaseSearch.merge_responses results.

End InterpolSearch.

Module OFACSearch.

(** [a or b] on strings: [a] unless it is empty. *)
Definition py_or (a b : string) : string :=
  if String.eqb a "" then b else a.

(** [("drug" or "murder" or "kill" or "terrorist" or "terrorism")] *)
Definition risk_keyword : string :=
  py_or (py_or (py_or (py_or "drug" "murder") "kill") "terrorist") "terrorism".

(** The end of [_grab_details(url)], with the texts read from the page:
    the notice id, the cell the risk is judged on and the cell of the
    charges. *)
Definition _grab_details (notice_id risk_cell charges_cell : string) : result value :=
  let risk := if str_in risk_keyword risk_cell then "Dangerous" else "High" in
  let charges := [VStr charges_cell] in
  BaseSearch.gen_response risk "ofac-sanctions" notice_id (VList charges).

End OFACSearch.

Module OpenSanctionsSearch.

(** The end of [search(fname, lname)], with the address of the page of
    details and the tags read from it. *)
Definition search (details_url : string) (tags : list string) : result value :=
  let risk := "Low" in
  let risk := if existsb (String.eqb "Sanctioned entity") tags then "Medium" else risk in
  let risk := if existsb (String.eqb "Crime") tags then "High" else risk in
  let risk := if existsb (String.eqb "Wanted") tags then "Dangerous" else risk in
  let notice_id := "" in
  let charges := [VStr details_url] in
  let source := "opensanctions" in
  BaseSearch.gen_response risk source notice_id (VList charges).

(** The level a tag stands for. *)
Definition tag_level (tag : string) : nat :=
  if String.eqb tag "Wanted" then 3
  else if String.eqb tag "Crime" then 2
  else if String.eqb tag "Sanctioned entity" then 1
  else 0.

End OpenSanctionsSearch.

(** ** lib/searchutils.py *)

Module StealthSearch.

(** The fields [driver], [browser] and [playwright] of the object;
    a number names a page, a browser or a Playwright instance. *)
Record fields := Fields {
  driver : option nat;
  browser : option nat;
  playwright : option nat
}.

(** The browsers that are open, the Playwright instances that run, and
    the next free name. *)
Record processes := Processes {
  browsers : list nat;
  playwrights : list nat;
  next : nat
}.

(** What the calls into Playwright do during one call of a method:
    which of them succeed, what the failing ones raise, and what loading
    the page gives ([goto], the waits, the scrolling and [content()]
    taken together: the page source, or what one of them raises). *)
Record script := Script {
  start_ok : bool;
  launch_ok : bool;
  page_ok : bool;
  headers_ok : bool;
  page_source : result string;
  close_ok : bool;
  stop_ok : bool;
  failure : exn
}.

Definition without (handle : nat) (handles : list nat) : list nat :=
  List.filter (fun h => negb (Nat.eqb h handle)) handles.

(** [_close_driver()]: an exception of [browser.close()] or
    [playwright.stop()] is logged, and the process is then taken to be
    still there. *)
Definition _close_driver (s : script) (self : fields) (p : processes)
  : fields * processes :=
  let p := match browser self with
           | Some b =>
               if close_ok s
               then Processes (without b (browsers p)) (playwrights p) (next p)
               else p
           | None => p
           end in
  let p := match playwright self with
           | Some pw =>
               if stop_ok s
               then Processes (browsers p) (without pw (playwrights p)) (next p)
               else p
           | None => p
           end in
  (Fields None None None, p).

(** [_start_driver()]: the fields are assigned once the page exists;
    before that the new Playwright instance and browser are held by
    local variables only. *)
Definition _start_driver (s : script) (self : fields) (p : processes)
  : result unit * (fields * processes) :=
  if negb (start_ok s) then (Raise (failure s), _close_driver s self p)
  else
    let pw := next p in
    let p := Processes (browsers p) (playwrights p ++ [pw]) (S (next p)) in
    if negb (launch_ok s) then (Raise (failure s), _close_driver s self p)
    else
      let b := next p in
      let p := Processes (browsers p ++ [b]) (playwrights p) (S (next p)) in
      if negb (page_ok s) then (Raise (failure s), _close_driver s self p)
      else
        let page := next p in
        let p := Processes (browsers p) (playwrights p) (S (next p)) in
        (Ok (), (Fields (Some page) (Some b) (Some pw), p)).

Definition captcha_patterns : list string :=
  ["recaptcha"; "hcaptcha"; "cloudflare.*challenge"; "you.*robot"; "challenge.*page"].

(** [_check_for_captcha(content)], with [re_search pattern s] for
    [bool(re.search(pattern, s))]. *)
Definition _check_for_captcha `{CaseOps} (re_search : string → string → bool)
  (content : string) : bool :=
  let content_lower := str_lower content in
  existsb (fun pattern => re_search pattern content_lower) captcha_patterns.

(** [fetch_url(url, scroll, wait_seconds, headers)]; [headers] tells
    whether headers were given, [captcha] is [_check_for_captcha]. *)
Definition fetch_url (s : script) (captcha : string → bool) (headers : bool)
  (self : fields) (p : processes) : result value * (fields * processes) :=
  match _start_driver s self p with
  | (Raise e, after) => (Raise e, after)
  | (Ok _, (self, p)) =>
      match driver self with
      | None => (Ok VNone, _close_driver s self p)
      | Some _ =>
          if headers && negb (headers_ok s) then (Raise (failure s), (self, p))
          else
            let outcome :=
              match page_source s with
              | Ok src => if captcha src then Raise CaptchaError else Ok (VStr src)
              | Raise CaptchaError => Raise CaptchaError
              | Raise _ => Ok VNone
              end in
            (outcome, _close_driver s self p)
      end
  end.

End StealthSearch.

(** Case conversions for examples: the identity. *)
Definition sample_case_ops : CaseOps :=
  {| str_lower := id; str_capitalize := id |}.

(** A page load that works, on a site that shows a CAPTCHA. *)
Definition sample_script : StealthSearch.script :=
  StealthSearch.Script true true true true (Ok "please solve this recaptcha")
    true true RuntimeError.

Definition sample_processes : StealthSearch.processes :=
  StealthSearch.Processes [4] [3] 7.

(** * Properties *)

#[local] Arguments String.eqb : simpl never.

(** Decides the comparisons of string literals in the goal. *)
Ltac eqb_lit :=
  repeat match goal with
    | |- context [String.eqb ?a ?b] =>
        let r := eval vm_compute in (String.eqb a b) in
        lazymatch r with
        | true => change (String.eqb a b) with true
        | false => change (String.eqb a b) with false
        end
    end; cbv iota.

(** ** Filtering lists *)

Section filter.
Context {A : Type} (P Q : A → Prop) `{!∀ x, Decision (P x), !∀ x, Decision (Q x)}.

Lemma filter_iff_elem (l : list A) :
  (∀ x, x ∈ l → P x ↔ Q x) → filter P l = filter Q l.
Proof.
  induction l as [|a l IH]; intros Hl; [done|].
  rewrite !filter_cons, IH by (intros x Hx; apply Hl; by right).
  apply decide_ext, Hl. by left.
Qed.

Lemma filter_all (l : list A) : (∀ x, x ∈ l → P x) → filter P l = l.
Proof.
  induction l as [|a l IH]; intros Hl; [done|].
  rewrite filter_cons_True by (apply Hl; by left).
  f_equal. apply IH. intros x Hx. apply Hl. by right.
Qed.
End filter.

(** ** Dictionaries as association lists *)

Section dict.
Context {V : Type}.
Implicit Types (d : list (string * V)) (k : string) (v : V).

Lemma dict_get_None k d : dict_get k d = None ↔ k ∉ d.*1.
Proof.
  induction d as [|[k' v'] d IH]; simpl.
  - split; [intros _; apply not_elem_of_nil | done].
  - destruct (String.eqb_spec k' k) as [Heq|Hne].
    + subst k'. split; [done | intros Hn; exfalso; apply Hn; left].
    + rewrite IH, not_elem_of_cons. split; [intros ?; split; [congruence|done] | by intros [_ ?]].
Qed.

Lemma dict_get_Some_elem k v d : dict_get k d = Some v → k ∈ d.*1.
Proof.
  intros H. destruct (decide (k ∈ d.*1)) as [|Hn]; [done|].
  apply dict_get_None in Hn. congruence.
Qed.

Lemma dict_set_keys_in k v d : k ∈ d.*1 → (dict_set k v d).*1 = d.*1.
Proof.
  induction d as [|[k' v'] d IH]; simpl; intros Hin.
  - by apply elem_of_nil in Hin.
  - destruct (String.eqb_spec k' k) as [->|Hne]; [done|].
    simpl. f_equal. apply IH. apply elem_of_cons in Hin as [->|]; done.
Qed.

Lemma dict_set_keys_notin k v d : k ∉ d.*1 → dict_set k v d = d ++ [(k, v)].
Proof.
  induction d as [|[k' v'] d IH]; simpl; intros Hin; [done|].
  apply not_elem_of_cons in Hin as [Hne Hin].
  destruct (String.eqb_spec k' k) as [->|_]; [done|].
  by rewrite IH.
Qed.

Lemma dict_get_set k k' v d :
  dict_get k' (dict_set k v d) = if String.eqb k k' then Some v else dict_get k' d.
Proof.
  induction d as [|[k0 v0] d IH]; simpl.
  - done.
  - destruct (String.eqb_spec k0 k) as [->|Hne]; simpl.
    + destruct (String.eqb_spec k k'); done.
    + destruct (String.eqb_spec k0 k') as [->|]; [|done].
      destruct (String.eqb_spec k k'); congruence.
Qed.

Lemma dict_get_fmap {W : Type} (g : V → W) k d :
  dict_get k (prod_map id g <$> d) = g <$> dict_get k d.
Proof.
  induction d as [|[k' v'] d IH]; simpl; [done|].
  by destruct (String.eqb k' k).
Qed.

Lemma dict_set_fmap {W : Type} (g : V → W) k v d :
  dict_set k (g v) (prod_map id g <$> d) = prod_map id g <$> dict_set k v d.
Proof.
  induction d as [|[k' v'] d IH]; simpl; [done|].
  destruct (String.eqb k' k); simpl; [done|]. f_equal. apply IH.
Qed.

Lemma fmap_fst_prod_map {W : Type} (g : V → W) d :
  (prod_map id g <$> d).*1 = d.*1.
Proof. induction d as [|[k' v'] d IH]; simpl; [done|]. f_equal. apply IH. Qed.

(** Two dictionaries with the same keys in the same order and the same
    value for each key are equal. *)
Lemma dict_ext d d' :
  NoDup (d.*1) → d.*1 = d'.*1 →
  (∀ k, dict_get k d = dict_get k d') → d = d'.
Proof.
  revert d'. induction d as [|[k v] d IH]; intros [|[k' v'] d'] Hnd Hk Hg;
    simplify_eq/=; [done|].
  apply NoDup_cons in Hnd as [Hk' Hnd].
  pose proof (Hg k') as Hgk. simpl in Hgk. rewrite String.eqb_refl in Hgk.
  simplify_eq. f_equal. apply IH; [done..|].
  intros k. specialize (Hg k). simpl in Hg.
  destruct (String.eqb_spec k' k) as [->|]; [|done].
  transitivity (@None V); [|symmetry]; apply dict_get_None; congruence.
Qed.
End dict.

(** ** Key-wise merging of association lists *)

Section dict_merge.
Context {V : Type} (f : V → V → V).
Implicit Types (d : list (string * V)) (k : string).

Lemma dict_merge_get k d1 d2 :
  NoDup (d2.*1) →
  dict_get k (dict_merge f d1 d2) = merge_opt f (dict_get k d1) (dict_get k d2).
Proof.
  revert d1. induction d2 as [|[key new] d2 IH]; intros d1 Hnd; simpl.
  - unfold merge_opt. by destruct (dict_get k d1).
  - apply NoDup_cons in Hnd as [Hkey Hnd]. simpl in Hkey. rewrite IH by done.
    rewrite dict_get_set. destruct (String.eqb_spec key k) as [->|Hne]; [|done].
    apply dict_get_None in Hkey. rewrite Hkey. simpl.
    by destruct (dict_get k d1).
Qed.

Lemma dict_merge_keys d1 d2 :
  NoDup (d2.*1) →
  (dict_merge f d1 d2).*1 = d1.*1 ++ filter (fun k => k ∉ d1.*1) (d2.*1).
Proof.
  revert d1. induction d2 as [|[key new] d2 IH]; intros d1 Hnd; simpl.
  - by rewrite app_nil_r.
  - apply NoDup_cons in Hnd as [Hkey Hnd]. simpl in Hkey. rewrite IH by done.
    destruct (decide (key ∈ d1.*1)) as [Hin|Hout].
    + rewrite dict_set_keys_in by done.
      by rewrite filter_cons_False by naive_solver.
    + rewrite dict_set_keys_notin by done.
      rewrite filter_cons_True by done.
      rewrite fmap_app, <- app_assoc. simpl. do 2 f_equal.
      apply filter_iff_elem. intros k Hk.
      rewrite not_elem_of_app, not_elem_of_cons.
      split; [by intros [? _]|]. intros Hn. split; [done|].
      split; [by intros -> | apply not_elem_of_nil].
Qed.

Lemma dict_merge_NoDup d1 d2 :
  NoDup (d1.*1) → NoDup (d2.*1) → NoDup ((dict_merge f d1 d2).*1).
Proof.
  intros H1 H2. rewrite dict_merge_keys by done.
  apply NoDup_app. split_and!; [done| |by apply NoDup_filter].
  intros k Hk [Hn _]%list_elem_of_filter. done.
Qed.

Lemma dict_merge_nil_l d : NoDup (d.*1) → dict_merge f [] d = d.
Proof.
  intros Hnd. apply dict_ext.
  - by apply dict_merge_NoDup; [constructor|].
  - rewrite dict_merge_keys by done. simpl.
    apply filter_all. intros k _. apply not_elem_of_nil.
  - intros k. by rewrite dict_merge_get.
Qed.

Lemma dict_merge_assoc d1 d2 d3 :
  (∀ a b c, f (f a b) c = f a (f b c)) →
  NoDup (d1.*1) → NoDup (d2.*1) → NoDup (d3.*1) →
  dict_merge f (dict_merge f d1 d2) d3 = dict_merge f d1 (dict_merge f d2 d3).
Proof.
  intros Hf H1 H2 H3.
  assert (NoDup ((dict_merge f d2 d3).*1)) by by apply dict_merge_NoDup.
  apply dict_ext.
  - by repeat apply dict_merge_NoDup.
  - rewrite !dict_merge_keys by done.
    rewrite filter_app, <- app_assoc. do 2 f_equal.
    rewrite list_filter_filter. apply list_filter_iff. intros k.
    rewrite not_elem_of_app, list_elem_of_filter. tauto.
  - intros k. rewrite !dict_merge_get by done.
    destruct (dict_get k d1), (dict_get k d2), (dict_get k d3); simpl; by rewrite ?Hf.
Qed.
End dict_merge.

(** ** First occurrences *)

Lemma first_occurrences_elem x l : x ∈ first_occurrences l ↔ x ∈ l.
Proof.
  induction l as [|y l IH]; simpl; [done|].
  rewrite !elem_of_cons, list_elem_of_filter, IH.
  destruct (decide (x = y)); tauto.
Qed.

Lemma first_occurrences_NoDup l : NoDup (first_occurrences l).
Proof.
  induction l as [|y l IH]; simpl; constructor.
  - rewrite list_elem_of_filter. by intros [? _].
  - by apply NoDup_filter.
Qed.

Lemma first_occurrences_id l : NoDup l → first_occurrences l = l.
Proof.
  induction 1 as [|y l Hy Hl IH]; simpl; [done|].
  rewrite IH. f_equal. apply filter_all. by intros x Hx ->.
Qed.

Lemma first_occurrences_app a b :
  first_occurrences (a ++ b) =
  first_occurrences a ++ filter (fun y => y ∉ a) (first_occurrences b).
Proof.
  induction a as [|x a IH]; simpl.
  - symmetry. apply filter_all. intros y _. apply not_elem_of_nil.
  - rewrite IH, filter_app, list_filter_filter. do 2 f_equal.
    apply list_filter_iff. intros y. rewrite not_elem_of_cons. tauto.
Qed.

(** Deduplicating a concatenation does not depend on whether the parts
    were deduplicated before. *)
Lemma first_occurrences_app_l a b :
  first_occurrences (first_occurrences a ++ b) = first_occurrences (a ++ b).
Proof.
  rewrite !first_occurrences_app.
  rewrite (first_occurrences_id (first_occurrences a)) by apply first_occurrences_NoDup.
  f_equal. apply list_filter_iff. intros y. by rewrite first_occurrences_elem.
Qed.

Lemma first_occurrences_app_r a b :
  first_occurrences (a ++ first_occurrences b) = first_occurrences (a ++ b).
Proof.
  rewrite !first_occurrences_app.
  by rewrite (first_occurrences_id (first_occurrences b)) by apply first_occurrences_NoDup.
Qed.

(** ** [_preserve_order_dedup] on lists of strings *)

Section dedup.
Context {D : Type}.
Local Abbreviation str := (@VStr D).

Lemma existsb_hash_eqb_str x seen :
  existsb (hash_eqb (str x)) (str <$> seen) = bool_decide (x ∈ seen).
Proof.
  induction seen as [|y seen IH]; [done|].
  rewrite fmap_cons. cbn [existsb hash_eqb]. rewrite IH. destruct (String.eqb_spec x y) as [->|Hne]; simpl.
  - symmetry. apply bool_decide_eq_true. by left.
  - apply bool_decide_ext. rewrite elem_of_cons. tauto.
Qed.

Lemma dedup_loop_strs items seen acc :
  BaseSearch.dedup_loop (str <$> items) (str <$> seen) (str <$> acc) =
  Ok (str <$> (acc ++ filter (fun y => y ∉ seen) (first_occurrences items))).
Proof.
  revert seen acc. induction items as [|x items IH]; intros seen acc.
  - simpl. by rewrite app_nil_r.
  - rewrite fmap_cons. cbn [BaseSearch.dedup_loop hashable first_occurrences].
    rewrite existsb_hash_eqb_str. case_bool_decide as Hx.
    + rewrite IH, filter_cons_False by tauto.
      rewrite list_filter_filter. do 3 f_equal.
      apply list_filter_iff. intros y. split; [|by intros [? _]].
      intros Hy. split; [done|]. by intros ->.
    + change (str x :: (str <$> seen)) with (str <$> x :: seen).
      change [str x] with (str <$> [x]). rewrite <- fmap_app, IH.
      rewrite filter_cons_True by done. rewrite <- app_assoc. simpl.
      rewrite list_filter_filter. do 4 f_equal.
      apply list_filter_iff. intros y. rewrite not_elem_of_cons. tauto.
Qed.

Lemma preserve_order_dedup_strs l :
  BaseSearch._preserve_order_dedup (str <$> l) = Ok (str <$> first_occurrences l).
Proof.
  unfold BaseSearch._preserve_order_dedup.
  change (@nil (pyval D)) with (str <$> @nil string).
  rewrite dedup_loop_strs. simpl. do 2 f_equal.
  apply filter_all. intros y _. apply not_elem_of_nil.
Qed.
End dedup.

(** ** [merge_recursive] on well-formed responses *)

Lemma merge_recursive_nil d1 : BaseSearch.merge_recursive d1 (Dict []) = Ok d1.
Proof. reflexivity. Qed.

Lemma merge_recursive_cons d1 key new rest :
  BaseSearch.merge_recursive d1 (Dict ((key, new) :: rest)) =
  BaseSearch.merge_item d1 key new ≫= fun d1' =>
  BaseSearch.merge_recursive d1' (Dict rest).
Proof. reflexivity. Qed.

Lemma risk_index_valid r :
  BaseSearch.in_risk_levels r = true →
  BaseSearch.risk_index (VStr r : value) = Ok (severity r).
Proof.
  unfold BaseSearch.in_risk_levels, BaseSearch.risk_index, severity.
  simpl. rewrite !(String.eqb_sym r).
  repeat (destruct (String.eqb _ r); [done|]). done.
Qed.

Lemma max_risk_valid r1 r2 :
  BaseSearch.in_risk_levels r1 = true → BaseSearch.in_risk_levels r2 = true →
  BaseSearch.max_risk (VStr r1 : value) (VStr r2) = Ok (VStr (risk_max r1 r2)).
Proof.
  intros H1 H2. unfold BaseSearch.max_risk, risk_max.
  rewrite !risk_index_valid by done. simpl.
  by destruct (severity r1 <? severity r2)%nat.
Qed.

Lemma risk_max_valid r1 r2 :
  BaseSearch.in_risk_levels r1 = true → BaseSearch.in_risk_levels r2 = true →
  BaseSearch.in_risk_levels (risk_max r1 r2) = true.
Proof. intros. unfold risk_max. by destruct (_ <? _)%nat. Qed.

Lemma risk_max_assoc r1 r2 r3 :
  risk_max (risk_max r1 r2) r3 = risk_max r1 (risk_max r2 r3).
Proof.
  unfold risk_max.
  destruct (Nat.ltb_spec (severity r1) (severity r2)),
    (Nat.ltb_spec (severity r2) (severity r3));
    repeat match goal with
      | |- context [(?a <? ?b)%nat] => destruct (Nat.ltb_spec a b)
      end; done || lia.
Qed.

Lemma notice_merge_assoc n1 n2 n3 :
  notice_merge (notice_merge n1 n2) n3 = notice_merge n1 (notice_merge n2 n3).
Proof.
  unfold notice_merge. simpl. f_equal.
  by rewrite first_occurrences_app_l, first_occurrences_app_r, app_assoc.
Qed.

Lemma merge_recursive_notice n1 n2 :
  BaseSearch.merge_recursive (notice_items n1) (Dict (notice_items n2)) =
  Ok (notice_items (notice_merge n1 n2)).
Proof.
  destruct n1 as [[] i1 c1], n2 as [[] i2 c2]; unfold notice_items; simpl;
    rewrite <- fmap_app, preserve_order_dedup_strs; reflexivity.
Qed.

Lemma dict_get_notices key ns :
  dict_get key (notices_items ns) =
  (fun n => VDict (notice_items n)) <$> dict_get key ns.
Proof. apply dict_get_fmap. Qed.

Lemma dict_set_notices key n ns :
  dict_set key (VDict (notice_items n)) (notices_items ns) =
  notices_items (dict_set key n ns).
Proof. apply (dict_set_fmap (fun n => VDict (notice_items n))). Qed.

Lemma merge_recursive_notices ns1 ns2 :
  BaseSearch.merge_recursive (notices_items ns1) (Dict (notices_items ns2)) =
  Ok (notices_items (dict_merge notice_merge ns1 ns2)).
Proof.
  revert ns1. induction ns2 as [|[key n2] ns2 IH]; intros ns1; [done|].
  change (notices_items ((key, n2) :: ns2))
    with ((key, VDict (notice_items n2)) :: notices_items ns2).
  rewrite merge_recursive_cons. unfold BaseSearch.merge_item.
  rewrite dict_get_notices. cbn [dict_merge].
  destruct (dict_get key ns1) as [n1|]; cbn [fmap option_fmap option_map].
  - rewrite merge_recursive_notice. cbn [mbind result_bind mret result_ret].
    rewrite dict_set_notices. apply IH.
  - cbn [mbind result_bind]. rewrite dict_set_notices. apply IH.
Qed.

Lemma merge_recursive_partial p1 p2 :
  BaseSearch.in_risk_levels (p_risk p1) = true →
  BaseSearch.in_risk_levels (p_risk p2) = true →
  BaseSearch.merge_recursive (partial_items p1) (Dict (partial_items p2)) =
  Ok (partial_items (partial_merge p1 p2)).
Proof.
  intros H1 H2.
  destruct p1 as [[] r1 ns1], p2 as [[] r2 ns2];
    unfold partial_items, partial_merge;
    cbn [p_risk_first p_risk p_notices] in *;
    do 2 (rewrite merge_recursive_cons; unfold BaseSearch.merge_item;
          cbn [dict_get]; eqb_lit; cbn [BaseSearch.merge_leaf]; eqb_lit;
          rewrite ?max_risk_valid by done; rewrite ?merge_recursive_notices;
          cbn [mbind result_bind mret result_ret dict_set]; eqb_lit);
    reflexivity.
Qed.

Lemma merge_recursive_empty p :
  BaseSearch.merge_recursive [] (Dict (partial_items p)) = Ok (partial_items p).
Proof. by destruct p as [[] r ns]. Qed.

(** ** Well-formed values are the images of the typed view *)

Lemma is_str_list_inv v : is_str_list v = true → ∃ cs, v = VList (VStr <$> cs).
Proof.
  destruct v as [| | |xs|]; try done. simpl. intros H.
  induction xs as [|x xs IH]; [by exists []|].
  simpl in H. apply andb_true_iff in H as [Hx Hxs].
  destruct (IH Hxs) as [cs Hcs]. destruct x as [| |s| |]; try done.
  exists (s :: cs). simpl. by simplify_eq.
Qed.

Lemma wf_notice_inv v : wf_notice v = true → ∃ n, v = VDict (notice_items n).
Proof.
  destruct v as [| | | |[d]]; try done.
  destruct d as [|[k1 v1] [|[k2 v2] [|]]]; try done.
  unfold wf_notice. cbn [length Nat.eqb dict_get andb].
  destruct (String.eqb_spec k1 "id") as [->|H1]; eqb_lit.
  - destruct v1 as [| |i| |]; try done. cbn [is_str].
    destruct (String.eqb_spec k2 "charges") as [->|]; [|done].
    intros [cs ->]%is_str_list_inv. by exists (Notice true i cs).
  - destruct (String.eqb_spec k2 "id") as [->|]; [|done]. eqb_lit.
    destruct v2 as [| |i| |]; try done. cbn [is_str].
    destruct (String.eqb_spec k1 "charges") as [->|]; [|done].
    intros [cs ->]%is_str_list_inv. by exists (Notice false i cs).
Qed.

Lemma wf_notices_inv ns :
  forallb (fun kv => wf_notice kv.2) ns = true → ∃ tns, ns = notices_items tns.
Proof.
  induction ns as [|[k v] ns IH]; [by exists []|].
  simpl. intros [[n ->]%wf_notice_inv [tns ->]%IH]%andb_true_iff.
  by exists ((k, n) :: tns).
Qed.

Lemma notices_items_keys tns : (notices_items tns).*1 = tns.*1.
Proof. apply fmap_fst_prod_map. Qed.

Lemma wf_partial_inv v :
  wf_partial v = true → ∃ p, v = VDict (partial_items p) ∧ partial_ok p.
Proof.
  destruct v as [| | | |[d]]; try done.
  destruct d as [|[k1 v1] [|[k2 v2] [|]]]; try done.
  unfold wf_partial. cbn [length Nat.eqb dict_get andb].
  destruct (String.eqb_spec k1 "risk") as [->|H1]; eqb_lit.
  - destruct v1 as [| |r| |]; try done.
    destruct (String.eqb_spec k2 "notices") as [->|]; [|by rewrite andb_false_r].
    destruct v2 as [| | | |[ns]]; try by rewrite andb_false_r.
    intros [Hr [Hnd [tns ->]%wf_notices_inv]%andb_true_iff]%andb_true_iff.
    apply bool_decide_eq_true in Hnd. rewrite notices_items_keys in Hnd.
    by exists (Partial true r tns).
  - destruct (String.eqb_spec k2 "risk") as [->|]; [|done]. eqb_lit.
    destruct v2 as [| |r| |]; try done.
    destruct (String.eqb_spec k1 "notices") as [->|]; [|by rewrite andb_false_r].
    destruct v1 as [| | | |[ns]]; try by rewrite andb_false_r.
    intros [Hr [Hnd [tns ->]%wf_notices_inv]%andb_true_iff]%andb_true_iff.
    apply bool_decide_eq_true in Hnd. rewrite notices_items_keys in Hnd.
    by exists (Partial false r tns).
Qed.

(** ** [merge_responses] on well-formed responses *)

Lemma partial_merge_ok p1 p2 :
  partial_ok p1 → partial_ok p2 → partial_ok (partial_merge p1 p2).
Proof.
  intros [Hr1 Hn1] [Hr2 Hn2]. split; simpl.
  - by apply risk_max_valid.
  - by apply dict_merge_NoDup.
Qed.

Lemma partial_merge_assoc p1 p2 p3 :
  partial_ok p1 → partial_ok p2 → partial_ok p3 →
  partial_merge (partial_merge p1 p2) p3 = partial_merge p1 (partial_merge p2 p3).
Proof.
  intros [_ H1] [_ H2] [_ H3]. unfold partial_merge. simpl. f_equal.
  - apply risk_max_assoc.
  - apply dict_merge_assoc; auto using notice_merge_assoc.
Qed.

Lemma foldl_partial_merge_ok p ps :
  partial_ok p → Forall partial_ok ps → partial_ok (foldl partial_merge p ps).
Proof.
  intros Hp Hps. revert p Hp.
  induction Hps as [|q ps Hq _ IH]; intros p Hp; simpl; [done|].
  apply IH. by apply partial_merge_ok.
Qed.

Lemma merge_all_partials p ps :
  partial_ok p → Forall partial_ok ps →
  BaseSearch.merge_all (partial_items p) ((fun q => VDict (partial_items q)) <$> ps) =
  Ok (partial_items (foldl partial_merge p ps)).
Proof.
  intros Hp Hps. revert p Hp.
  induction Hps as [|q ps Hq _ IH]; intros p Hp; [done|].
  rewrite fmap_cons. cbn [BaseSearch.merge_all foldl].
  rewrite merge_recursive_partial by (apply Hp || apply Hq).
  cbn [mbind result_bind]. apply IH. by apply partial_merge_ok.
Qed.

Lemma merge_responses_partials p ps :
  partial_ok p → Forall partial_ok ps →
  BaseSearch.merge_responses ((fun q => VDict (partial_items q)) <$> p :: ps) =
  Ok (VDict (partial_items (foldl partial_merge p ps))).
Proof.
  intros Hp Hps. unfold BaseSearch.merge_responses.
  rewrite fmap_cons. cbn [BaseSearch.merge_all].
  rewrite merge_recursive_empty. cbn [mbind result_bind].
  by rewrite merge_all_partials.
Qed.

Lemma wf_partials_inv rs :
  Forall (fun v => wf_partial v = true) rs →
  ∃ ps, rs = (fun q => VDict (partial_items q)) <$> ps ∧ Forall partial_ok ps.
Proof.
  induction 1 as [|v rs [p [-> Hp]]%wf_partial_inv _ (ps & -> & Hps)].
  - by exists [].
  - exists (p :: ps). by split; [|constructor].
Qed.

Lemma risk_of_partial p : risk_of (VDict (partial_items p)) = Some (VStr (p_risk p)).
Proof. by destruct p as [[] r ns]. Qed.

Lemma notices_of_partial p :
  item "notices" (VDict (partial_items p)) = Some (VDict (notices_items (p_notices p))).
Proof. by destruct p as [[] r ns]. Qed.

Lemma charges_of_notice n :
  item "charges" (VDict (notice_items n)) = Some (VList (VStr <$> n_charges n)).
Proof. by destruct n as [[] i cs]. Qed.

Lemma charges_of_partial source p :
  charges_of source (VDict (partial_items p)) =
  (fun n => VList (VStr <$> n_charges n)) <$> dict_get source (p_notices p).
Proof.
  unfold charges_of, notice_of. rewrite notices_of_partial.
  cbn [mbind option_bind item]. rewrite dict_get_notices.
  destruct (dict_get source (p_notices p)) as [n|]; [|done].
  apply charges_of_notice.
Qed.

Lemma foldl_partial_merge_risk p ps :
  p_risk (foldl partial_merge p ps) = foldl risk_max (p_risk p) (p_risk <$> ps).
Proof. revert p. induction ps as [|q ps IH]; intros p; [done|]. apply IH. Qed.

Lemma risk_max_cases r1 r2 :
  (risk_max r1 r2 = r1 ∨ risk_max r1 r2 = r2) ∧
  severity r1 ≤ severity (risk_max r1 r2) ∧ severity r2 ≤ severity (risk_max r1 r2).
Proof.
  unfold risk_max. destruct (Nat.ltb_spec (severity r1) (severity r2)).
  - split; [by right|lia].
  - split; [by left|lia].
Qed.

Lemma foldl_risk_max_spec r l :
  foldl risk_max r l ∈ r :: l ∧
  ∀ x, x ∈ r :: l → severity x ≤ severity (foldl risk_max r l).
Proof.
  revert r. induction l as [|y l IH]; intros r; simpl.
  - split; [by left|]. by intros x ->%list_elem_of_singleton.
  - destruct (IH (risk_max r y)) as [Hin Hmax].
    destruct (risk_max_cases r y) as ([Hm|Hm] & Hr & Hy).
    + split.
      * rewrite Hm in *. apply elem_of_cons in Hin as [->|?]; [by left|].
        by do 2 right.
      * intros x [->|[->|Hx]%elem_of_cons]%elem_of_cons.
        -- etrans; [apply Hr|]. apply Hmax. by left.
        -- etrans; [apply Hy|]. apply Hmax. by left.
        -- apply Hmax. by right.
    + split.
      * rewrite Hm in *. by right.
      * intros x [->|[->|Hx]%elem_of_cons]%elem_of_cons.
        -- etrans; [apply Hr|]. apply Hmax. by left.
        -- etrans; [apply Hy|]. apply Hmax. by left.
        -- apply Hmax. by right.
Qed.

(** ** Claims on [gen_response] and [merge_responses] *)

(** C9 — Validated construction: [gen_response] raises [ValueError]
    exactly when the risk is not one of "Low", "Medium", "High",
    "Dangerous"; otherwise it returns the dictionary
    [{"risk": risk, "notices": {source: {"id": notice_id, "charges": charges}}}],
    where a string [charges] argument has been wrapped into a one-element
    list. *)
Theorem gen_response_spec (risk source notice_id : string) (charges : value) :
  (BaseSearch.gen_response risk source notice_id charges = Raise ValueError
   ↔ risk ∉ ["Low"; "Medium"; "High"; "Dangerous"]) ∧
  (∀ e, BaseSearch.gen_response risk source notice_id charges = Raise e →
        e = ValueError) ∧
  (risk ∈ ["Low"; "Medium"; "High"; "Dangerous"] →
   BaseSearch.gen_response risk source notice_id charges =
   Ok (VDict [("risk", VStr risk);
              ("notices",
                VDict [(source,
                        VDict [("id", VStr notice_id);
                               ("charges", match charges with
                                           | VStr s => VList [VStr s]
                                           | _ => charges
                                           end)])])])).
Proof.
  assert (BaseSearch.in_risk_levels risk = true
          ↔ risk ∈ ["Low"; "Medium"; "High"; "Dangerous"]) as Hin.
  { unfold BaseSearch.in_risk_levels, BaseSearch.RISK_LEVELS. cbn [existsb].
    rewrite !orb_true_iff, !String.eqb_eq, !elem_of_cons, elem_of_nil.
    intuition discriminate. }
  unfold BaseSearch.gen_response.
  destruct (BaseSearch.in_risk_levels risk) eqn:Hr; cbn [negb].
  - split_and!; [|done|done].
    split; [done|]. intros Hn. exfalso. by apply Hn, Hin.
  - assert (risk ∉ ["Low"; "Medium"; "High"; "Dangerous"]) as Hn.
    { intros H%Hin. done. }
    split_and!; [done|by intros e [= <-]|done].
Qed.

Lemma gen_response_spec_witness :
  BaseSearch.gen_response "High" "fbi-most-wanted" "17" (VStr "Unknown") =
  Ok (VDict [("risk", VStr "High");
             ("notices",
               VDict [("fbi-most-wanted",
                       VDict [("id", VStr "17");
                              ("charges", VList [VStr "Unknown"])])])]).
Proof.
  apply (gen_response_spec "High" "fbi-most-wanted" "17" (VStr "Unknown")).
  do 2 right. by left.
Defined.

(** C1 — Merge is associative on well-formed partial results: merging
    [A; B; C] gives the same dictionary as merging the merge of [A; B]
    with [C], and as merging [A] with the merge of [B; C]; all five
    merges succeed. *)
Theorem merge_responses_associative (A B C : value) :
  wf_partial A = true → wf_partial B = true → wf_partial C = true →
  ∃ AB BC M,
    BaseSearch.merge_responses [A; B] = Ok AB ∧
    BaseSearch.merge_responses [B; C] = Ok BC ∧
    BaseSearch.merge_responses [A; B; C] = Ok M ∧
    BaseSearch.merge_responses [AB; C] = Ok M ∧
    BaseSearch.merge_responses [A; BC] = Ok M.
Proof.
  intros (a & -> & Ha)%wf_partial_inv (b & -> & Hb)%wf_partial_inv
         (c & -> & Hc)%wf_partial_inv.
  pose (V := fun q => VDict (partial_items q)).
  exists (V (partial_merge a b)), (V (partial_merge b c)),
         (V (partial_merge (partial_merge a b) c)).
  split_and!.
  - apply (merge_responses_partials a [b]); auto.
  - apply (merge_responses_partials b [c]); auto.
  - apply (merge_responses_partials a [b; c]); auto.
  - apply (merge_responses_partials (partial_merge a b) [c]);
      auto using partial_merge_ok.
  - rewrite partial_merge_assoc by done.
    apply (merge_responses_partials a [partial_merge b c]);
      auto using partial_merge_ok.
Qed.

Lemma merge_responses_associative_witness :
  ∃ AB BC M,
    BaseSearch.merge_responses [sample_fbi; sample_fbi_terror] = Ok AB ∧
    BaseSearch.merge_responses [sample_fbi_terror; sample_interpol] = Ok BC ∧
    BaseSearch.merge_responses [sample_fbi; sample_fbi_terror; sample_interpol] = Ok M ∧
    BaseSearch.merge_responses [AB; sample_interpol] = Ok M ∧
    BaseSearch.merge_responses [sample_fbi; BC] = Ok M.
Proof.
  apply (merge_responses_associative sample_fbi sample_fbi_terror sample_interpol);
    vm_compute; reflexivity.
Defined.

(** C4 — Merged risk is the maximum severity: merging a non-empty list
    of well-formed partial results, in any order, succeeds and the risk of
    the result is the risk of one of the inputs and is at least as severe
    as the risk of every input, for the order
    Low < Medium < High < Dangerous. *)
Theorem merge_responses_risk_max (rs rs' : list value) :
  rs ≠ [] → Forall (fun v => wf_partial v = true) rs → rs ≡ₚ rs' →
  ∃ m r,
    BaseSearch.merge_responses rs' = Ok m ∧
    risk_of m = Some (VStr r) ∧
    (∃ x, x ∈ rs ∧ risk_of x = Some (VStr r)) ∧
    (∀ x r', x ∈ rs → risk_of x = Some (VStr r') → severity r' ≤ severity r) ∧
    severity "Low" < severity "Medium" < severity "High" ∧
    severity "High" < severity "Dangerous".
Proof.
  intros Hne Hwf Hperm.
  assert (Forall (fun v => wf_partial v = true) rs') as Hwf'
    by by rewrite <- Hperm.
  apply wf_partials_inv in Hwf' as (ps & -> & Hps).
  destruct ps as [|p ps].
  { by apply Permutation_nil_r in Hperm. }
  apply Forall_cons in Hps as [Hp Hps].
  exists (VDict (partial_items (foldl partial_merge p ps))),
         (p_risk (foldl partial_merge p ps)).
  destruct (foldl_risk_max_spec (p_risk p) (p_risk <$> ps)) as [Hin Hmax].
  rewrite <- foldl_partial_merge_risk in Hin, Hmax.
  split_and!.
  - by apply merge_responses_partials.
  - apply risk_of_partial.
  - change (p_risk p :: (p_risk <$> ps)) with (p_risk <$> p :: ps) in Hin.
    apply list_elem_of_fmap in Hin as (q & Hq & Hin).
    exists (VDict (partial_items q)). split.
    + rewrite Hperm. by apply (list_elem_of_fmap_2 (fun q => VDict (partial_items q))).
    + rewrite Hq. apply risk_of_partial.
  - intros x r' Hx Hr'. rewrite Hperm in Hx.
    apply list_elem_of_fmap in Hx as (q & -> & Hq).
    rewrite risk_of_partial in Hr'. simplify_eq.
    apply Hmax. change (p_risk p :: (p_risk <$> ps)) with (p_risk <$> p :: ps).
    by apply list_elem_of_fmap_2.
  - vm_compute. lia.
  - vm_compute. lia.
  - vm_compute. lia.
Qed.

Lemma merge_responses_risk_max_witness :
  ∃ m r,
    BaseSearch.merge_responses [sample_interpol; sample_fbi; sample_fbi_terror] = Ok m ∧
    risk_of m = Some (VStr r) ∧
    (∃ x, x ∈ [sample_fbi; sample_fbi_terror; sample_interpol] ∧
          risk_of x = Some (VStr r)) ∧
    (∀ x r', x ∈ [sample_fbi; sample_fbi_terror; sample_interpol] →
             risk_of x = Some (VStr r') → severity r' ≤ severity r) ∧
    severity "Low" < severity "Medium" < severity "High" ∧
    severity "High" < severity "Dangerous".
Proof.
  apply (merge_responses_risk_max
           [sample_fbi; sample_fbi_terror; sample_interpol]
           [sample_interpol; sample_fbi; sample_fbi_terror]).
  - discriminate.
  - repeat constructor.
  - symmetry.
    apply (Permutation_cons_append [sample_fbi; sample_fbi_terror] sample_interpol).
Defined.

(** C5 — Charge lists merge by concatenation, then deduplication keeping
    first occurrences: when two well-formed partial results both have a
    notice under [source], with charges [c1] and [c2], their merge has
    under [source] the charges [c1 ++ c2] with every element kept at its
    first occurrence only; and merging the charges ["A","B"] with
    ["B","C"] under the key X yields ["A","B","C"]. *)
Theorem merge_responses_charges (A B : value) (source : string) (c1 c2 : list string) :
  wf_partial A = true → wf_partial B = true →
  charges_of source A = Some (VList (VStr <$> c1)) →
  charges_of source B = Some (VList (VStr <$> c2)) →
  (∃ m, BaseSearch.merge_responses [A; B] = Ok m ∧
        charges_of source m = Some (VList (VStr <$> first_occurrences (c1 ++ c2)))) ∧
  charges_of "X" <$> BaseSearch.merge_responses [sample_x_ab; sample_x_bc] =
  Ok (Some (VList [VStr "A"; VStr "B"; VStr "C"])).
Proof.
  intros (a & -> & Ha)%wf_partial_inv (b & -> & Hb)%wf_partial_inv H1 H2.
  split; [|by vm_compute].
  exists (VDict (partial_items (partial_merge a b))). split.
  - apply (merge_responses_partials a [b]); auto.
  - rewrite charges_of_partial in *. cbn [partial_merge p_notices].
    rewrite dict_merge_get by apply Hb.
    destruct (dict_get source (p_notices a)) as [n1|]; [|done].
    destruct (dict_get source (p_notices b)) as [n2|]; [|done].
    cbn in H1, H2 |- *. by simplify_eq.
Qed.

Lemma merge_responses_charges_witness :
  (∃ m, BaseSearch.merge_responses [sample_fbi; sample_interpol] = Ok m ∧
        charges_of "fbi-most-wanted" m =
        Some (VList (VStr <$> first_occurrences (["A"; "B"] ++ ["D"; "A"])))) ∧
  charges_of "X" <$> BaseSearch.merge_responses [sample_x_ab; sample_x_bc] =
  Ok (Some (VList [VStr "A"; VStr "B"; VStr "C"])).
Proof.
  apply (merge_responses_charges sample_fbi sample_interpol "fbi-most-wanted");
    reflexivity.
Defined.

(** ** The orchestrator *)

Section execute_search.
Import CrimeScrape.
Context {Src Method : Type}.
Variable behaviour : Z → Z → Method → Src → unit_outcome.
Variable set_order : list (Src * Method) → list (Src * Method).

Lemma successful_unit max_threads timeout source method :
  successful behaviour max_threads timeout (source, method) =
  match behaviour max_threads timeout method source with
  | Returned v => if py_truthy v then Some v else None
  | _ => None
  end.
Proof. reflexivity. Qed.

(** When no unit of [done] exits, the loop appends the non-empty
    values the units returned, in the order of [done]. *)
Lemma collect_spec max_threads timeout done results :
  Forall (fun unit => finished (behaviour max_threads timeout unit.2 unit.1) = true ∧
                      exited (behaviour max_threads timeout unit.2 unit.1) = false)
    done →
  collect behaviour max_threads timeout done results =
  Returns (results ++ omap (successful behaviour max_threads timeout) done).
Proof.
  revert results. induction done as [|[source method] done IH];
    intros results Hdone.
  - simpl. by rewrite app_nil_r.
  - apply Forall_cons in Hdone as [[Hfin Hex] Hdone]. cbn [fst snd] in Hfin, Hex.
    cbn [collect omap list_omap]. rewrite successful_unit.
    destruct (behaviour max_threads timeout method source) as [v|e|b| |];
      try done; cbn [future_result try_except mbind ending_bind].
    + destruct (py_truthy v); cbn [try_except mbind ending_bind]; rewrite IH by done.
      * by rewrite <- app_assoc.
      * done.
    + by rewrite IH.
Qed.

Lemma omap_successful_done max_threads timeout tasks :
  omap (successful behaviour max_threads timeout)
    (List.filter (fun '(src, method) =>
       finished (behaviour max_threads timeout method src)) tasks) =
  omap (successful behaviour max_threads timeout) tasks.
Proof.
  induction tasks as [|[source method] tasks IH]; [done|].
  cbn [List.filter omap list_omap]. rewrite successful_unit.
  destruct (behaviour max_threads timeout method source) as [v|e|b| |] eqn:Hb;
    cbn [finished omap list_omap]; rewrite ?successful_unit, ?Hb, ?IH; done.
Qed.

Lemma elem_of_units (sources : list Src) (search_methods : list Method) unit :
  unit ∈ (src ← sources; method ← search_methods; [(src, method)]) ↔
  unit.1 ∈ sources ∧ unit.2 ∈ search_methods.
Proof.
  destruct unit as [src method]. rewrite list_elem_of_bind. split.
  - intros (s & Hin & Hs). apply list_elem_of_bind in Hin as (m & Hin & Hm).
    apply list_elem_of_singleton in Hin as [= -> ->]. done.
  - intros [Hs Hm]. exists src. split; [|done].
    apply list_elem_of_bind. exists method. split; [|done].
    by apply list_elem_of_singleton.
Qed.

Lemma filter_done_finished max_threads timeout (tasks : list (Src * Method)) :
  Forall (fun unit => finished (behaviour max_threads timeout unit.2 unit.1) = true)
    (List.filter (fun '(src, method) =>
       finished (behaviour max_threads timeout method src)) tasks).
Proof.
  apply Forall_forall. intros [src method] Hin%list_elem_of_In.
  by apply filter_In in Hin as [_ Hfin].
Qed.

(** [execute_search] with a pool that can be made and units that all
    come to an end. *)
Lemma execute_search_ends sources search_methods results max_threads timeout :
  (0 < max_threads)%Z →
  (∀ src method, src ∈ sources → method ∈ search_methods →
     hanging (behaviour max_threads timeout method src) = false) →
  execute_search behaviour set_order sources search_methods results
    max_threads timeout =
  collect behaviour max_threads timeout
    (set_order (List.filter (fun '(src, method) =>
       finished (behaviour max_threads timeout method src))
       (src ← sources; method ← search_methods; [(src, method)]))) results.
Proof.
  intros Hthreads Hend. unfold execute_search.
  destruct (Z.leb_spec max_threads 0) as [?|_]; [lia|].
  destruct (existsb _ _) eqn:Hex; [|done].
  apply existsb_exists in Hex as ([src method] & Hin & Hhang).
  apply list_elem_of_In, elem_of_units in Hin as [Hs Hm].
  by rewrite (Hend src method Hs Hm) in Hhang.
Qed.

(** The loop over [done] lets no exception that derives from
    [Exception] out. *)
Lemma collect_raises max_threads timeout done results e :
  collect behaviour max_threads timeout done results ≠ Raises e.
Proof.
  revert results. induction done as [|[source method] done IH]; intros results.
  - done.
  - cbn [collect].
    destruct (behaviour max_threads timeout method source) as [v|e'|b| |];
      cbn [future_result try_except mbind ending_bind]; try done; try apply IH.
    destruct (py_truthy v); cbn [try_except mbind ending_bind]; apply IH.
Qed.

(** The one exception that derives from [Exception] and leaves
    [execute_search] is the [ValueError] of a pool without workers. *)
Lemma execute_search_raises sources search_methods results max_threads timeout e :
  execute_search behaviour set_order sources search_methods results
    max_threads timeout = Raises e →
  e = ValueError ∧ (max_threads ≤ 0)%Z.
Proof.
  unfold execute_search.
  destruct (Z.leb_spec max_threads 0) as [Hle|_]; [by intros [= <-]|].
  destruct (existsb _ _); [done|]. intros Hrun. by apply collect_raises in Hrun.
Qed.

End execute_search.



(** ** The cache *)

Lemma py_int_ge (k : Z) (x : Q) :
  (0 < k)%Z → (k ≤ CrimeScrape.py_int x)%Z ↔ (inject_Z k <= x)%Q.
Proof.
  intros Hk. destruct x as [n d]. unfold CrimeScrape.py_int, Qle. simpl.
  pose proof (Z.quot_rem' n (Z.pos d)) as Hqr.
  destruct (Z.le_gt_cases 0 n) as [Hn|Hn].
  - pose proof (Z.rem_bound_pos n (Z.pos d) Hn ltac:(lia)) as Hb.
    split; intros H; nia.
  - pose proof (Z.rem_bound_pos_neg n (Z.pos d) ltac:(lia) ltac:(lia)) as Hb.
    split; intros H; nia.
Qed.

Lemma py_int_near (x : Q) : (x - 1 < inject_Z (CrimeScrape.py_int x) < x + 1)%Q.
Proof.
  destruct x as [n d]. unfold CrimeScrape.py_int, Qlt, Qminus, Qplus, Qopp. simpl.
  pose proof (Z.quot_rem' n (Z.pos d)) as Hqr.
  destruct (Z.le_gt_cases 0 n) as [Hn|Hn].
  - pose proof (Z.rem_bound_pos n (Z.pos d) Hn ltac:(lia)) as Hb. nia.
  - pose proof (Z.rem_bound_pos_neg n (Z.pos d) ltac:(lia) ltac:(lia)) as Hb. nia.
Qed.

(** The staleness test succeeds exactly from six days (518400 seconds)
    on. *)
Lemma days_since_stale now timestamp :
  (CrimeScrape.CACHE_MAX_DAYS <? CrimeScrape.days_since now timestamp)%Z = true
  ↔ (inject_Z 518400 <= now - inject_Z timestamp)%Q.
Proof.
  rewrite Z.ltb_lt. unfold CrimeScrape.days_since, CrimeScrape.CACHE_MAX_DAYS.
  transitivity (6 ≤ CrimeScrape.py_int ((now - inject_Z timestamp) / inject_Z 86400))%Z;
    [lia|].
  rewrite py_int_ge by lia.
  change (inject_Z 518400) with (inject_Z 6 * inject_Z 86400)%Q.
  split; intros H.
  - apply Qnot_lt_le. intros Hlt.
    apply Qlt_shift_div_r in Hlt; [|reflexivity].
    by apply Qlt_not_le in Hlt.
  - apply Qle_shift_div_l; [reflexivity|]. exact H.
Qed.

Lemma days_since_fresh now timestamp :
  (now - inject_Z timestamp < inject_Z 518400)%Q →
  (CrimeScrape.CACHE_MAX_DAYS <? CrimeScrape.days_since now timestamp)%Z = false.
Proof.
  intros H. apply not_true_is_false. rewrite days_since_stale.
  by apply Qlt_not_le.
Qed.

Section cache.
Import CrimeScrape.
Context {L : Library}.
Implicit Types (w : world) (now : Q).

Lemma load_cache_stale filename now w timestamp data :
  read_entry filename w = Ok (timestamp, data) →
  (inject_Z 518400 <= now - inject_Z timestamp)%Q →
  load_cache filename now w =
  (VNone, if remove_ok w
          then set_cache_files (delete filename (cache_files w)) w
          else w).
Proof.
  intros Hentry H. unfold load_cache, os_remove. rewrite Hentry.
  apply days_since_stale in H. rewrite H. by destruct (remove_ok w).
Qed.

Lemma load_cache_fresh filename now w timestamp data :
  read_entry filename w = Ok (timestamp, data) →
  (now - inject_Z timestamp < inject_Z 518400)%Q →
  load_cache filename now w = (data, w).
Proof.
  intros Hentry H. unfold load_cache. rewrite Hentry.
  apply days_since_fresh in H. by rewrite H.
Qed.

(** C6, as amended — Staleness eviction: a stored entry whose timestamp
    is an integer that a float holds exactly (at most 2^53 in absolute
    value) and lies at least six days (518400 seconds) before the load,
    which is when the whole days elapsed exceed [CACHE_MAX_DAYS = 5],
    makes [load_cache] return [None].  The entry's file is deleted when
    [os.remove] succeeds; when it fails, the error is swallowed and the
    cache is left as it is, the file included.  (On a timestamp beyond
    the range of floats the subtraction raises [OverflowError], which
    is swallowed as well and leaves the file.) *)
Theorem load_cache_evicts_stale_entry filename now w timestamp data :
  read_entry filename w = Ok (timestamp, data) →
  (Z.abs timestamp ≤ 2 ^ 53)%Z →
  (inject_Z (6 * 86400) <= now - inject_Z timestamp)%Q →
  (load_cache filename now w).1 = VNone ∧
  (remove_ok w = true →
   (load_cache filename now w).2 =
     set_cache_files (delete filename (cache_files w)) w ∧
   cache_files (load_cache filename now w).2 !! filename = None) ∧
  (remove_ok w = false →
   (load_cache filename now w).2 = w ∧
   cache_files (load_cache filename now w).2 !! filename ≠ None).
Proof.
  intros Hentry _ H. rewrite (load_cache_stale _ _ _ _ _ Hentry H).
  split_and!; [done|intros ->..]; cbn [snd].
  - split; [done|]. apply lookup_delete_eq.
  - split; [done|]. revert Hentry. unfold read_entry.
    destruct (cache_dir w); try done. by destruct (cache_files w !! filename).
Qed.

Lemma read_entry_stored filename data now w w' :
  json_round_trip L →
  store_cache filename data now w = (Ok true, w') →
  read_entry filename w' = Ok (py_int now, data).
Proof.
  intros Hrt. unfold store_cache, makedirs.
  destruct (cache_dir w) eqn:Hdir; try done;
    cbn [set_cache_dir set_cache_files write_ok];
    destruct (write_ok w); intros [= <-];
    unfold read_entry; cbn [set_cache_files cache_dir cache_files]; rewrite ?Hdir;
    rewrite lookup_insert_eq, Hrt; cbn [mbind result_bind dict_get]; by eqb_lit.
Qed.

(** C7 — Cache round trip: when [json.loads] inverts [json.dumps], a
    [store_cache] that succeeds, followed by a [load_cache] of the same
    name no more than five days (432000 seconds) later, returns the
    stored data and leaves the cache as it is. *)
Theorem cache_round_trip filename data now now' w w' :
  json_round_trip L →
  store_cache filename data now w = (Ok true, w') →
  (now' - now <= inject_Z (5 * 86400))%Q →
  load_cache filename now' w' = (data, w').
Proof.
  intros Hrt Hstore Hnow.
  apply (load_cache_fresh filename now' w' (py_int now) data).
  - by apply read_entry_stored with w.
  - pose proof (py_int_near now) as [H1 H2].
    set (t := inject_Z (py_int now)) in *.
    change (inject_Z 518400) with (518400 # 1).
    change (inject_Z (5 * 86400)) with (432000 # 1) in Hnow. lra.
Qed.
End cache.

(** The entry of [sample_world] is five days and one second old: it is
    past the five-day window, and [load_cache] still returns it and keeps
    its file. *)
Lemma load_cache_serves_entry_past_five_days :
  (inject_Z (5 * 86400) < (432001 # 1) - inject_Z 0)%Q ∧
  CrimeScrape.load_cache "k" (432001 # 1) (sample_world (VList [sample_fbi])) =
    (VList [sample_fbi], sample_world (VList [sample_fbi])) ∧
  CrimeScrape.cache_files (sample_world (VList [sample_fbi])) !! "k" ≠ None.
Proof. split_and!; [done|by vm_compute|by vm_compute]. Qed.

Lemma load_cache_evicts_stale_entry_witness :
  (CrimeScrape.load_cache "k" (518400 # 1) (sample_world (VList [sample_fbi]))).1 =
    VNone ∧
  (CrimeScrape.remove_ok (sample_world (VList [sample_fbi])) = true →
   (CrimeScrape.load_cache "k" (518400 # 1) (sample_world (VList [sample_fbi]))).2 =
     CrimeScrape.set_cache_files
       (delete "k" (CrimeScrape.cache_files (sample_world (VList [sample_fbi]))))
       (sample_world (VList [sample_fbi])) ∧
   CrimeScrape.cache_files
     (CrimeScrape.load_cache "k" (518400 # 1) (sample_world (VList [sample_fbi]))).2
     !! "k" = None) ∧
  (CrimeScrape.remove_ok (sample_world (VList [sample_fbi])) = false →
   (CrimeScrape.load_cache "k" (518400 # 1) (sample_world (VList [sample_fbi]))).2 =
     sample_world (VList [sample_fbi]) ∧
   CrimeScrape.cache_files
     (CrimeScrape.load_cache "k" (518400 # 1) (sample_world (VList [sample_fbi]))).2
     !! "k" ≠ None).
Proof.
  apply (load_cache_evicts_stale_entry "k" (518400 # 1) _ 0 (VList [sample_fbi]));
    [reflexivity | vm_compute; discriminate | vm_compute; discriminate].
Defined.

(** In a cache directory where files cannot be removed, the stale entry
    of [sample_world_read_only] makes [load_cache] return [None] and stays
    where it is. *)
Lemma load_cache_keeps_entry_it_cannot_remove :
  CrimeScrape.load_cache "k" (518400 # 1)
    (sample_world_read_only (VList [sample_fbi])) =
    (VNone, sample_world_read_only (VList [sample_fbi])) ∧
  CrimeScrape.cache_files (sample_world_read_only (VList [sample_fbi])) !! "k"
  ≠ None.
Proof. split; by vm_compute. Qed.

Lemma cache_round_trip_witness :
  CrimeScrape.load_cache "q" (400000 # 1)
    (CrimeScrape.store_cache "q" (VList [sample_interpol]) (201 # 2)
       (sample_world (VList [sample_fbi]))).2 =
  (VList [sample_interpol],
   (CrimeScrape.store_cache "q" (VList [sample_interpol]) (201 # 2)
      (sample_world (VList [sample_fbi]))).2).
Proof.
  apply (cache_round_trip "q" (VList [sample_interpol]) (201 # 2) (400000 # 1)
           (sample_world (VList [sample_fbi]))).
  - intros v. reflexivity.
  - reflexivity.
  - vm_compute. discriminate.
Defined.

(** ** The in-flight registry and [perform_search] *)

Section perform_search.
Import CrimeScrape.
Context {L : Library} {Src Method : Type}.
Variable behaviour : Z → Z → Method → Src → unit_outcome.
Variable set_order : list (Src * Method) → list (Src * Method).
Implicit Types (w : world) (now : Q).

Lemma wait_until_free_idle spins query_id w :
  is_running query_id w = false → wait_until_free spins query_id w = true.
Proof. intros H. destruct spins; simpl; by rewrite H. Qed.

(** A caller that finds its fingerprint in the list keeps waiting,
    however many rounds it is given. *)
Lemma wait_until_free_busy spins query_id w :
  is_running query_id w = true → wait_until_free spins query_id w = false.
Proof. intros H. induction spins as [|spins IH]; simpl; by rewrite H. Qed.

Lemma list_remove_last x l :
  existsb (String.eqb x) l = false → list_remove x (l ++ [x]) = Ok l.
Proof.
  induction l as [|y l IH]; simpl.
  - by rewrite String.eqb_refl.
  - rewrite (String.eqb_sym y x). destruct (String.eqb x y); [done|].
    simpl. intros H. by rewrite IH.
Qed.

Lemma is_running_added query_id w :
  is_running query_id (add_running query_id w) = true.
Proof.
  unfold is_running, add_running. simpl. rewrite existsb_app. simpl.
  by rewrite String.eqb_refl, orb_true_r.
Qed.

Lemma set_running_id w : set_running (CURRENTLY_RUNNING w) w = w.
Proof. by destruct w. Qed.

Lemma set_running_twice r r' w : set_running r (set_running r' w) = set_running r w.
Proof. done. Qed.

(** What [load_cache] does: it returns the data of the entry and leaves
    the world as it is; or it returns [None], and leaves the world as it
    is or removes the file. *)
Lemma load_cache_cases filename now w :
  (∃ timestamp,
     read_entry filename w = Ok (timestamp, (load_cache filename now w).1) ∧
     (load_cache filename now w).2 = w) ∨
  ((load_cache filename now w).1 = VNone ∧
   ((load_cache filename now w).2 = w ∨
    (load_cache filename now w).2 =
      set_cache_files (delete filename (cache_files w)) w)).
Proof.
  unfold load_cache, os_remove.
  destruct (read_entry filename w) as [[t d]|]; [|right; by split; [|left]].
  destruct (_ <? _)%Z.
  - right. destruct (remove_ok w); (split; [done|]); [by right|by left].
  - left. by exists t.
Qed.

Lemma load_cache_running filename now w :
  CURRENTLY_RUNNING (load_cache filename now w).2 = CURRENTLY_RUNNING w.
Proof.
  by destruct (load_cache_cases filename now w) as [(t & _ & ->)|[_ [-> | ->]]].
Qed.

Lemma load_cache_dir filename now w :
  cache_dir (load_cache filename now w).2 = cache_dir w.
Proof.
  by destruct (load_cache_cases filename now w) as [(t & _ & ->)|[_ [-> | ->]]].
Qed.

Lemma load_cache_write_ok filename now w :
  write_ok (load_cache filename now w).2 = write_ok w.
Proof.
  by destruct (load_cache_cases filename now w) as [(t & _ & ->)|[_ [-> | ->]]].
Qed.

(** What [load_cache] serves is the data of the entry, and serving it
    changes nothing. *)
Lemma load_cache_hit filename now w :
  py_truthy (load_cache filename now w).1 = true →
  ∃ timestamp,
    read_entry filename w = Ok (timestamp, (load_cache filename now w).1) ∧
    (load_cache filename now w).2 = w.
Proof.
  destruct (load_cache_cases filename now w) as [H|[Hnone _]]; [done|].
  by rewrite Hnone.
Qed.

Lemma load_cache_set_running r filename now w :
  load_cache filename now (set_running r w) =
  ((load_cache filename now w).1, set_running r (load_cache filename now w).2).
Proof.
  unfold load_cache, os_remove.
  change (read_entry filename (set_running r w)) with (read_entry filename w).
  destruct (read_entry filename w) as [[t d]|]; [|done].
  destruct (_ <? _)%Z; [|done].
  cbn [remove_ok set_running]. by destruct (remove_ok w).
Qed.

Lemma store_cache_set_running r filename data now w :
  store_cache filename data now (set_running r w) =
  ((store_cache filename data now w).1,
   set_running r (store_cache filename data now w).2).
Proof.
  destruct w as [running [] files [] rm]; reflexivity.
Qed.

Lemma store_cache_running filename data now w :
  CURRENTLY_RUNNING (store_cache filename data now w).2 = CURRENTLY_RUNNING w.
Proof.
  unfold store_cache, makedirs. destruct (cache_dir w); try done;
    cbn [set_cache_dir set_cache_files write_ok]; by destruct (write_ok w).
Qed.

Lemma store_cache_present filename data now w :
  cache_dir w = DirPresent → ∃ b, (store_cache filename data now w).1 = Ok b.
Proof.
  intros H. unfold store_cache, makedirs. rewrite H.
  destruct (write_ok w); by eexists.
Qed.

Lemma store_cache_blocked filename data now w :
  cache_dir w = DirBlocked → store_cache filename data now w = (Raise OSError, w).
Proof. intros H. unfold store_cache, makedirs. by rewrite H. Qed.

Lemma read_entry_present filename w r :
  read_entry filename w = Ok r → cache_dir w = DirPresent.
Proof. unfold read_entry. by destruct (cache_dir w). Qed.

Lemma read_entry_blocked filename w :
  cache_dir w = DirBlocked → read_entry filename w = Raise OSError.
Proof. intros H. unfold read_entry. by rewrite H. Qed.

Lemma remove_running_last query_id w r :
  CURRENTLY_RUNNING w = r ++ [query_id] → existsb (String.eqb query_id) r = false →
  remove_running query_id w = Ok (set_running r w).
Proof.
  intros Hw Hr. unfold remove_running. by rewrite Hw, list_remove_last.
Qed.

(** [execute_search] with a pool that can be made and units that all
    come to an end, none of them with an exception outside
    [Exception]. *)
Lemma execute_search_ok sources search_methods results max_threads timeout :
  (0 < max_threads)%Z →
  (∀ l, set_order l ≡ₚ l) →
  (∀ src method, src ∈ sources → method ∈ search_methods →
     exited (behaviour max_threads timeout method src) = false ∧
     hanging (behaviour max_threads timeout method src) = false) →
  execute_search behaviour set_order sources search_methods results
    max_threads timeout =
  Returns (results ++ omap (successful behaviour max_threads timeout)
        (set_order (List.filter (fun '(src, method) =>
           finished (behaviour max_threads timeout method src))
           (src ← sources; method ← search_methods; [(src, method)])))).
Proof.
  intros Hthreads Horder Hunits.
  rewrite execute_search_ends; [|done|by intros src method Hs Hm; apply Hunits].
  apply collect_spec.
  rewrite Horder. apply Forall_forall. intros [src method] Hin.
  pose proof (filter_done_finished behaviour max_threads timeout
                (src ← sources; method ← search_methods; [(src, method)])) as Hfin.
  rewrite Forall_forall in Hfin. split; [by apply Hfin|].
  apply list_elem_of_In, filter_In in Hin as [Hin _].
  apply list_elem_of_In, elem_of_units in Hin as [Hs Hm].
  by apply Hunits.
Qed.

(** [perform_search] for a fingerprint that is not running: the cache,
    when it is on, is read; on a miss the search runs, and its results
    are stored and returned.  The fingerprint is in the list when
    [perform_search] ends otherwise than by returning. *)
Lemma perform_search_idle cfg query cache_type sources search_methods
    t_load t_store spins w :
  is_running (fingerprint query cache_type) w = false →
  perform_search behaviour set_order cfg query cache_type sources
    search_methods t_load t_store spins w =
  let query_id := fingerprint query cache_type in
  let lw := if USE_CACHE cfg then load_cache query_id t_load w else (VNone, w) in
  if USE_CACHE cfg && py_truthy lw.1
  then Return (Jsonify (gen_results "cached" lw.1)) lw.2
  else
    match execute_search behaviour set_order sources search_methods []
            (MAX_THREADS cfg) (TIMEOUT cfg) with
    | Raises e => Throw e (add_running query_id lw.2)
    | Exits b => Exit b (add_running query_id lw.2)
    | Never => Stuck (add_running query_id lw.2)
    | Returns results =>
        let sw := if USE_CACHE cfg
                  then store_cache query_id (VList results) t_store lw.2
                  else (Ok false, lw.2) in
        match sw.1 with
        | Raise e => Throw e (add_running query_id sw.2)
        | Ok _ =>
            let body := gen_results "fresh" (VList results) in
            Return (if STANDALONE cfg then Plain body else Jsonify body) sw.2
        end
    end.
Proof.
  intros Hfree. unfold perform_search.
  set (query_id := fingerprint query cache_type) in *.
  rewrite wait_until_free_idle by done. cbn [negb]. cbv zeta.
  destruct (USE_CACHE cfg); cbn [andb fst snd].
  - unfold add_running at 1. rewrite load_cache_set_running.
    pose proof (load_cache_running query_id t_load w) as Hrun1.
    destruct (load_cache query_id t_load w) as [cache w1]. cbn [fst snd] in *.
    destruct (py_truthy cache).
    + rewrite (remove_running_last query_id _ (CURRENTLY_RUNNING w)) by done.
      by rewrite set_running_twice, <- Hrun1, set_running_id.
    + unfold add_running. rewrite Hrun1.
      destruct (execute_search _ _ _ _ _ _ _) as [results|e|b|]; try done.
      rewrite store_cache_set_running.
      pose proof (store_cache_running query_id (VList results) t_store w1) as Hrun2.
      destruct (store_cache query_id _ t_store w1) as [[b|e] w2]; cbn [fst snd] in *.
      * rewrite (remove_running_last query_id _ (CURRENTLY_RUNNING w)) by done.
        rewrite set_running_twice, <- Hrun1, <- Hrun2, set_running_id. done.
      * by rewrite Hrun2, Hrun1.
  - destruct (execute_search _ _ _ _ _ _ _) as [results|e|b|]; try done.
    rewrite (remove_running_last _ _ (CURRENTLY_RUNNING w)) by done.
    unfold add_running. by rewrite set_running_twice, set_running_id.
Qed.

(** A search that ends at all found its fingerprint free. *)
Lemma perform_search_was_idle cfg query cache_type sources search_methods
    t_load t_store spins w :
  perform_search behaviour set_order cfg query cache_type sources
    search_methods t_load t_store spins w ≠ Waiting →
  is_running (fingerprint query cache_type) w = false.
Proof.
  intros Hrun. destruct (is_running (fingerprint query cache_type) w) eqn:Hr; [|done].
  exfalso. apply Hrun. unfold perform_search. by rewrite wait_until_free_busy.
Qed.

(** When the cache directory cannot be created, [store_cache] raises
    out of [perform_search] after the fingerprint was added and before
    it is removed: the fingerprint stays in the list. *)
Lemma perform_search_blocked_cache_leaks cfg query cache_type sources
    search_methods t_load t_store spins w results :
  USE_CACHE cfg = true → cache_dir w = DirBlocked →
  is_running (fingerprint query cache_type) w = false →
  execute_search behaviour set_order sources search_methods []
    (MAX_THREADS cfg) (TIMEOUT cfg) = Returns results →
  perform_search behaviour set_order cfg query cache_type sources
    search_methods t_load t_store spins w =
  Throw OSError (add_running (fingerprint query cache_type) w).
Proof.
  intros Hcache Hdir Hfree Hexec. rewrite perform_search_idle by done. cbv zeta.
  rewrite Hcache, Hexec. unfold load_cache. rewrite read_entry_blocked by done.
  cbn [py_truthy andb fst snd]. by rewrite store_cache_blocked.
Qed.

(** On the paths where [perform_search] returns, the fingerprint has
    been removed. *)
Lemma perform_search_return_releases cfg query cache_type sources
    search_methods t_load t_store spins w r w' :
  perform_search behaviour set_order cfg query cache_type sources
    search_methods t_load t_store spins w = Return r w' →
  is_running (fingerprint query cache_type) w' = false.
Proof.
  intros Hrun.
  assert (is_running (fingerprint query cache_type) w = false) as Hfree.
  { apply (perform_search_was_idle cfg query cache_type sources search_methods
             t_load t_store spins). by rewrite Hrun. }
  rewrite perform_search_idle in Hrun by done. cbv zeta in Hrun.
  set (query_id := fingerprint query cache_type) in *.
  set (lw := if USE_CACHE cfg then load_cache query_id t_load w else (VNone, w)) in *.
  assert (CURRENTLY_RUNNING lw.2 = CURRENTLY_RUNNING w) as Hlw.
  { unfold lw. destruct (USE_CACHE cfg); [|done]. by rewrite load_cache_running. }
  destruct (USE_CACHE cfg && py_truthy lw.1).
  - injection Hrun as _ <-. unfold is_running in *. by rewrite Hlw.
  - destruct (execute_search _ _ _ _ _ _ _) as [results|e|b|]; try done.
    set (sw := if USE_CACHE cfg then store_cache query_id _ t_store lw.2
               else (Ok false, lw.2)) in *.
    assert (CURRENTLY_RUNNING sw.2 = CURRENTLY_RUNNING w) as Hsw.
    { unfold sw. destruct (USE_CACHE cfg); [|done]. by rewrite store_cache_running. }
    destruct (sw.1); [|done].
    injection Hrun as _ <-. unfold is_running in *. by rewrite Hsw.
Qed.

Lemma gen_results_cached data :
  gen_results "cached" data = VDict [("status", VStr "cached"); ("data", data)].
Proof. unfold gen_results. cbn [existsb]. by eqb_lit. Qed.

Lemma gen_results_fresh data :
  gen_results "fresh" data = VDict [("status", VStr "fresh"); ("data", data)].
Proof. unfold gen_results. cbn [existsb]. by eqb_lit. Qed.

End perform_search.



(** C2 — The registry entry is not removed on every exit path: where
    the cache directory cannot be created, [store_cache] raises [OSError]
    out of [perform_search], and the fingerprint of the query is still in
    the list of running searches afterwards. *)
Theorem perform_search_leaks_on_store_error :
  let query_id := CrimeScrape.fingerprint (L:=CrimeScrape.sample_library)
                    "JohnDoe" "name" in
  CrimeScrape.perform_search sample_behaviour reverse sample_settings
    "JohnDoe" "name" [0; 1; 2; 3; 4; 5] [()] (10 # 1) (20 # 1) 0 blocked_world =
  CrimeScrape.Throw OSError (CrimeScrape.add_running query_id blocked_world) ∧
  CrimeScrape.is_running query_id (CrimeScrape.add_running query_id blocked_world)
  = true.
Proof. split; by vm_compute. Qed.

(** ** [merge_responses] on the object store *)

(** C3 — Merging is not pure with respect to its inputs: on a store that
    holds the two responses of [Store.sample_heap], [merge_responses]
    succeeds, and afterwards the notice of the first response (the object
    at address 2) has the charges of both responses; the accumulator refers
    to the notices of the first response (the object at address 1), which
    the nested call then updates in place. *)
Theorem merge_responses_mutates_input :
  ∃ merged h',
    Store.merge_responses 1000 [VOb 0; VOb 3] Store.sample_heap = Ok (merged, h') ∧
    Store.sample_heap !! 2 =
      Some [("id", VStr "1"); ("charges", VList [VStr "A"; VStr "B"])] ∧
    h' !! 2 =
      Some [("id", VStr "1"); ("charges", VList [VStr "A"; VStr "B"; VStr "C"])] ∧
    h' !! merged = Some [("risk", VStr "High"); ("notices", VOb 1)].
Proof. eexists _, _. split_and!; by vm_compute. Qed.

(** ** The store and dictionaries by value *)

(** *** The leaf operations ignore what stands for a dictionary *)

Section natural.
Context {D E : Type} (f : D → E).

Lemma hashable_pmap (v : pyval D) : hashable (pmap f v) = hashable v.
Proof. by destruct v. Qed.

Lemma hash_eqb_pmap (a b : pyval D) : hash_eqb (pmap f a) (pmap f b) = hash_eqb a b.
Proof. by destruct a, b. Qed.

Lemma existsb_hash_eqb_pmap (a : pyval D) seen :
  existsb (hash_eqb (pmap f a)) (pmap f <$> seen) = existsb (hash_eqb a) seen.
Proof.
  induction seen as [|b seen IH]; [done|].
  rewrite fmap_cons. cbn [existsb]. by rewrite hash_eqb_pmap, IH.
Qed.

Lemma dedup_loop_pmap (items seen acc : list (pyval D)) :
  BaseSearch.dedup_loop (pmap f <$> items) (pmap f <$> seen) (pmap f <$> acc) =
  fmap (M:=list) (pmap f) <$> BaseSearch.dedup_loop items seen acc.
Proof.
  revert seen acc. induction items as [|x items IH]; intros seen acc; [done|].
  rewrite fmap_cons. cbn [BaseSearch.dedup_loop].
  rewrite hashable_pmap, existsb_hash_eqb_pmap.
  destruct (hashable x); [|done].
  destruct (existsb (hash_eqb x) seen); [apply IH|].
  rewrite <- (IH (x :: seen) (acc ++ [x])). by rewrite fmap_app.
Qed.

Lemma merge_leaf_pmap key (old new : pyval D) :
  BaseSearch.merge_leaf key (pmap f old) (pmap f new) =
  pmap f <$> BaseSearch.merge_leaf key old new.
Proof.
  assert (BaseSearch.max_risk (pmap f old) (pmap f new) =
          pmap f <$> BaseSearch.max_risk old new) as Hmax.
  { unfold BaseSearch.max_risk.
    assert (∀ v : pyval D, BaseSearch.risk_index (pmap f v) = BaseSearch.risk_index v)
      as Hidx by by intros [].
    rewrite !Hidx.
    destruct (BaseSearch.risk_index old) as [i|]; [|done].
    destruct (BaseSearch.risk_index new) as [j|]; [|done].
    simpl. by destruct (i <? j). }
  destruct old as [| | |l1|], new as [| | |l2|];
    cbn [BaseSearch.merge_leaf pmap];
    try (destruct (String.eqb key "risk"); [apply Hmax|done]).
  unfold BaseSearch._preserve_order_dedup. rewrite <- fmap_app.
  change (@nil (pyval E)) with (pmap f <$> @nil (pyval D)).
  rewrite dedup_loop_pmap.
  by destruct (BaseSearch.dedup_loop (l1 ++ l2) [] []).
Qed.
End natural.

Lemma dedup_loop_hashable {D : Type} (items seen acc r : list (pyval D)) :
  BaseSearch.dedup_loop items seen acc = Ok r →
  Forall (fun v => hashable v = true) acc → Forall (fun v => hashable v = true) r.
Proof.
  revert seen acc. induction items as [|x items IH]; intros seen acc; simpl.
  - by intros [= ->].
  - destruct (hashable x) eqn:Hx; [|done].
    destruct (existsb (hash_eqb x) seen); intros Hr Hacc; [by eapply IH|].
    eapply IH; [done|]. apply Forall_app. split; [done|]. by constructor.
Qed.

Lemma pflat_hashable {D A : Type} (f : D → list A) (v : pyval D) :
  hashable v = true → pflat f v = [].
Proof. by destruct v. Qed.

(** What [merge_leaf] stores is the new value, or a value without
    dictionaries. *)
Lemma merge_leaf_dicts {D A : Type} (f : D → list A) key (old new v : pyval D) :
  BaseSearch.merge_leaf key old new = Ok v → v = new ∨ pflat f v = [].
Proof.
  assert (BaseSearch.max_risk old new = Ok v → pflat f v = []) as Hmax.
  { unfold BaseSearch.max_risk.
    assert (∀ (u : pyval D) i, BaseSearch.risk_index u = Ok i → pflat f u = [])
      as Hidx by by intros [] i.
    destruct (BaseSearch.risk_index old) as [i|] eqn:Hi; [|done].
    destruct (BaseSearch.risk_index new) as [j|] eqn:Hj; [|done].
    simpl. destruct (i <? j); intros [= <-]; eauto. }
  destruct old as [| | |l1|], new as [| | |l2|];
    cbn [BaseSearch.merge_leaf];
    try (destruct (String.eqb key "risk"); [by right; apply Hmax|by left; congruence]).
  destruct (BaseSearch._preserve_order_dedup (l1 ++ l2)) as [r|] eqn:Hr; [|done].
  intros [= <-]. right. simpl.
  apply dedup_loop_hashable in Hr; [|done].
  induction Hr as [|x r Hx _ IH]; [done|].
  rewrite fmap_cons. simpl. by rewrite pflat_hashable, IH.
Qed.

(** *** Located dictionaries *)

Lemma nodes_unfold l items :
  Store.nodes (Store.LDict l items) =
  (l, Store.shallow_items items) :: Store.items_nodes items.
Proof. reflexivity. Qed.

Lemma locs_unfold l items :
  Store.locs (Store.LDict l items) = l :: Store.items_locs items.
Proof. reflexivity. Qed.

Lemma items_nodes_cons key v items :
  Store.items_nodes ((key, v) :: items) =
  Store.value_nodes v ++ Store.items_nodes items.
Proof. reflexivity. Qed.

Lemma items_nodes_app items1 items2 :
  Store.items_nodes (items1 ++ items2) =
  Store.items_nodes items1 ++ Store.items_nodes items2.
Proof. unfold Store.items_nodes. by rewrite fmap_app, concat_app. Qed.

Lemma items_locs_cons key v items :
  Store.items_locs ((key, v) :: items) =
  (Store.value_nodes v).*1 ++ Store.items_locs items.
Proof. unfold Store.items_locs. by rewrite items_nodes_cons, fmap_app. Qed.

Lemma items_locs_app items1 items2 :
  Store.items_locs (items1 ++ items2) =
  Store.items_locs items1 ++ Store.items_locs items2.
Proof. unfold Store.items_locs. by rewrite items_nodes_app, fmap_app. Qed.

Lemma erase_unfold l items :
  Store.erase (Store.LDict l items) = Dict (Store.erase_items items).
Proof. reflexivity. Qed.

Lemma holds_app h ns1 ns2 :
  Store.holds h (ns1 ++ ns2) ↔ Store.holds h ns1 ∧ Store.holds h ns2.
Proof. apply Forall_app. Qed.

Lemma holds_frame h h' ns :
  Store.holds h ns → (∀ l, l ∈ ns.*1 → h' !! l = h !! l) → Store.holds h' ns.
Proof.
  unfold Store.holds. rewrite !Forall_forall. intros Hns Hframe n Hn.
  rewrite Hframe; [by apply Hns|]. by apply list_elem_of_fmap_2.
Qed.

Lemma holds_in_dom h ns l : Store.holds h ns → l ∈ ns.*1 → is_Some (h !! l).
Proof.
  unfold Store.holds. rewrite Forall_forall.
  intros Hns ([l' d] & -> & Hn)%list_elem_of_fmap. by rewrite (Hns _ Hn).
Qed.

Lemma elem_of_concat {A : Type} (x : A) (ls : list (list A)) :
  x ∈ concat ls ↔ ∃ l, x ∈ l ∧ l ∈ ls.
Proof.
  induction ls as [|l ls IH]; simpl.
  - split; [by intros ?%elem_of_nil|]. by intros (l & _ & ?%elem_of_nil).
  - rewrite elem_of_app, IH. split.
    + intros [?|(l' & ? & ?)]; [exists l|exists l']; split; try done; by constructor.
    + intros (l' & ? & [->|?]%elem_of_cons); [by left|]. right. by exists l'.
Qed.

Lemma submseteq_NoDup {A : Type} (l k : list A) : l ⊆+ k → NoDup k → NoDup l.
Proof.
  intros [k' Hk]%submseteq_Permutation. rewrite Hk.
  by intros [? _]%NoDup_app.
Qed.

Lemma dict_get_split {V : Type} key (items : list (string * V)) old :
  dict_get key items = Some old →
  ∃ pre post,
    items = pre ++ (key, old) :: post ∧
    ∀ v, dict_set key v items = pre ++ (key, v) :: post.
Proof.
  induction items as [|[k v0] items IH]; simpl; [done|].
  destruct (String.eqb_spec k key) as [->|Hne].
  - intros [= ->]. by exists [], items.
  - intros (pre & post & -> & Hset)%IH.
    exists ((k, v0) :: pre), post. split; [done|].
    intros v. by rewrite Hset.
Qed.

Lemma dict_get_absent {V : Type} key (items : list (string * V)) v :
  dict_get key items = None → dict_set key v items = items ++ [(key, v)].
Proof. intros H. by apply dict_set_keys_notin, dict_get_None. Qed.

Lemma both_dicts_pmap {D E : Type} (f : D → E) (a b : pyval D) :
  both_dicts (pmap f a) (pmap f b) = both_dicts a b.
Proof. by destruct a, b. Qed.

(** The two branches of an iteration, by value and on the store. *)
Lemma merge_item_leaf (d1 : list (string * value)) key (old new : value) :
  dict_get key d1 = Some old → both_dicts old new = false →
  BaseSearch.merge_item d1 key new =
  BaseSearch.merge_leaf key old new ≫= fun v => mret (dict_set key v d1).
Proof.
  intros Hget Hboth. unfold BaseSearch.merge_item. rewrite Hget.
  by destruct old as [| | | |[sub]], new.
Qed.

Lemma store_merge_item_leaf recurse l1 key (old new : Store.hval) (h : Store.heap)
    (d1 : list (string * Store.hval)) :
  h !! l1 = Some d1 → dict_get key d1 = Some old → both_dicts old new = false →
  Store.merge_item recurse l1 key new h =
  BaseSearch.merge_leaf key old new ≫= fun v => mret (<[l1 := dict_set key v d1]> h).
Proof.
  intros Hl1 Hget Hboth. unfold Store.merge_item, Store.read. rewrite Hl1.
  cbn [mbind result_bind]. rewrite Hget. by destruct old, new.
Qed.

Lemma height_items l items n :
  dict_height (Store.erase (Store.LDict l items)) ≤ S n →
  Forall (fun kv => ∀ sub, kv.2 = VOb sub → dict_height (Store.erase sub) ≤ n) items.
Proof.
  rewrite erase_unfold. cbn [dict_height]. intros H%le_S_n. apply Forall_forall.
  intros [key v] Hin sub Hv. simpl in Hv. subst v.
  etrans; [|apply H].
  etrans; [|apply max_list_elem_of_le, list_elem_of_fmap_2];
    [|apply (list_elem_of_fmap_2 (prod_map id (pmap Store.erase))), Hin].
  simpl. lia.
Qed.

Lemma shallow_items_get key items :
  dict_get key (Store.shallow_items items) = Store.shallow <$> dict_get key items.
Proof. apply dict_get_fmap. Qed.

Lemma erase_items_get key items :
  dict_get key (Store.erase_items items) = pmap Store.erase <$> dict_get key items.
Proof. apply dict_get_fmap. Qed.

Lemma shallow_items_set key v items :
  dict_set key (Store.shallow v) (Store.shallow_items items) =
  Store.shallow_items (dict_set key v items).
Proof. apply (dict_set_fmap Store.shallow). Qed.

Lemma erase_items_set key v items :
  dict_set key (pmap Store.erase v) (Store.erase_items items) =
  Store.erase_items (dict_set key v items).
Proof. apply (dict_set_fmap (pmap Store.erase)). Qed.

(** *** One iteration *)

Lemma merge_item_adequate n recurse l1 items1 key new (h : Store.heap) r :
  Store.simulates recurse n →
  (∀ sub, new = VOb sub → dict_height (Store.erase sub) ≤ n) →
  h !! l1 = Some (Store.shallow_items items1) →
  Store.holds h (Store.items_nodes items1) →
  Store.holds h (Store.value_nodes new) →
  NoDup (l1 :: Store.items_locs items1 ++ (Store.value_nodes new).*1) →
  BaseSearch.merge_item (Store.erase_items items1) key (pmap Store.erase new) = Ok r →
  ∃ h' items1',
    Store.merge_item recurse l1 key (Store.shallow new) h = Ok h' ∧
    h' !! l1 = Some (Store.shallow_items items1') ∧
    Store.holds h' (Store.items_nodes items1') ∧
    Store.erase_items items1' = r ∧
    Store.items_locs items1' ⊆+
      Store.items_locs items1 ++ (Store.value_nodes new).*1 ∧
    (∀ l, l ∉ l1 :: Store.items_locs items1 ++ (Store.value_nodes new).*1 →
          h' !! l = h !! l).
Proof.
  intros Hsim Hheight Hl1 Hitems Hnew Hnd Hval.
  apply NoDup_cons in Hnd as [Hl1out Hnd].
  apply not_elem_of_app in Hl1out as [Hl1items Hl1new].
  destruct (dict_get key items1) as [old|] eqn:Hget.
  - (* the key is in d1 *)
    apply dict_get_split in Hget as Hsplit.
    destruct Hsplit as (pre & post & Hitems1 & Hset).
    destruct (both_dicts old new) eqn:Hboth.
    + (* both values are dictionaries: the nested call *)
      destruct old as [| | | |sub1], new as [| | | |sub2]; try done.
      destruct sub1 as [ls items_s].
      unfold BaseSearch.merge_item in Hval. rewrite erase_items_get, Hget in Hval.
      cbn [fmap option_fmap option_map pmap] in Hval. rewrite erase_unfold in Hval.
      destruct (BaseSearch.merge_recursive (Store.erase_items items_s) (Store.erase sub2))
        as [sub'|] eqn:Hrec; [|done].
      cbn in Hval. injection Hval as <-.
      rewrite Hitems1, items_nodes_app, items_nodes_cons in Hitems.
      apply holds_app in Hitems as [Hpre [Hsub1 Hpost]%holds_app].
      rewrite Hitems1, items_locs_app, items_locs_cons in Hl1items, Hnd.
      change (Store.value_nodes (VOb ?t)).*1 with (Store.locs t) in *.
      change (Store.value_nodes (VOb ?t)) with (Store.nodes t) in *.
      set (A := Store.items_locs pre) in *. set (C := Store.items_locs post) in *.
      set (B := Store.locs (Store.LDict ls items_s)) in *.
      set (D := Store.locs sub2) in *.
      assert (NoDup (A ++ (B ++ D) ++ C)) as Hnd'.
      { eapply submseteq_NoDup; [|exact Hnd]. solve_submseteq. }
      apply NoDup_app in Hnd' as (_ & HA & Hnd').
      apply NoDup_app in Hnd' as (HBD & HC & _).
      destruct (Hsim h (Store.LDict ls items_s) sub2 sub') as (h' & items_s' & Hrun & Hm);
        [by apply Hheight|done..|].
      destruct Hm as (Hst & Her & Hlocs & Hframe). cbn [Store.lroot] in *.
      fold B D in Hlocs, Hframe.
      assert (l1 ∉ B ++ D) as Hl1BD.
      { intros [?|?]%elem_of_app; [|done].
        apply Hl1items. rewrite !elem_of_app. tauto. }
      exists h', (pre ++ (key, VOb (Store.LDict ls items_s')) :: post).
      split_and!.
      * unfold Store.merge_item, Store.read. rewrite Hl1. cbn [mbind result_bind].
        by rewrite shallow_items_get, Hget.
      * rewrite Hframe, Hl1, Hitems1 by done. f_equal.
        unfold Store.shallow_items. by rewrite !fmap_app, !fmap_cons.
      * rewrite items_nodes_app, items_nodes_cons, !holds_app. split_and!.
        -- eapply holds_frame; [done|]. intros l Hl. apply Hframe.
           intros Hin. apply (HA l Hl). apply elem_of_app. by left.
        -- done.
        -- eapply holds_frame; [done|]. intros l Hl. apply Hframe.
           intros Hin. by apply (HC l Hin).
      * rewrite <- Hset, <- erase_items_set. cbn [pmap].
        by rewrite erase_unfold, Her.
      * rewrite items_locs_app, items_locs_cons.
        change (Store.value_nodes (VOb ?t)).*1 with (Store.locs t).
        rewrite Hitems1, items_locs_app, items_locs_cons.
        change (Store.value_nodes (VOb ?t)).*1 with (Store.locs t).
        fold A B C. rewrite <- !app_assoc.
        apply submseteq_skips_l.
        etrans; [apply submseteq_skips_r, Hlocs|]. solve_submseteq.
      * intros l Hl. apply Hframe. intros Hin. apply Hl.
        rewrite Hitems1, items_locs_app, items_locs_cons.
        change (Store.value_nodes (VOb ?t)).*1 with (Store.locs t).
        fold A B C. rewrite elem_of_cons, !elem_of_app.
        apply elem_of_app in Hin. tauto.
    + (* a leaf *)
      rewrite (merge_item_leaf _ _ (pmap Store.erase old)) in Hval;
        [|by rewrite erase_items_get, Hget|by rewrite both_dicts_pmap].
      rewrite merge_leaf_pmap in Hval.
      destruct (BaseSearch.merge_leaf key old new) as [v|] eqn:Hleaf; [|done].
      cbn in Hval. injection Hval as <-.
      exists (<[l1 := dict_set key (Store.shallow v) (Store.shallow_items items1)]> h),
             (dict_set key v items1).
      assert ((Store.value_nodes v).*1 ⊆+ (Store.value_nodes new).*1 ∧
              Store.holds h (Store.value_nodes v)) as [Hvlocs Hvholds].
      { destruct (merge_leaf_dicts Store.nodes _ _ _ _ Hleaf) as [->|Hv]; [done|].
        unfold Store.value_nodes. rewrite Hv. split; [apply submseteq_nil_l|constructor]. }
      split_and!.
      * rewrite (store_merge_item_leaf _ _ _ (Store.shallow old) _ _
                   (Store.shallow_items items1));
          [|done|by rewrite shallow_items_get, Hget
           |by unfold Store.shallow; rewrite both_dicts_pmap].
        unfold Store.shallow. rewrite merge_leaf_pmap, Hleaf. done.
      * by rewrite lookup_insert_eq, shallow_items_set.
      * rewrite Hset, items_nodes_app, items_nodes_cons.
        rewrite Hitems1, items_nodes_app, items_nodes_cons in Hitems.
        apply holds_app in Hitems as [Hpre [_ Hpost]%holds_app].
        assert (∀ ns, Store.holds h ns → l1 ∉ ns.*1 →
                      Store.holds (<[l1 := dict_set key (Store.shallow v)
                                     (Store.shallow_items items1)]> h) ns) as Hframe.
        { intros ns Hns Hl. eapply holds_frame; [done|].
          intros l Hin. apply lookup_insert_ne. by intros <-. }
        rewrite Hitems1, items_locs_app, items_locs_cons in Hl1items.
        rewrite !not_elem_of_app in Hl1items. destruct Hl1items as (?&?&?).
        rewrite !holds_app. split_and!; apply Hframe; try done.
        intros Hin. apply Hl1new. by eapply elem_of_submseteq.
      * by rewrite erase_items_set.
      * rewrite Hset, Hitems1, !items_locs_app, !items_locs_cons.
        rewrite <- !app_assoc.
        apply submseteq_skips_l.
        etrans; [apply submseteq_app; [apply Hvlocs|reflexivity]|].
        solve_submseteq.
      * intros l [Hl _]%not_elem_of_cons. by apply lookup_insert_ne.
  - (* a new key: the value is stored by reference *)
    unfold BaseSearch.merge_item in Hval. rewrite erase_items_get, Hget in Hval.
    cbn in Hval. injection Hval as <-.
    exists (<[l1 := dict_set key (Store.shallow new) (Store.shallow_items items1)]> h),
           (dict_set key new items1).
    split_and!.
    + unfold Store.merge_item, Store.read. rewrite Hl1. cbn [mbind result_bind].
      by rewrite shallow_items_get, Hget.
    + by rewrite lookup_insert_eq, shallow_items_set.
    + rewrite (dict_get_absent key items1 new), items_nodes_app, items_nodes_cons by done.
      rewrite app_nil_r. apply holds_app.
      split; (eapply holds_frame; [done|]); intros l Hin;
        apply lookup_insert_ne; by intros <-.
    + by rewrite erase_items_set.
    + rewrite (dict_get_absent key items1 new), items_locs_app, items_locs_cons by done.
      by rewrite app_nil_r.
    + intros l [Hl _]%not_elem_of_cons. by apply lookup_insert_ne.
Qed.

(** *** The loop *)

Lemma merge_loop_adequate n recurse l1 l2 items2 :
  Store.simulates recurse n →
  ∀ rest done items1 (h : Store.heap) r,
    items2 = done ++ rest →
    h !! l2 = Some (Store.shallow_items items2) →
    h !! l1 = Some (Store.shallow_items items1) →
    Store.holds h (Store.items_nodes items1) →
    Store.holds h (Store.items_nodes rest) →
    NoDup (l1 :: l2 :: Store.items_locs items1 ++ Store.items_locs rest) →
    Forall (fun kv => ∀ sub, kv.2 = VOb sub → dict_height (Store.erase sub) ≤ n) rest →
    BaseSearch.merge_recursive (Store.erase_items items1)
      (Dict (Store.erase_items rest)) = Ok r →
    ∃ h' items1',
      Store.merge_loop recurse l1 l2 (length items2) (length rest) h = Ok h' ∧
      h' !! l1 = Some (Store.shallow_items items1') ∧
      Store.holds h' (Store.items_nodes items1') ∧
      Store.erase_items items1' = r ∧
      Store.items_locs items1' ⊆+ Store.items_locs items1 ++ Store.items_locs rest ∧
      (∀ l, l ∉ l1 :: Store.items_locs items1 ++ Store.items_locs rest →
            h' !! l = h !! l).
Proof.
  intros Hsim rest.
  induction rest as [|[key new] rest IH];
    intros done items1 h r Hitems2 Hl2 Hl1 Hitems Hrest Hnd Hheights Hval.
  - rewrite merge_recursive_nil in Hval. injection Hval as <-.
    exists h, items1. split_and!; try done.
    + cbn [length Store.merge_loop]. unfold Store.read. rewrite Hl2.
      cbn [mbind result_bind]. unfold Store.shallow_items.
      by rewrite length_fmap, Nat.eqb_refl.
    + rewrite app_nil_r. done.
  - change (Store.erase_items ((key, new) :: rest))
      with ((key, pmap Store.erase new) :: Store.erase_items rest) in Hval.
    rewrite merge_recursive_cons in Hval.
    destruct (BaseSearch.merge_item (Store.erase_items items1) key (pmap Store.erase new))
      as [r1|] eqn:Hitem; [|done].
    cbn [mbind result_bind] in Hval.
    rewrite items_nodes_cons in Hrest. apply holds_app in Hrest as [Hnew Hrest].
    rewrite items_locs_cons in Hnd.
    set (X := Store.items_locs items1) in *.
    set (N := (Store.value_nodes new).*1) in *.
    set (R := Store.items_locs rest) in *.
    apply Forall_cons in Hheights as [Hheight Hheights].
    destruct (merge_item_adequate n recurse l1 items1 key new h r1)
      as (h1 & items1_1 & Hrun1 & Hl1' & Hitems' & Her1 & Hlocs1 & Hframe1);
      try done.
    { eapply submseteq_NoDup; [|exact Hnd]. fold X N. solve_submseteq. }
    fold X N in Hlocs1, Hframe1.
    assert (∀ l, l ∈ l2 :: R → l ∉ l1 :: X ++ N) as Hdisj.
    { assert (NoDup ((l2 :: R) ++ (l1 :: X ++ N))) as Hnd'.
      { eapply submseteq_NoDup; [|exact Hnd]. solve_submseteq. }
      by apply NoDup_app in Hnd' as (_ & ? & _). }
    destruct (IH (done ++ [(key, new)]) items1_1 h1 r)
      as (h' & items1' & Hrun & Hl1'' & Hitems'' & Her & Hlocs & Hframe).
    { by rewrite <- app_assoc. }
    { rewrite Hframe1; [done|]. apply Hdisj. by left. }
    { done. }
    { done. }
    { eapply holds_frame; [done|]. intros l Hl. apply Hframe1, Hdisj. by right. }
    { fold R. eapply submseteq_NoDup; [|exact Hnd].
      etrans; [apply (submseteq_skips_l [l1; l2]), submseteq_skips_r, Hlocs1|].
      solve_submseteq. }
    { done. }
    { by rewrite Her1. }
    fold R in Hlocs, Hframe.
    exists h', items1'. split_and!; try done.
    + cbn [length Store.merge_loop]. unfold Store.read. rewrite Hl2.
      cbn [mbind result_bind]. unfold Store.shallow_items at 1.
      rewrite length_fmap, Nat.eqb_refl. cbn [negb].
      replace (length items2 - S (length rest)) with (length done)
        by (rewrite Hitems2, length_app; simpl; lia).
      unfold Store.shallow_items. rewrite list_lookup_fmap, Hitems2.
      rewrite lookup_app_r, Nat.sub_diag by lia. cbn.
      fold (Store.shallow new). rewrite Hrun1. cbn [mbind result_bind].
      rewrite <- Hitems2. done.
    + rewrite items_locs_cons. fold X N R.
      etrans; [apply Hlocs|].
      etrans; [apply submseteq_skips_r, Hlocs1|]. solve_submseteq.
    + rewrite items_locs_cons. fold X N R.
      intros l Hl. rewrite Hframe, Hframe1; [done|..].
      * intros Hin. apply Hl. rewrite elem_of_cons, !elem_of_app in Hin.
        rewrite elem_of_cons, !elem_of_app. tauto.
      * intros Hin. apply Hl. rewrite elem_of_cons, !elem_of_app in Hin.
        rewrite elem_of_cons, !elem_of_app.
        destruct Hin as [?|[Hin|?]]; [tauto| |tauto].
        eapply elem_of_submseteq in Hin; [|exact Hlocs1].
        rewrite elem_of_app in Hin. tauto.
Qed.

(** *** [merge_recursive] *)

Lemma merge_recursive_adequate n : Store.simulates (Store.merge_recursive n) n.
Proof.
  induction n as [|n IH];
    intros h [l1 items1] [l2 items2] r Hheight Hst1 Hst2 Hnd Hval.
  { rewrite erase_unfold in Hheight. simpl in Hheight. lia. }
  unfold Store.stored in Hst1, Hst2. rewrite nodes_unfold in Hst1, Hst2.
  apply Forall_cons in Hst1 as [Hl1 Hitems1]. apply Forall_cons in Hst2 as [Hl2 Hitems2].
  cbn [fst snd] in Hl1, Hl2. rewrite !locs_unfold in Hnd.
  cbn [Store.lroot Store.litems] in *. rewrite erase_unfold in Hval.
  destruct (merge_loop_adequate n (Store.merge_recursive n) l1 l2 items2 IH
              items2 [] items1 h r)
    as (h' & items1' & Hrun & Hl1' & Hitems' & Her & Hlocs & Hframe); try done.
  { eapply submseteq_NoDup; [|exact Hnd]. solve_submseteq. }
  { by apply height_items with l2. }
  exists h', items1'. split.
  - cbn [Store.merge_recursive]. unfold Store.read. rewrite Hl2.
    cbn [mbind result_bind]. unfold Store.shallow_items at 1 2.
    by rewrite length_fmap.
  - split_and!.
    + unfold Store.stored. rewrite nodes_unfold. by constructor.
    + done.
    + rewrite !locs_unfold. cbn [Store.lroot].
      etrans; [apply (submseteq_skips_l [l1]), Hlocs|]. solve_submseteq.
    + intros l Hl. apply Hframe. intros Hin. apply Hl.
      rewrite !locs_unfold. rewrite elem_of_cons, !elem_of_app in Hin.
      rewrite elem_of_app, !elem_of_cons. tauto.
Qed.

(** *** [merge_responses] *)

Lemma merge_all_adequate depth ts :
  ∀ acc l0 (h : Store.heap) r,
    h !! l0 = Some (Store.shallow_items acc) →
    Store.holds h (Store.items_nodes acc) →
    Forall (Store.stored h) ts →
    Forall (fun t => dict_height (Store.erase t) ≤ depth) ts →
    NoDup (l0 :: Store.items_locs acc ++ concat (Store.locs <$> ts)) →
    BaseSearch.merge_all (Store.erase_items acc)
      ((fun t => VOb (Store.erase t)) <$> ts) = Ok r →
    ∃ h' items,
      Store.merge_all depth l0 ((fun t => VOb (Store.lroot t)) <$> ts) h = Ok h' ∧
      Store.stored h' (Store.LDict l0 items) ∧
      Store.erase_items items = r ∧
      Store.items_locs items ⊆+ Store.items_locs acc ++ concat (Store.locs <$> ts) ∧
      (∀ l, l ∉ l0 :: Store.items_locs acc ++ concat (Store.locs <$> ts) →
            h' !! l = h !! l).
Proof.
  induction ts as [|t ts IH]; intros acc l0 h r Hl0 Hacc Hts Hheights Hnd Hval.
  - injection Hval as <-. exists h, acc. split_and!; try done.
    + unfold Store.stored. rewrite nodes_unfold. by constructor.
    + simpl. by rewrite app_nil_r.
  - rewrite fmap_cons in Hval. cbn [BaseSearch.merge_all] in Hval.
    destruct (BaseSearch.merge_recursive (Store.erase_items acc) (Store.erase t))
      as [r1|] eqn:Hrec; [|done].
    cbn [mbind result_bind] in Hval.
    apply Forall_cons in Hts as [Ht Hts].
    apply Forall_cons in Hheights as [Hheight Hheights].
    rewrite fmap_cons in Hnd. cbn [concat] in Hnd.
    set (X := Store.items_locs acc) in *. set (T := Store.locs t) in *.
    set (R := concat (Store.locs <$> ts)) in *.
    destruct (merge_recursive_adequate depth h (Store.LDict l0 acc) t r1)
      as (h1 & items1 & Hrun1 & Hst1 & Her1 & Hlocs1 & Hframe1); try done.
    { unfold Store.stored. rewrite nodes_unfold. by constructor. }
    { rewrite locs_unfold. fold X T.
      eapply submseteq_NoDup; [|exact Hnd]. solve_submseteq. }
    cbn [Store.lroot] in *. rewrite !locs_unfold in Hlocs1, Hframe1.
    fold X T in Hlocs1, Hframe1.
    assert (∀ l, l ∈ R → l ∉ (l0 :: X) ++ T) as Hdisj.
    { assert (NoDup (R ++ (l0 :: X) ++ T)) as Hnd'.
      { eapply submseteq_NoDup; [|exact Hnd]. solve_submseteq. }
      by apply NoDup_app in Hnd' as (_ & ? & _). }
    pose proof Hst1 as Hst1'. unfold Store.stored in Hst1'.
    rewrite nodes_unfold in Hst1'. apply Forall_cons in Hst1' as [Hl0' Hitems1].
    destruct (IH items1 l0 h1 r) as (h' & items & Hrun & Hst & Her & Hlocs & Hframe);
      try done.
    { apply Forall_forall. intros t' Ht'.
      rewrite Forall_forall in Hts. eapply holds_frame; [by apply Hts|].
      intros l Hl. apply Hframe1, Hdisj. unfold R.
      apply elem_of_concat. exists (Store.locs t'). split; [done|].
      by apply list_elem_of_fmap_2. }
    { fold R. eapply submseteq_NoDup; [|exact Hnd].
      change (l0 :: Store.items_locs items1 ++ R)
        with ((l0 :: Store.items_locs items1) ++ R).
      etrans; [apply submseteq_skips_r, Hlocs1|]. solve_submseteq. }
    { by rewrite Her1. }
    fold R in Hframe, Hlocs.
    exists h', items. split_and!; try done.
    + rewrite fmap_cons. cbn [Store.merge_all]. rewrite Hrun1.
      cbn [mbind result_bind]. done.
    + rewrite fmap_cons. cbn [concat]. fold T R.
      etrans; [apply Hlocs|].
      apply (submseteq_app_inv_l _ _ [l0]). cbn [app].
      change (l0 :: Store.items_locs items1 ++ R)
        with ((l0 :: Store.items_locs items1) ++ R).
      etrans; [apply submseteq_skips_r, Hlocs1|]. solve_submseteq.
    + rewrite fmap_cons. cbn [concat]. fold T R.
      intros l Hl. rewrite Hframe, Hframe1; [done|..].
      * intros Hin. apply Hl. rewrite elem_of_app, elem_of_cons in Hin.
        rewrite elem_of_cons, !elem_of_app. tauto.
      * intros Hin. apply Hl. rewrite elem_of_cons, elem_of_app in Hin.
        rewrite elem_of_cons, !elem_of_app.
        destruct Hin as [?|[Hin|?]]; [tauto| |tauto].
        assert (l ∈ (l0 :: X) ++ T) as Hin'.
        { eapply elem_of_submseteq; [|exact Hlocs1]. by right. }
        rewrite elem_of_app, elem_of_cons in Hin'. tauto.
Qed.

(** The store model and the model by value agree: when the responses
    are dictionaries laid out in the store without a shared object, and
    the recursion limit is not reached, [merge_responses] on the store
    succeeds where it succeeds by value, and the dictionary it returns is
    a new object that holds, read through the store, the dictionary
    computed by value. *)
Theorem store_merge_responses_adequate depth (h : Store.heap) (ts : list Store.ldict) m :
  Forall (Store.stored h) ts →
  NoDup (concat (Store.locs <$> ts)) →
  Forall (fun t => dict_height (Store.erase t) ≤ depth) ts →
  BaseSearch.merge_responses ((fun t => VOb (Store.erase t)) <$> ts) = Ok m →
  ∃ merged h' items,
    Store.merge_responses depth ((fun t => VOb (Store.lroot t)) <$> ts) h =
      Ok (merged, h') ∧
    h !! merged = None ∧
    Store.stored h' (Store.LDict merged items) ∧
    VOb (Store.erase (Store.LDict merged items)) = m ∧
    Store.locs (Store.LDict merged items) ⊆+ merged :: concat (Store.locs <$> ts) ∧
    (∀ l, l ∉ merged :: concat (Store.locs <$> ts) → h' !! l = h !! l).
Proof.
  intros Hts Hnd Hheights Hval. unfold BaseSearch.merge_responses in Hval.
  destruct (BaseSearch.merge_all [] _) as [r|] eqn:Hall; [|done].
  injection Hval as <-.
  set (merged := fresh (dom h)).
  assert (h !! merged = None) as Hfresh.
  { apply not_elem_of_dom. apply is_fresh. }
  destruct (merge_all_adequate depth ts [] merged (<[merged := []]> h) r)
    as (h' & items & Hrun & Hst & Her & Hlocs & Hframe); try done.
  - by rewrite lookup_insert_eq.
  - constructor.
  - apply Forall_forall. intros t Ht.
    rewrite Forall_forall in Hts. eapply holds_frame; [by apply Hts|].
    intros l Hl. apply lookup_insert_ne. intros <-.
    destruct (holds_in_dom h _ merged (Hts t Ht) Hl) as [d Hd]. congruence.
  - cbn [Store.items_locs Store.items_nodes fmap list_fmap concat app].
    constructor; [|done]. intros Hin.
    apply elem_of_concat in Hin as (ls & Hin & (t & -> & Ht)%list_elem_of_fmap).
    rewrite Forall_forall in Hts.
    destruct (holds_in_dom h _ merged (Hts t Ht) Hin) as [d Hd]. congruence.
  - exists merged, h', items. split_and!; try done.
    + unfold Store.merge_responses. fold merged. rewrite Hrun. done.
    + by rewrite erase_unfold, Her.
    + rewrite locs_unfold. by apply submseteq_skip.
    + intros l Hl. rewrite Hframe by done.
      apply lookup_insert_ne. intros <-. apply Hl. by left.
Qed.

(** On the sample store the premises hold: the two responses are laid
    out without a shared object, and the dictionary returned on the store
    is the one computed by value. *)
Lemma store_merge_responses_sample :
  ∃ merged h' items,
    Store.merge_responses 1000 [VOb 0; VOb 3] Store.sample_heap = Ok (merged, h') ∧
    Store.sample_heap !! merged = None ∧
    Store.stored h' (Store.LDict merged items) ∧
    BaseSearch.merge_responses
      [VOb (Store.erase Store.sample_located_low);
       VOb (Store.erase Store.sample_located_high)] =
    Ok (VOb (Store.erase (Store.LDict merged items))).
Proof.
  destruct (store_merge_responses_adequate 1000 Store.sample_heap
              [Store.sample_located_low; Store.sample_located_high]
              (VDict [("risk", VStr "High");
                      ("notices",
                        VDict [("X", VDict [("id", VStr "1");
                                            ("charges",
                                              VList [VStr "A"; VStr "B"; VStr "C"])])])]))
    as (merged & h' & items & Hrun & Hfresh & Hst & Her & _).
  - repeat constructor.
  - apply (bool_decide_unpack _). by vm_compute.
  - repeat constructor; vm_compute; lia.
  - by vm_compute.
  - exists merged, h', items. split_and!; try done. rewrite Her. by vm_compute.
Qed.

(** *** Merging a merged response again *)

(** The dictionary returned by a first [merge_responses] shares objects
    with the responses it merged.  It can still be merged with other
    responses: on the store, merging [inner] first and then [pre], the
    result and [post] gives what the two merges give by value. *)
Lemma store_merge_responses_nested depth (h : Store.heap)
    (pre inner post : list Store.ldict) (d : dict) m :
  let roots := fmap (M:=list) (fun t => VOb (Store.lroot t) : Store.hval) in
  let values := fmap (M:=list) (fun t => VOb (Store.erase t) : value) in
  Forall (Store.stored h) (pre ++ inner ++ post) →
  NoDup (concat (Store.locs <$> pre ++ inner ++ post)) →
  Forall (fun t => dict_height (Store.erase t) ≤ depth) (pre ++ inner ++ post) →
  dict_height d ≤ depth →
  BaseSearch.merge_responses (values inner) = Ok (VOb d) →
  BaseSearch.merge_responses (values pre ++ VOb d :: values post) = Ok m →
  ∃ merged1 h1 merged h2 items,
    Store.merge_responses depth (roots inner) h = Ok (merged1, h1) ∧
    Store.merge_responses depth (roots pre ++ VOb merged1 :: roots post) h1 =
      Ok (merged, h2) ∧
    Store.stored h2 (Store.LDict merged items) ∧
    VOb (Store.erase (Store.LDict merged items)) = m.
Proof.
  intros roots values Hst Hnd Hheights Hd Hinner Houter.
  rewrite !Forall_app in Hst, Hheights.
  destruct Hst as (Hpre & Hinn & Hpost). destruct Hheights as (Hhpre & Hhin & Hhpost).
  rewrite !fmap_app, !concat_app in Hnd.
  set (P := concat (Store.locs <$> pre)) in *.
  set (I := concat (Store.locs <$> inner)) in *.
  set (Q := concat (Store.locs <$> post)) in *.
  destruct (store_merge_responses_adequate depth h inner (VOb d))
    as (merged1 & h1 & items1 & Hrun1 & Hfresh & Hst1 & Her1 & Hlocs1 & Hframe1);
    try done.
  { eapply submseteq_NoDup; [|exact Hnd]. fold I. solve_submseteq. }
  fold I in Hlocs1, Hframe1. set (t1 := Store.LDict merged1 items1) in *.
  assert (Store.erase t1 = d) as Het1 by congruence.
  assert (∀ ts l, Forall (Store.stored h) ts → l ∈ concat (Store.locs <$> ts) →
                  l ≠ merged1) as Hdom.
  { intros ts l Hts (ls & Hl & (t & -> & Ht)%list_elem_of_fmap)%elem_of_concat ->.
    rewrite Forall_forall in Hts.
    destruct (holds_in_dom h _ merged1 (Hts t Ht) Hl) as [o Ho]. congruence. }
  assert (NoDup (P ++ (merged1 :: I) ++ Q)) as Hnd1.
  { apply (NoDup_Permutation_proper _ (merged1 :: P ++ I ++ Q)); [solve_Permutation|].
    constructor; [|done]. rewrite !elem_of_app. intros [Hl|[Hl|Hl]].
    - by eapply (Hdom pre).
    - by eapply (Hdom inner).
    - by eapply (Hdom post). }
  assert (∀ ts, Forall (Store.stored h) ts →
                (∀ l, l ∈ concat (Store.locs <$> ts) → l ∉ merged1 :: I) →
                Forall (Store.stored h1) ts) as Hkeep.
  { intros ts Hts Hdisj. apply Forall_forall. intros t Ht.
    rewrite Forall_forall in Hts. eapply holds_frame; [by apply Hts|].
    intros l Hl. apply Hframe1, Hdisj, elem_of_concat.
    exists (Store.locs t). split; [done|]. by apply list_elem_of_fmap_2. }
  destruct (store_merge_responses_adequate depth h1 (pre ++ t1 :: post) m)
    as (merged & h2 & items & Hrun & _ & Hst2 & Her & _).
  - rewrite Forall_app, Forall_cons. split_and!; [|done|].
    + apply Hkeep; [done|]. intros l Hl.
      apply NoDup_app in Hnd1 as (_ & Hnd1 & _). intros Hin. apply (Hnd1 l Hl).
      apply elem_of_app. by left.
    + apply Hkeep; [done|]. intros l Hl.
      apply NoDup_app in Hnd1 as (_ & _ & Hnd1).
      apply NoDup_app in Hnd1 as (_ & Hnd1 & _). intros Hin. by apply (Hnd1 l Hin).
  - rewrite fmap_app, fmap_cons, concat_app. cbn [concat]. fold P Q.
    eapply submseteq_NoDup; [|exact Hnd1].
    apply submseteq_skips_l, submseteq_skips_r, Hlocs1.
  - rewrite Forall_app, Forall_cons. split_and!; [done| |done].
    by rewrite Het1.
  - rewrite fmap_app, fmap_cons. fold (values pre) (values post).
    by rewrite Het1.
  - exists merged1, h1, merged, h2, items. split_and!; try done.
    rewrite <- Hrun. unfold roots. by rewrite fmap_app, fmap_cons.
Qed.

Lemma pflat_strs {D A : Type} (f : D → list A) (cs : list string) :
  pflat f (VList (VStr <$> cs)) = [].
Proof. simpl. induction cs as [|c cs IH]; [done|]. by rewrite fmap_cons. Qed.

Lemma notice_height n : dict_height (Dict (notice_items n)) = 1.
Proof.
  destruct n as [[] i cs]; unfold notice_items; cbn [n_id_first n_id n_charges];
    cbn [dict_height fmap list_fmap snd]; by rewrite pflat_strs.
Qed.

Lemma notices_height ns : dict_height (Dict (notices_items ns)) ≤ 2.
Proof.
  cbn [dict_height]. apply le_n_S.
  induction ns as [|[k n] ns IH]; [simpl; lia|].
  change (notices_items ((k, n) :: ns))
    with ((k, VDict (notice_items n)) :: notices_items ns).
  rewrite fmap_cons. cbn [max_list snd pflat]. rewrite notice_height.
  apply Nat.max_lub; [done|exact IH].
Qed.

Lemma partial_height p : dict_height (Dict (partial_items p)) ≤ 3.
Proof.
  pose proof (notices_height (p_notices p)) as H.
  destruct p as [[] r ns]; unfold partial_items; cbn [p_risk_first p_risk p_notices] in *;
    set (d := Dict (notices_items ns)) in *;
    cbn [dict_height fmap list_fmap snd pflat max_list]; unfold id; lia.
Qed.

(** Associativity holds on the store as well: starting from one store
    that holds three well-formed responses without a shared object, the
    three ways of merging return dictionaries that hold the same value,
    although the intermediate results share objects with the responses. *)
Lemma store_merge_responses_associative depth (h : Store.heap) tA tB tC :
  let a : Store.hval := VOb (Store.lroot tA) in
  let b : Store.hval := VOb (Store.lroot tB) in
  let c : Store.hval := VOb (Store.lroot tC) in
  3 ≤ depth →
  Forall (Store.stored h) [tA; tB; tC] →
  NoDup (Store.locs tA ++ Store.locs tB ++ Store.locs tC) →
  Forall (fun t => wf_partial (VOb (Store.erase t)) = true) [tA; tB; tC] →
  ∃ M,
    BaseSearch.merge_responses
      [VOb (Store.erase tA); VOb (Store.erase tB); VOb (Store.erase tC)] = Ok M ∧
    (∃ m h1 items,
       Store.merge_responses depth [a; b; c] h = Ok (m, h1) ∧
       Store.stored h1 (Store.LDict m items) ∧
       VOb (Store.erase (Store.LDict m items)) = M) ∧
    (∃ ab h1 m h2 items,
       Store.merge_responses depth [a; b] h = Ok (ab, h1) ∧
       Store.merge_responses depth [VOb ab; c] h1 = Ok (m, h2) ∧
       Store.stored h2 (Store.LDict m items) ∧
       VOb (Store.erase (Store.LDict m items)) = M) ∧
    (∃ bc h1 m h2 items,
       Store.merge_responses depth [b; c] h = Ok (bc, h1) ∧
       Store.merge_responses depth [a; VOb bc] h1 = Ok (m, h2) ∧
       Store.stored h2 (Store.LDict m items) ∧
       VOb (Store.erase (Store.LDict m items)) = M).
Proof.
  intros a b c Hdepth Hst Hnd Hwf.
  apply Forall_cons in Hwf as [(pa & Ha & Hoka)%wf_partial_inv Hwf].
  apply Forall_cons in Hwf as [(pb & Hb & Hokb)%wf_partial_inv Hwf].
  apply Forall_cons in Hwf as [(pc & Hc & Hokc)%wf_partial_inv _].
  injection Ha as Ha. injection Hb as Hb. injection Hc as Hc.
  assert (Forall (fun t => dict_height (Store.erase t) ≤ depth) [tA; tB; tC]) as Hh.
  { repeat constructor; rewrite ?Ha, ?Hb, ?Hc;
      (etrans; [apply partial_height|done]). }
  assert (NoDup (concat (Store.locs <$> [tA; tB; tC]))) as Hnd'.
  { simpl. by rewrite app_nil_r. }
  pose (V := fun q => VDict (partial_items q)).
  exists (V (partial_merge (partial_merge pa pb) pc)).
  rewrite !Ha, !Hb, !Hc.
  split_and!.
  - apply (merge_responses_partials pa [pb; pc]); auto.
  - destruct (store_merge_responses_adequate depth h [tA; tB; tC]
                (V (partial_merge (partial_merge pa pb) pc)))
      as (m & h1 & items & Hrun & _ & Hst1 & Her & _); try done.
    { simpl. rewrite Ha, Hb, Hc. apply (merge_responses_partials pa [pb; pc]); auto. }
    by exists m, h1, items.
  - destruct (store_merge_responses_nested depth h [] [tA; tB] [tC]
                (Dict (partial_items (partial_merge pa pb)))
                (V (partial_merge (partial_merge pa pb) pc)))
      as (ab & h1 & m & h2 & items & Hrun1 & Hrun2 & Hst2 & Her); try done.
    { etrans; [apply partial_height|done]. }
    { simpl. rewrite Ha, Hb. apply (merge_responses_partials pa [pb]); auto. }
    { simpl. rewrite Hc.
      apply (merge_responses_partials (partial_merge pa pb) [pc]);
        auto using partial_merge_ok. }
    by exists ab, h1, m, h2, items.
  - destruct (store_merge_responses_nested depth h [tA] [tB; tC] []
                (Dict (partial_items (partial_merge pb pc)))
                (V (partial_merge (partial_merge pa pb) pc)))
      as (bc & h1 & m & h2 & items & Hrun1 & Hrun2 & Hst2 & Her); try done.
    { etrans; [apply partial_height|done]. }
    { simpl. rewrite Hb, Hc. apply (merge_responses_partials pb [pc]); auto. }
    { simpl. rewrite Ha, partial_merge_assoc by done.
      apply (merge_responses_partials pa [partial_merge pb pc]);
        auto using partial_merge_ok. }
    by exists bc, h1, m, h2, items.
Qed.

(** * Further properties of the code *)

(** ** [validate_response] *)

Lemma forallb_is_str xs : forallb is_str xs = true ↔ ∃ cs, xs = VStr <$> cs.
Proof.
  split.
  - intros H. destruct (is_str_list_inv (VList xs) H) as [cs [= ->]]. by exists cs.
  - intros [cs ->]. induction cs as [|c cs IH]; [done|]. exact IH.
Qed.

Lemma validate_details_cases details :
  validate_details details = Ok () ∨
  validate_details details = Raise InvalidResponseError.
Proof.
  unfold validate_details.
  repeat (match goal with
          | |- context [match ?x with _ => _ end] => destruct x
          end; auto).
Qed.

Lemma validate_details_ok details :
  validate_details details = Ok () ↔
  ∃ i cs, item "id" details = Some (VStr i) ∧
          item "charges" details = Some (VList (VStr <$> cs)).
Proof.
  unfold validate_details. split.
  - destruct details as [| | | |[d]]; try done. cbn [item].
    destruct (dict_get "id" d) as [[| |i| |]|]; try done.
    destruct (dict_get "charges" d) as [[| | |xs|]|]; try done.
    destruct (forallb is_str xs) eqn:Hxs; [|done].
    apply forallb_is_str in Hxs as [cs ->]. by exists i, cs.
  - intros (i & cs & Hi & Hc). destruct details as [| | | |[d]]; try done.
    cbn [item] in Hi, Hc. rewrite Hi, Hc.
    by rewrite (proj2 (forallb_is_str _) (ex_intro _ cs eq_refl)).
Qed.

Lemma validate_notices_cases ns :
  validate_notices ns = Ok () ∨ validate_notices ns = Raise InvalidResponseError.
Proof.
  induction ns as [|[source details] ns IH]; [by left|]. cbn [validate_notices].
  destruct (validate_details_cases details) as [-> | ->]; [exact IH|by right].
Qed.

Lemma validate_notices_ok ns :
  validate_notices ns = Ok () ↔
  ∀ source details, (source, details) ∈ ns → validate_details details = Ok ().
Proof.
  induction ns as [|[source details] ns IH]; cbn [validate_notices].
  - split; [|done]. by intros _ ? ? ?%elem_of_nil.
  - split.
    + intros H s d [[= -> ->]|Hin]%elem_of_cons.
      * by destruct (validate_details details) as [[]|].
      * destruct (validate_details details) as [[]|]; [|done].
        by apply (proj1 IH H s d).
    + intros H. rewrite (H source details) by by left.
      apply IH. intros s d Hin. apply (H s d). by right.
Qed.

Lemma in_risk_levels_elem r :
  BaseSearch.in_risk_levels r = true ↔ r ∈ BaseSearch.RISK_LEVELS.
Proof.
  unfold BaseSearch.in_risk_levels, BaseSearch.RISK_LEVELS. cbn [existsb].
  rewrite !orb_true_iff, !String.eqb_eq, !elem_of_cons, elem_of_nil.
  intuition discriminate.
Qed.

Lemma validate_response_cases data :
  validate_response data = Ok data ∨
  validate_response data = Raise InvalidResponseError.
Proof.
  unfold validate_response.
  destruct data as [| | | |[d]]; auto.
  destruct (dict_get "risk" d) as [[| |r| |]|]; auto;
    destruct (dict_get "notices" d) as [[| | | |[ns]]|]; auto;
    destruct (BaseSearch.in_risk_levels r); auto.
  destruct (validate_notices_cases ns) as [-> | ->]; auto.
Qed.

Lemma validate_response_ok data :
  validate_response data = Ok data ↔
  ∃ r ns,
    item "risk" data = Some (VStr r) ∧ BaseSearch.in_risk_levels r = true ∧
    item "notices" data = Some (VDict ns) ∧ validate_notices ns = Ok ().
Proof.
  unfold validate_response. split.
  - destruct data as [| | | |[d]]; try done. cbn [item].
    destruct (dict_get "risk" d) as [[| |r| |]|]; try done;
      destruct (dict_get "notices" d) as [[| | | |[ns]]|]; try done;
      destruct (BaseSearch.in_risk_levels r) eqn:Hr; try done.
    destruct (validate_notices ns) as [[]|] eqn:Hns; [|done].
    intros _. by exists r, ns.
  - intros (r & ns & Hr & Hlev & Hns & Hok).
    destruct data as [| | | |[d]]; try done. cbn [item] in Hr, Hns.
    by rewrite Hr, Hns, Hlev, Hok.
Qed.

(** X1 — [validate_response] returns its argument unchanged or raises
    [InvalidResponseError], nothing else; it returns exactly when the
    argument is a dictionary whose ["risk"] is one of the four levels and
    whose ["notices"] is a dictionary of notices that each have a string
    ["id"] and a ["charges"] list of strings.  Other keys are allowed. *)
Theorem validate_response_spec (data : value) :
  (validate_response data = Ok data ∨
   validate_response data = Raise InvalidResponseError) ∧
  (validate_response data = Ok data ↔
   ∃ r ns,
     item "risk" data = Some (VStr r) ∧ r ∈ ["Low"; "Medium"; "High"; "Dangerous"] ∧
     item "notices" data = Some (VDict ns) ∧
     ∀ source details, (source, details) ∈ ns →
       ∃ i cs, item "id" details = Some (VStr i) ∧
               item "charges" details = Some (VList (VStr <$> cs))).
Proof.
  split; [apply validate_response_cases|].
  rewrite validate_response_ok. split.
  - intros (r & ns & Hr & Hlev & Hns & Hok). exists r, ns.
    split_and!; [done|by apply in_risk_levels_elem|done|].
    intros s d Hin. apply validate_details_ok.
    by apply (proj1 (validate_notices_ok ns) Hok s d).
  - intros (r & ns & Hr & Hlev & Hns & Hok). exists r, ns.
    split_and!; [done|by apply in_risk_levels_elem|done|].
    apply validate_notices_ok. intros s d Hin. apply validate_details_ok. eauto.
Qed.

Lemma validate_response_spec_witness :
  validate_response sample_interpol = Ok sample_interpol.
Proof.
  apply (proj2 (validate_response_spec sample_interpol)).
  eexists "High", _. split_and!; [reflexivity| |reflexivity|].
  - do 2 right. by left.
  - intros s d [[= -> ->]|[[= -> ->]|[]%elem_of_nil]%elem_of_cons]%elem_of_cons.
    + by exists "9", ["C"; "A"; "C"].
    + by exists "3", ["D"; "A"].
Defined.

(** ** [gen_response] and [validate_response] *)

Lemma wf_notice_items n : wf_notice (VDict (notice_items n)) = true.
Proof.
  destruct n as [[] i cs]; unfold wf_notice, notice_items;
    cbn [length Nat.eqb dict_get n_id_first n_id n_charges andb]; eqb_lit;
    cbn [is_str andb is_str_list]; apply forallb_is_str; by exists cs.
Qed.

Lemma wf_notices_items ns :
  forallb (fun kv => wf_notice kv.2) (notices_items ns) = true.
Proof.
  induction ns as [|[k n] ns IH]; [done|].
  cbn [notices_items fmap list_fmap forallb prod_map fst snd].
  rewrite wf_notice_items. exact IH.
Qed.

Lemma partial_items_wf p : partial_ok p → wf_partial (VDict (partial_items p)) = true.
Proof.
  intros [Hr Hnd].
  destruct p as [[] r ns]; unfold wf_partial, partial_items;
    cbn [length Nat.eqb dict_get p_risk_first p_risk p_notices andb] in *; eqb_lit;
    (apply andb_true_iff; split; [done|]); apply andb_true_iff;
    (split; [|apply wf_notices_items]);
    apply bool_decide_eq_true; by rewrite notices_items_keys.
Qed.

Lemma validate_notices_items ns : validate_notices (notices_items ns) = Ok ().
Proof.
  apply validate_notices_ok. intros source details Hin.
  apply list_elem_of_fmap in Hin as ([k n] & [= -> ->] & _).
  apply validate_details_ok. exists (n_id n), (n_charges n).
  by destruct n as [[] i cs].
Qed.

Lemma wf_partial_validates v : wf_partial v = true → validate_response v = Ok v.
Proof.
  intros (p & -> & Hr & Hnd)%wf_partial_inv. apply validate_response_ok.
  exists (p_risk p), (notices_items (p_notices p)).
  split_and!; [apply risk_of_partial|done|apply notices_of_partial|].
  apply validate_notices_items.
Qed.

(** X2 — [gen_response] checks the risk only: the response it returns
    passes [validate_response] (and is well formed) exactly when the
    charges it was given are a string or a list of strings; with any
    other charges the response is returned all the same and
    [validate_response] rejects it. *)
Theorem gen_response_validates (risk source notice_id : string) (charges v : value) :
  BaseSearch.gen_response risk source notice_id charges = Ok v →
  (validate_response v = Ok v ↔ is_str charges || is_str_list charges = true) ∧
  (validate_response v = Raise InvalidResponseError ↔
   is_str charges || is_str_list charges = false) ∧
  (wf_partial v = true ↔ is_str charges || is_str_list charges = true).
Proof.
  unfold BaseSearch.gen_response.
  destruct (BaseSearch.in_risk_levels risk) eqn:Hr; [|done]. cbn [negb].
  intros [= <-].
  unfold validate_response, wf_partial.
  cbn [dict_get length Nat.eqb andb]. eqb_lit. rewrite Hr.
  cbn [validate_notices validate_details dict_get forallb fmap list_fmap fst snd
       wf_notice length Nat.eqb andb]. eqb_lit.
  assert (bool_decide (NoDup [source]) = true) as ->.
  { apply bool_decide_eq_true, NoDup_singleton. }
  destruct charges as [| |s|xs|d]; cbn [is_str is_str_list orb forallb andb];
    try (split_and!; split; done).
  destruct (forallb is_str xs); cbn [mbind result_bind]; split_and!; split; done.
Qed.

Lemma gen_response_validates_witness :
  validate_response
    (VDict [("risk", VStr "High");
            ("notices", VDict [("europol-most-wanted",
                                VDict [("id", VStr ""); ("charges", VNone)])])]) =
  Raise InvalidResponseError.
Proof.
  apply (gen_response_validates "High" "europol-most-wanted" "" VNone); reflexivity.
Defined.

(** X3 — Merging keeps responses well formed: the merge of a non-empty
    list of well-formed partial results succeeds, is well formed and
    passes [validate_response]. *)
Theorem merge_responses_well_formed (rs : list value) :
  rs ≠ [] → Forall (fun v => wf_partial v = true) rs →
  ∃ m, BaseSearch.merge_responses rs = Ok m ∧
       wf_partial m = true ∧ validate_response m = Ok m.
Proof.
  intros Hne (ps & -> & Hps)%wf_partials_inv.
  destruct ps as [|p ps]; [done|].
  apply Forall_cons in Hps as [Hp Hps].
  assert (wf_partial (VDict (partial_items (foldl partial_merge p ps))) = true) as Hwf.
  { by apply partial_items_wf, foldl_partial_merge_ok. }
  eexists. split_and!; [by apply merge_responses_partials|done|].
  by apply wf_partial_validates.
Qed.

Lemma merge_responses_well_formed_witness :
  ∃ m, BaseSearch.merge_responses [sample_fbi; sample_interpol; sample_fbi_terror] = Ok m ∧
       wf_partial m = true ∧ validate_response m = Ok m.
Proof.
  apply (merge_responses_well_formed [sample_fbi; sample_interpol; sample_fbi_terror]).
  - discriminate.
  - repeat constructor.
Defined.

(** ** [merge_responses]: single responses, errors *)

(** Merging a dictionary whose keys are all new appends its items. *)
Lemma merge_recursive_disjoint d1 items :
  NoDup (items.*1) → (∀ k, k ∈ items.*1 → k ∉ d1.*1) →
  BaseSearch.merge_recursive d1 (Dict items) = Ok (d1 ++ items).
Proof.
  revert d1. induction items as [|[key new] items IH]; intros d1 Hnd Hdis.
  - by rewrite merge_recursive_nil, app_nil_r.
  - rewrite merge_recursive_cons. unfold BaseSearch.merge_item.
    apply NoDup_cons in Hnd as [Hkey Hnd]. cbn [fmap list_fmap fst] in Hdis.
    assert (key ∉ d1.*1) as Hnew by (apply Hdis; by left).
    rewrite (proj2 (dict_get_None key d1) Hnew).
    cbn [mbind result_bind]. rewrite dict_set_keys_notin by done.
    rewrite IH; [by rewrite <- app_assoc|done|].
    intros k Hk. rewrite fmap_app, elem_of_app. intros [Hin|Hin].
    + apply (Hdis k); [by right|done].
    + apply list_elem_of_singleton in Hin as ->. done.
Qed.

Lemma merge_responses_single items :
  NoDup (items.*1) → BaseSearch.merge_responses [VDict items] = Ok (VDict items).
Proof.
  intros Hnd. unfold BaseSearch.merge_responses. cbn [BaseSearch.merge_all].
  rewrite merge_recursive_disjoint; [done|done|].
  intros k _ []%elem_of_nil.
Qed.

Lemma store_merge_loop_copy recurse (h : Store.heap) m a items todo :
  h !! a = Some items → m ≠ a → NoDup (items.*1) → todo ≤ length items →
  Store.merge_loop recurse m a (length items) todo
    (<[m := take (length items - todo) items]> h) =
  Ok (<[m := items]> h).
Proof.
  intros Ha Hne Hnd. induction todo as [|todo IH]; intros Hle.
  - cbn [Store.merge_loop]. unfold Store.read.
    rewrite lookup_insert_ne, Ha by done. cbn [mbind result_bind].
    rewrite Nat.eqb_refl. cbn [negb]. by rewrite Nat.sub_0_r, firstn_all.
  - cbn [Store.merge_loop]. unfold Store.read at 1.
    rewrite lookup_insert_ne, Ha by done. cbn [mbind result_bind].
    rewrite Nat.eqb_refl. cbn [negb].
    destruct (lookup_lt_is_Some_2 items (length items - S todo)) as [[key new] Hkv];
      [lia|].
    rewrite Hkv. unfold Store.merge_item, Store.read.
    rewrite lookup_insert_eq. cbn [mbind result_bind].
    assert (key ∉ (take (length items - S todo) items).*1) as Hnew.
    { intros Hin. apply list_elem_of_fmap in Hin as ([k v] & Hk & Hin).
      cbn in Hk. subst k.
      apply list_elem_of_lookup in Hin as [i Hi].
      apply lookup_take_Some in Hi as [Hi Hlt].
      assert (items.*1 !! i = Some key) as H1 by by rewrite list_lookup_fmap, Hi.
      assert (items.*1 !! (length items - S todo) = Some key) as H2
        by by rewrite list_lookup_fmap, Hkv.
      pose proof (NoDup_lookup _ _ _ _ Hnd H1 H2). lia. }
    rewrite (proj2 (dict_get_None key _) Hnew).
    cbn [mbind result_bind]. rewrite dict_set_keys_notin by done.
    rewrite insert_insert_eq, <- (take_S_r _ _ _ Hkv).
    replace (S (length items - S todo)) with (length items - todo) by lia.
    apply IH. lia.
Qed.

(** X4 — [merge_responses] of a single response returns a new
    dictionary object with the items of the response: the values are the
    same, so the nested dictionaries are the very objects of the input,
    and the input object is not touched. *)
Theorem store_merge_responses_single depth a items (h : Store.heap) :
  h !! a = Some items → NoDup (items.*1) →
  h !! fresh (dom h) = None ∧
  Store.merge_responses (S depth) [VOb a] h =
  Ok (fresh (dom h), <[fresh (dom h) := items]> h).
Proof.
  intros Ha Hnd.
  set (m := fresh (dom h)).
  assert (h !! m = None) as Hfresh by (apply not_elem_of_dom, is_fresh).
  split; [done|].
  assert (m ≠ a) as Hne by congruence.
  unfold Store.merge_responses. fold m.
  cbn [Store.merge_all Store.merge_recursive]. unfold Store.read at 1.
  rewrite lookup_insert_ne, Ha by done. cbn [mbind result_bind].
  pose proof (store_merge_loop_copy (Store.merge_recursive depth) h m a items
                (length items) Ha Hne Hnd (le_n _)) as Hloop.
  rewrite Nat.sub_diag, take_0 in Hloop. rewrite Hloop. done.
Qed.

Lemma store_merge_responses_single_witness :
  Store.sample_heap !! fresh (dom Store.sample_heap) = None ∧
  Store.merge_responses 1 [VOb 0] Store.sample_heap =
  Ok (fresh (dom Store.sample_heap),
      <[fresh (dom Store.sample_heap) := [("risk", VStr "Low"); ("notices", VOb 1)]]>
        Store.sample_heap).
Proof.
  apply (store_merge_responses_single 0 0).
  - reflexivity.
  - apply (bool_decide_unpack _). by vm_compute.
Defined.

(** ** [_preserve_order_dedup] on arbitrary items *)

Section dedup_any.
Context {D : Type}.
Implicit Types (x : pyval D) (items seen acc : list (pyval D)).

Lemma hash_eqb_eq x y : hashable x = true → hash_eqb x y = true ↔ x = y.
Proof.
  destruct x as [|a|s| |], y as [|b|t| |]; try done; simpl; intros _.
  - rewrite Z.eqb_eq. split; congruence.
  - rewrite String.eqb_eq. split; congruence.
Qed.

Lemma existsb_hash_eqb x seen :
  hashable x = true → existsb (hash_eqb x) seen = true ↔ x ∈ seen.
Proof.
  intros Hx. rewrite existsb_exists. split.
  - intros (y & Hy%list_elem_of_In & ->%hash_eqb_eq); done.
  - intros Hin. exists x. split; [by apply list_elem_of_In|by apply hash_eqb_eq].
Qed.

Lemma dedup_loop_unseen items seen acc :
  Forall (fun x => hashable x = true) items →
  BaseSearch.dedup_loop items seen acc = Ok (acc ++ unseen items seen).
Proof.
  intros Hh. revert seen acc.
  induction Hh as [|x items Hx _ IH]; intros seen acc; simpl.
  - by rewrite app_nil_r.
  - rewrite Hx. destruct (existsb (hash_eqb x) seen); [apply IH|].
    rewrite IH. by rewrite <- app_assoc.
Qed.

Lemma dedup_loop_unhashable items seen acc :
  Exists (fun x => hashable x = false) items →
  BaseSearch.dedup_loop items seen acc = Raise TypeError.
Proof.
  intros Hex. revert seen acc.
  induction Hex as [x items Hx|x items _ IH]; intros seen acc; simpl.
  - by rewrite Hx.
  - destruct (hashable x); [|done]. by destruct (existsb _ _).
Qed.

Lemma elem_of_unseen x items seen :
  Forall (fun y => hashable y = true) items →
  x ∈ unseen items seen ↔ x ∈ items ∧ x ∉ seen.
Proof.
  intros Hh. revert seen.
  induction Hh as [|y items Hy _ IH]; intros seen; simpl.
  - rewrite elem_of_nil. tauto.
  - destruct (existsb (hash_eqb y) seen) eqn:Hseen.
    + apply existsb_hash_eqb in Hseen; [|done].
      rewrite IH, elem_of_cons. split; [tauto|].
      intros [[->|Hin] Hout]; [done|tauto].
    + assert (y ∉ seen) as Hout.
      { intros Hin%existsb_hash_eqb; [congruence|done]. }
      rewrite !elem_of_cons, IH, not_elem_of_cons. split.
      * intros [->|[Hin [_ Hx]]]; [by split; [left|]|by split; [right|]].
      * intros [[->|Hin] Hx]; [by left|].
        destruct (hash_eqb y x) eqn:Heq.
        -- apply hash_eqb_eq in Heq as ->; [by left|done].
        -- right. split_and!; [done| |done]. intros ->.
           assert (hash_eqb y y = true) by by apply hash_eqb_eq.
           congruence.
Qed.

Lemma unseen_NoDup items seen :
  Forall (fun y => hashable y = true) items → NoDup (unseen items seen).
Proof.
  intros Hh. revert seen.
  induction Hh as [|y items Hy Hh IH]; intros seen; simpl; [constructor|].
  destruct (existsb (hash_eqb y) seen); [apply IH|].
  constructor; [|apply IH].
  rewrite elem_of_unseen by done. intros [_ Hout]. apply Hout. by left.
Qed.

Lemma unseen_sublist items seen : unseen items seen `sublist_of` items.
Proof.
  revert seen. induction items as [|y items IH]; intros seen; simpl; [done|].
  destruct (existsb (hash_eqb y) seen).
  - by apply sublist_cons.
  - by apply sublist_skip.
Qed.

Lemma unseen_id items seen :
  Forall (fun y => hashable y = true) items → NoDup items →
  (∀ x, x ∈ items → x ∉ seen) → unseen items seen = items.
Proof.
  intros Hh. revert seen.
  induction Hh as [|y items Hy Hh IH]; intros seen Hnd Hdis; simpl; [done|].
  apply NoDup_cons in Hnd as [Hy' Hnd].
  destruct (existsb (hash_eqb y) seen) eqn:Hseen.
  - apply existsb_hash_eqb in Hseen; [|done]. destruct (Hdis y); [by left|done].
  - f_equal. apply IH; [done|]. intros x Hx. rewrite not_elem_of_cons. split.
    + by intros ->.
    + apply Hdis. by right.
Qed.

(** X5 — [_preserve_order_dedup] on any items: when every item is
    hashable it returns the items without repetition, in their order,
    starting with the first item, and applying it again changes nothing;
    when some item is a list or a dictionary it raises [TypeError]. *)
Theorem preserve_order_dedup_spec items :
  (Forall (fun x => hashable x = true) items →
   ∃ r, BaseSearch._preserve_order_dedup items = Ok r ∧
        NoDup r ∧ (∀ x, x ∈ r ↔ x ∈ items) ∧ r `sublist_of` items ∧
        head r = head items ∧
        BaseSearch._preserve_order_dedup r = Ok r) ∧
  (Exists (fun x => hashable x = false) items →
   BaseSearch._preserve_order_dedup items = Raise TypeError).
Proof.
  unfold BaseSearch._preserve_order_dedup. split.
  - intros Hh. exists (unseen items []).
    assert (Forall (fun x => hashable x = true) (unseen items [])) as Hh'.
    { apply Forall_forall. intros x [Hx _]%elem_of_unseen; [|done].
      rewrite Forall_forall in Hh. by apply Hh. }
    split_and!.
    + by rewrite dedup_loop_unseen.
    + by apply unseen_NoDup.
    + intros x. rewrite elem_of_unseen by done. rewrite elem_of_nil. tauto.
    + apply unseen_sublist.
    + by destruct items.
    + rewrite dedup_loop_unseen by done. cbn [app]. f_equal.
      apply unseen_id; [done|by apply unseen_NoDup|].
      intros x _. apply not_elem_of_nil.
  - apply dedup_loop_unhashable.
Qed.
End dedup_any.

Lemma preserve_order_dedup_spec_witness :
  BaseSearch._preserve_order_dedup
    [VStr "A"; VList [VStr "B"]; VStr "A" : value] = Raise TypeError.
Proof.
  apply (proj2 (preserve_order_dedup_spec _)).
  apply Exists_cons_tl, Exists_cons_hd. reflexivity.
Defined.

(** ** Errors of [merge_responses] *)

Lemma merge_all_app merged l1 l2 :
  BaseSearch.merge_all merged (l1 ++ l2) =
  BaseSearch.merge_all merged l1 ≫= fun merged' => BaseSearch.merge_all merged' l2.
Proof.
  revert merged. induction l1 as [|v l1 IH]; intros merged; [done|].
  destruct v as [| | | |d]; try done. cbn [app BaseSearch.merge_all].
  destruct (BaseSearch.merge_recursive merged d) as [merged'|]; [|done].
  cbn [mbind result_bind]. apply IH.
Qed.

(** X6 — A response that is not a dictionary makes [merge_responses]
    raise [AttributeError], once the responses before it have been
    merged. *)
Theorem merge_responses_not_a_dict (pre post : list value) (v merged : value) :
  BaseSearch.merge_responses pre = Ok merged → (∀ d, v ≠ VOb d) →
  BaseSearch.merge_responses (pre ++ v :: post) = Raise AttributeError.
Proof.
  unfold BaseSearch.merge_responses. intros Hpre Hv.
  rewrite merge_all_app.
  destruct (BaseSearch.merge_all [] pre) as [m|]; [|done].
  cbn [mbind result_bind BaseSearch.merge_all].
  destruct v as [| | | |d]; try done. by destruct (Hv d).
Qed.

Lemma merge_responses_not_a_dict_witness :
  BaseSearch.merge_responses ([sample_fbi] ++ VNone :: [sample_interpol]) =
  Raise AttributeError.
Proof.
  apply (merge_responses_not_a_dict [sample_fbi] [sample_interpol] VNone sample_fbi).
  - reflexivity.
  - discriminate.
Defined.

Lemma risk_index_invalid r :
  BaseSearch.in_risk_levels r = false →
  BaseSearch.risk_index (VStr r : value) = Raise ValueError.
Proof.
  unfold BaseSearch.in_risk_levels, BaseSearch.risk_index.
  simpl. rewrite !(String.eqb_sym r).
  repeat (destruct (String.eqb _ r); [done|]). done.
Qed.

(** X7 — [merge_responses] looks at a risk only when two responses
    meet: a single response is returned as it is whatever its risk, and
    merging it with a response that starts with a risk raises
    [ValueError] as soon as one of the two risks is not one of the four
    levels. *)
Theorem merge_responses_invalid_risk (a b : list (string * value)) (ra rb : string) :
  NoDup (a.*1) → dict_get "risk" a = Some (VStr ra) →
  BaseSearch.in_risk_levels ra && BaseSearch.in_risk_levels rb = false →
  BaseSearch.merge_responses [VDict a] = Ok (VDict a) ∧
  BaseSearch.merge_responses [VDict a; VDict (("risk", VStr rb) :: b)] =
  Raise ValueError.
Proof.
  intros Hnd Hra Hbad. split; [by apply merge_responses_single|].
  unfold BaseSearch.merge_responses. cbn [BaseSearch.merge_all].
  rewrite merge_recursive_disjoint; [|done|]; cycle 1.
  { intros k _ []%elem_of_nil. }
  cbn [mbind result_bind app]. rewrite merge_recursive_cons.
  unfold BaseSearch.merge_item. rewrite Hra.
  cbn [BaseSearch.merge_leaf]. eqb_lit. unfold BaseSearch.max_risk.
  destruct (BaseSearch.in_risk_levels ra) eqn:Ha.
  - cbn [andb] in Hbad. rewrite (risk_index_valid ra) by done.
    cbn [mbind result_bind]. by rewrite (risk_index_invalid rb).
  - by rewrite (risk_index_invalid ra).
Qed.

Lemma merge_responses_invalid_risk_witness :
  BaseSearch.merge_responses
    [VDict [("risk", VStr "low"); ("notices", VDict [])]] =
  Ok (VDict [("risk", VStr "low"); ("notices", VDict [])]) ∧
  BaseSearch.merge_responses
    [VDict [("risk", VStr "low"); ("notices", VDict [])];
     VDict [("risk", VStr "High"); ("notices", VDict [])]] =
  Raise ValueError.
Proof.
  apply (merge_responses_invalid_risk
           [("risk", VStr "low"); ("notices", VDict [])] [("notices", VDict [])]
           "low" "High").
  - apply (bool_decide_unpack _). by vm_compute.
  - reflexivity.
  - reflexivity.
Defined.

(** ** Notices of a merge *)

Lemma notice_of_partial source p :
  notice_of source (VDict (partial_items p)) =
  (fun n => VDict (notice_items n)) <$> dict_get source (p_notices p).
Proof.
  unfold notice_of. rewrite notices_of_partial.
  cbn [mbind option_bind item]. apply dict_get_notices.
Qed.

Lemma id_of_partial source p :
  id_of source (VDict (partial_items p)) =
  (fun n => VStr (n_id n)) <$> dict_get source (p_notices p).
Proof.
  unfold id_of. rewrite notice_of_partial.
  destruct (dict_get source (p_notices p)) as [[[] i cs]|]; done.
Qed.

Lemma sources_of_partial p : sources_of (VDict (partial_items p)) = (p_notices p).*1.
Proof.
  unfold sources_of. rewrite notices_of_partial. apply notices_items_keys.
Qed.

(** X8 — The notices of the merge of two well-formed responses: the
    sources are those of the first response followed by the new ones of
    the second; a notice only one response has is taken as it is; for a
    source both have, the id of the second response is kept. *)
Theorem merge_responses_notices (A B : value) (source : string) :
  wf_partial A = true → wf_partial B = true →
  ∃ m, BaseSearch.merge_responses [A; B] = Ok m ∧
       sources_of m =
         sources_of A ++ filter (fun s => s ∉ sources_of A) (sources_of B) ∧
       (notice_of source B = None → notice_of source m = notice_of source A) ∧
       (notice_of source A = None → notice_of source m = notice_of source B) ∧
       (is_Some (notice_of source B) → id_of source m = id_of source B).
Proof.
  intros (a & -> & Ha)%wf_partial_inv (b & -> & Hb)%wf_partial_inv.
  exists (VDict (partial_items (partial_merge a b))). split_and!.
  - apply (merge_responses_partials a [b]); auto.
  - rewrite !sources_of_partial. cbn [partial_merge p_notices].
    apply dict_merge_keys, Hb.
  - rewrite !notice_of_partial. cbn [partial_merge p_notices].
    rewrite dict_merge_get by apply Hb.
    destruct (dict_get source (p_notices b)); [done|].
    by destruct (dict_get source (p_notices a)).
  - rewrite !notice_of_partial. cbn [partial_merge p_notices].
    rewrite dict_merge_get by apply Hb.
    by destruct (dict_get source (p_notices a)).
  - rewrite notice_of_partial, !id_of_partial. cbn [partial_merge p_notices].
    rewrite dict_merge_get by apply Hb.
    destruct (dict_get source (p_notices b)); [|by intros [? [=]]].
    by destruct (dict_get source (p_notices a)).
Qed.

Lemma merge_responses_notices_witness :
  ∃ m, BaseSearch.merge_responses [sample_fbi; sample_interpol] = Ok m ∧
       sources_of m =
         sources_of sample_fbi ++
         filter (fun s => s ∉ sources_of sample_fbi) (sources_of sample_interpol) ∧
       (notice_of "fbi-most-wanted" sample_interpol = None →
        notice_of "fbi-most-wanted" m = notice_of "fbi-most-wanted" sample_fbi) ∧
       (notice_of "fbi-most-wanted" sample_fbi = None →
        notice_of "fbi-most-wanted" m = notice_of "fbi-most-wanted" sample_interpol) ∧
       (is_Some (notice_of "fbi-most-wanted" sample_interpol) →
        id_of "fbi-most-wanted" m = id_of "fbi-most-wanted" sample_interpol).
Proof.
  apply (merge_responses_notices sample_fbi sample_interpol "fbi-most-wanted");
    reflexivity.
Defined.

Lemma severity_inj r1 r2 :
  BaseSearch.in_risk_levels r1 = true → BaseSearch.in_risk_levels r2 = true →
  severity r1 = severity r2 → r1 = r2.
Proof.
  rewrite !in_risk_levels_elem. unfold BaseSearch.RISK_LEVELS.
  rewrite !elem_of_cons, !elem_of_nil.
  intros [->|[->|[->|[->|[]]]]] [->|[->|[->|[->|[]]]]]; vm_compute; congruence.
Qed.

Lemma risk_max_comm r1 r2 :
  BaseSearch.in_risk_levels r1 = true → BaseSearch.in_risk_levels r2 = true →
  risk_max r1 r2 = risk_max r2 r1.
Proof.
  intros H1 H2. unfold risk_max.
  destruct (Nat.ltb_spec (severity r1) (severity r2)),
    (Nat.ltb_spec (severity r2) (severity r1)); try done; try lia.
  apply severity_inj; [done..|lia].
Qed.

Lemma first_occurrences_comm (a b : list string) :
  first_occurrences (a ++ b) ≡ₚ first_occurrences (b ++ a).
Proof.
  apply NoDup_Permutation; [apply first_occurrences_NoDup..|].
  intros x. rewrite !first_occurrences_elem, !elem_of_app. tauto.
Qed.

(** X9 — Swapping two well-formed responses changes the merge by order
    only: the risk is the same, the sources are the same up to order, and
    for each source the charges are the same up to order. *)
Theorem merge_responses_order (A B : value) :
  wf_partial A = true → wf_partial B = true →
  ∃ m m',
    BaseSearch.merge_responses [A; B] = Ok m ∧
    BaseSearch.merge_responses [B; A] = Ok m' ∧
    risk_of m = risk_of m' ∧
    sources_of m ≡ₚ sources_of m' ∧
    ∀ source,
      match charges_of source m, charges_of source m' with
      | Some (VList c), Some (VList c') => c ≡ₚ c'
      | None, None => True
      | _, _ => False
      end.
Proof.
  intros (a & -> & Ha)%wf_partial_inv (b & -> & Hb)%wf_partial_inv.
  exists (VDict (partial_items (partial_merge a b))),
         (VDict (partial_items (partial_merge b a))).
  destruct Ha as [Hra Hna], Hb as [Hrb Hnb]. split_and!.
  - apply (merge_responses_partials a [b]); by repeat constructor.
  - apply (merge_responses_partials b [a]); by repeat constructor.
  - rewrite !risk_of_partial. cbn [partial_merge p_risk].
    by rewrite risk_max_comm.
  - rewrite !sources_of_partial. cbn [partial_merge p_notices].
    apply NoDup_Permutation; [by apply dict_merge_NoDup..|].
    intros s. rewrite !dict_merge_keys by done.
    rewrite !elem_of_app, !list_elem_of_filter.
    destruct (decide (s ∈ (p_notices a).*1)), (decide (s ∈ (p_notices b).*1)); tauto.
  - intros source. rewrite !charges_of_partial. cbn [partial_merge p_notices].
    rewrite !dict_merge_get by done.
    destruct (dict_get source (p_notices a)) as [n1|],
      (dict_get source (p_notices b)) as [n2|]; cbn; try done.
    apply fmap_Permutation, first_occurrences_comm.
Qed.

Lemma merge_responses_order_witness :
  ∃ m m',
    BaseSearch.merge_responses [sample_fbi_terror; sample_interpol] = Ok m ∧
    BaseSearch.merge_responses [sample_interpol; sample_fbi_terror] = Ok m' ∧
    risk_of m = risk_of m' ∧
    sources_of m ≡ₚ sources_of m' ∧
    ∀ source,
      match charges_of source m, charges_of source m' with
      | Some (VList c), Some (VList c') => c ≡ₚ c'
      | None, None => True
      | _, _ => False
      end.
Proof.
  apply (merge_responses_order sample_fbi_terror sample_interpol); reflexivity.
Defined.

(** ** The registry of running searches *)

Section registry.
Import CrimeScrape.
Context {L : Library}.
Implicit Types (w : world).

Lemma list_remove_absent x l :
  existsb (String.eqb x) l = false → list_remove x l = Raise ValueError.
Proof.
  induction l as [|y l IH]; simpl; [done|].
  rewrite (String.eqb_sym y x). destruct (String.eqb x y); [done|].
  simpl. intros H. by rewrite IH.
Qed.

Lemma list_remove_first x l :
  existsb (String.eqb x) l = true →
  ∃ l1 l2, l = l1 ++ x :: l2 ∧ (x ∉ l1) ∧ list_remove x l = Ok (l1 ++ l2).
Proof.
  induction l as [|y l IH]; simpl; [done|].
  rewrite (String.eqb_sym y x). destruct (String.eqb_spec x y) as [<-|Hne].
  - intros _. exists [], l. split_and!; [done|apply not_elem_of_nil|done].
  - simpl. intros (l1 & l2 & -> & Hout & Hrem)%IH.
    exists (y :: l1), l2. split_and!; [done| |by rewrite Hrem].
    rewrite not_elem_of_cons. done.
Qed.

Lemma existsb_eqb_elem x (l : list string) :
  existsb (String.eqb x) l = true ↔ x ∈ l.
Proof.
  rewrite existsb_exists. split.
  - intros (y & Hy%list_elem_of_In & ->%String.eqb_eq). done.
  - intros Hin. exists x. split; [by apply list_elem_of_In|apply String.eqb_refl].
Qed.

(** X10 — The list of running searches: an added item is running and
    the others are as before; removing an item that is not running raises
    [ValueError]; removing a running item drops its first occurrence and
    nothing else, and leaves the cache alone; an item added twice is
    still running after one removal. *)
Theorem running_searches_registry (x : string) w :
  is_running x (add_running x w) = true ∧
  (∀ y, y ≠ x → is_running y (add_running x w) = is_running y w) ∧
  (is_running x w = false → remove_running x w = Raise ValueError) ∧
  (is_running x w = true →
   ∃ w' l1 l2,
     remove_running x w = Ok w' ∧
     CURRENTLY_RUNNING w = l1 ++ x :: l2 ∧ (x ∉ l1) ∧
     CURRENTLY_RUNNING w' = l1 ++ l2 ∧
     cache_dir w' = cache_dir w ∧ cache_files w' = cache_files w) ∧
  (is_running x w = true →
   ∃ w', remove_running x (add_running x w) = Ok w' ∧ is_running x w' = true).
Proof.
  unfold is_running, add_running, remove_running.
  cbn [set_running CURRENTLY_RUNNING]. split_and!.
  - rewrite existsb_app. simpl. by rewrite String.eqb_refl, orb_true_r.
  - intros y Hne. rewrite existsb_app. simpl.
    destruct (String.eqb_spec y x); [done|]. by rewrite !orb_false_r.
  - intros H. by rewrite list_remove_absent.
  - intros (l1 & l2 & Hl & Hout & Hrem)%list_remove_first.
    rewrite Hrem. by eexists _, l1, l2.
  - intros Hx.
    assert (existsb (String.eqb x) (CURRENTLY_RUNNING w ++ [x]) = true) as Hin.
    { by rewrite existsb_app, Hx. }
    apply list_remove_first in Hin as (l1 & l2 & Hl & Hout & Hrem).
    rewrite Hrem. eexists. split; [done|]. cbn [CURRENTLY_RUNNING fmap result_fmap].
    apply existsb_eqb_elem. apply existsb_eqb_elem in Hx.
    destruct l2 as [|z l2 _] using rev_ind.
    + rewrite app_nil_r. cbn [set_running CURRENTLY_RUNNING].
      apply (inj (.++ [x])) in Hl. rewrite Hl in Hx. done.
    + change (l1 ++ x :: l2 ++ [z]) with (l1 ++ (x :: l2) ++ [z]) in Hl.
      rewrite app_assoc in Hl. apply app_inj_tail in Hl as [_ <-].
      cbn [set_running CURRENTLY_RUNNING].
      rewrite !elem_of_app. do 2 right. by left.
Qed.
End registry.

Lemma running_searches_registry_witness :
  CrimeScrape.remove_running "nameJohnDoe" (sample_world VNone) = Raise ValueError.
Proof.
  apply (running_searches_registry "nameJohnDoe" (sample_world VNone)).
  reflexivity.
Defined.

(** ** [perform_search] and the cache *)

Section cache_more.
Import CrimeScrape.
Context {L : Library}.
Implicit Types (w : world) (now : Q).

(** Once the file is removed there is nothing to read. *)
Lemma load_cache_deleted filename now w :
  (load_cache filename now
     (set_cache_files (delete filename (cache_files w)) w)).1 = VNone.
Proof.
  unfold load_cache, read_entry. cbn [set_cache_files cache_dir cache_files].
  destruct (cache_dir w); try done. by rewrite lookup_delete_eq.
Qed.

(** An entry that is never served is never served after a load either,
    whether the load removed it or not. *)
Lemma load_cache_miss_stays filename now w :
  (∀ now', py_truthy (load_cache filename now' w).1 = false) →
  ∀ now', py_truthy (load_cache filename now' (load_cache filename now w).2).1 = false.
Proof.
  intros Hmiss now'.
  destruct (load_cache_cases filename now w) as [(t & _ & ->)|[_ [-> | ->]]];
    [done..|].
  by rewrite load_cache_deleted.
Qed.

(** An entry that is not served is not served later either: a stale
    entry that could not be removed is still stale.  Where files can be
    removed this holds for any time of the second load. *)
Lemma load_cache_miss_later filename now now' w :
  py_truthy (load_cache filename now w).1 = false →
  (now <= now')%Q ∨ remove_ok w = true →
  py_truthy (load_cache filename now' (load_cache filename now w).2).1 = false.
Proof.
  unfold load_cache at 1 3, os_remove.
  destruct (read_entry filename w) as [[t d]|] eqn:Hentry.
  - destruct (_ <? _)%Z eqn:Hstale.
    + destruct (remove_ok w) eqn:Hrm; cbn [fst snd]; intros _ Hlater.
      * by rewrite load_cache_deleted.
      * destruct Hlater as [Hlater|]; [|done].
        rewrite (load_cache_stale filename now' w t d); [done|done|].
        apply days_since_stale in Hstale. lra.
    + cbn [fst snd]. intros Hd _. unfold load_cache, os_remove. rewrite Hentry.
      destruct (CACHE_MAX_DAYS <? days_since now' t)%Z;
        [by destruct (remove_ok w)|exact Hd].
  - intros _ _. cbn [snd]. unfold load_cache. by rewrite Hentry.
Qed.

Lemma load_cache_empty_entry filename now w timestamp :
  read_entry filename w = Ok (timestamp, VList []) →
  py_truthy (load_cache filename now w).1 = false.
Proof.
  intros H. unfold load_cache, os_remove. rewrite H.
  destruct (_ <? _)%Z; [by destruct (remove_ok w)|done].
Qed.

Lemma store_cache_ok filename data now w b w' :
  store_cache filename data now w = (Ok b, w') →
  cache_dir w' = DirPresent ∧ b = write_ok w ∧
  CURRENTLY_RUNNING w' = CURRENTLY_RUNNING w.
Proof.
  unfold store_cache, makedirs.
  destruct (cache_dir w) eqn:Hdir; try done;
    cbn [set_cache_dir set_cache_files write_ok];
    destruct (write_ok w); intros [= <- <-]; done.
Qed.

Lemma store_cache_raises filename data now w e w' :
  store_cache filename data now w = (Raise e, w') →
  e = OSError ∧ w' = w ∧ cache_dir w = DirBlocked.
Proof.
  unfold store_cache, makedirs.
  destruct (cache_dir w); try done;
    cbn [set_cache_dir set_cache_files write_ok]; try by destruct (write_ok w).
  by intros [= <- <-].
Qed.

(** What a [store_cache] that could not write leaves in the cache. *)
Lemma store_cache_unwritten filename data now now' w w' :
  store_cache filename data now w = (Ok false, w') →
  py_truthy (load_cache filename now' w).1 = false →
  py_truthy (load_cache filename now' w').1 = false.
Proof.
  unfold store_cache, makedirs.
  destruct (cache_dir w) eqn:Hdir; try done;
    cbn [set_cache_dir set_cache_files write_ok];
    destruct (write_ok w); intros [= <-]; done.
Qed.

End cache_more.


Section perform_search_twice.
Import CrimeScrape.
Context {L : Library} {Src Method : Type}.
Implicit Types (w : world) (now : Q).
Implicit Types (behaviour : Z → Z → Method → Src → unit_outcome).
Implicit Types (set_order : list (Src * Method) → list (Src * Method)).

Lemma perform_search_hit behaviour set_order cfg query cache_type sources
    search_methods t_load t_store spins w timestamp data :
  USE_CACHE cfg = true →
  is_running (fingerprint query cache_type) w = false →
  read_entry (fingerprint query cache_type) w = Ok (timestamp, data) →
  (t_load - inject_Z timestamp < inject_Z 518400)%Q →
  py_truthy data = true →
  perform_search behaviour set_order cfg query cache_type sources
    search_methods t_load t_store spins w =
  Return (Jsonify (gen_results "cached" data)) w.
Proof.
  intros Hcache Hfree Hentry Hage Hdata.
  rewrite perform_search_idle by done. cbv zeta. rewrite Hcache.
  rewrite (load_cache_fresh _ _ _ _ _ Hentry Hage). cbn [fst snd andb].
  by rewrite Hdata.
Qed.

(** What a search that went through the cache and returned fresh
    results leaves behind. *)
Lemma perform_search_fresh_inv behaviour set_order cfg query cache_type sources
    search_methods t_load t_store spins w r w' results :
  USE_CACHE cfg = true →
  perform_search behaviour set_order cfg query cache_type sources
    search_methods t_load t_store spins w = Return r w' →
  item "data" (response_body r) = Some (VList results) →
  (item "status" (response_body r) = Some (VStr "fresh") ∨ results = []) →
  is_running (fingerprint query cache_type) w = false ∧
  py_truthy (load_cache (fingerprint query cache_type) t_load w).1 = false ∧
  item "status" (response_body r) = Some (VStr "fresh") ∧
  ∃ b, store_cache (fingerprint query cache_type) (VList results) t_store
         (load_cache (fingerprint query cache_type) t_load w).2 = (Ok b, w').
Proof.
  intros Hcache Hrun Hdata Hfresh.
  assert (is_running (fingerprint query cache_type) w = false) as Hfree.
  { apply (perform_search_was_idle behaviour set_order cfg query cache_type sources
             search_methods t_load t_store spins). by rewrite Hrun. }
  split; [done|].
  rewrite perform_search_idle in Hrun by done. cbv zeta in Hrun.
  rewrite Hcache in Hrun. cbn [andb] in Hrun.
  destruct (load_cache (fingerprint query cache_type) t_load w) as [cache w1].
  cbn [fst snd] in *.
  destruct (py_truthy cache) eqn:Hhit.
  - injection Hrun as <- <-. rewrite gen_results_cached in Hdata, Hfresh.
    cbn in Hdata, Hfresh. injection Hdata as ->.
    destruct Hfresh as [[=]| ->]. done.
  - split; [done|].
    destruct (execute_search _ _ _ _ _ _ _) as [found|e|b|]; try done.
    destruct (store_cache _ _ t_store w1) as [[b|e] w2] eqn:Hstore;
      cbn [fst snd] in Hrun; [|done].
    injection Hrun as <- <-.
    rewrite gen_results_fresh in Hdata |- *.
    assert (item "data" (VDict [("status", VStr "fresh"); ("data", VList found)]) =
            Some (VList results)) as Hd by by destruct (STANDALONE cfg).
    cbn in Hd. injection Hd as <-.
    split; [by destruct (STANDALONE cfg)|]. by exists b.
Qed.

(** A search that returned fresh, non-empty results with the cache on
    and writable has stored them under its fingerprint. *)
Lemma perform_search_stored behaviour set_order cfg query cache_type sources
    search_methods t_load t_store spins w r w' results :
  json_round_trip L → USE_CACHE cfg = true → write_ok w = true →
  perform_search behaviour set_order cfg query cache_type sources
    search_methods t_load t_store spins w = Return r w' →
  item "status" (response_body r) = Some (VStr "fresh") →
  item "data" (response_body r) = Some (VList results) →
  is_running (fingerprint query cache_type) w' = false ∧
  read_entry (fingerprint query cache_type) w' = Ok (py_int t_store, VList results).
Proof.
  intros Hrt Hcache Hwrite Hrun Hstatus Hdata.
  destruct (perform_search_fresh_inv _ _ _ _ _ _ _ _ _ _ _ _ _ _ Hcache Hrun Hdata
              (or_introl Hstatus)) as (Hfree & Hmiss & _ & b & Hstore).
  destruct (store_cache_ok _ _ _ _ _ _ Hstore) as (Hdir & Hb & Hrunning).
  rewrite load_cache_write_ok, Hwrite in Hb. subst b. split.
  - unfold is_running in *. by rewrite Hrunning, load_cache_running.
  - by apply (read_entry_stored _ _ _ _ _ Hrt Hstore).
Qed.

Lemma stored_entry_age (t_store t_load : Q) :
  (t_load - t_store <= inject_Z (5 * 86400))%Q →
  (t_load - inject_Z (py_int t_store) < inject_Z 518400)%Q.
Proof.
  intros Hage. pose proof (py_int_near t_store) as [H1 H2].
  set (t := inject_Z (py_int t_store)) in *.
  change (inject_Z 518400) with (518400 # 1).
  change (inject_Z (5 * 86400)) with (432000 # 1) in Hage. lra.
Qed.

(** X12 — A repeated query is served from the cache: after a search
    that returned fresh, non-empty results with the cache on and
    writable, a search for the same query and type no more than five days
    later returns these results with the status "cached", whatever its
    sources are, and changes nothing. *)
Theorem perform_search_second_is_cached behaviour set_order cfg query cache_type
    sources search_methods t_load t_store spins w r w' results
    behaviour' set_order' cfg' sources' search_methods' t_load' t_store' spins' :
  json_round_trip L →
  USE_CACHE cfg = true → USE_CACHE cfg' = true → write_ok w = true →
  perform_search behaviour set_order cfg query cache_type sources
    search_methods t_load t_store spins w = Return r w' →
  item "status" (response_body r) = Some (VStr "fresh") →
  item "data" (response_body r) = Some (VList results) →
  results ≠ [] →
  (t_load' - t_store <= inject_Z (5 * 86400))%Q →
  perform_search behaviour' set_order' cfg' query cache_type sources'
    search_methods' t_load' t_store' spins' w' =
  Return (Jsonify (VDict [("status", VStr "cached"); ("data", VList results)])) w'.
Proof.
  intros Hrt Hcache Hcache' Hwrite Hrun Hstatus Hdata Hne Hage.
  destruct (perform_search_stored _ _ _ _ _ _ _ _ _ _ _ _ _ _
              Hrt Hcache Hwrite Hrun Hstatus Hdata) as [Hfree Hentry].
  rewrite <- gen_results_cached.
  apply (perform_search_hit _ _ _ _ _ _ _ _ _ _ _ (py_int t_store));
    [done..|by apply stored_entry_age|].
  destruct results; [done|reflexivity].
Qed.

(** X13 — A search that finds nothing is not cached: when
    [perform_search] returns an empty list with the cache on, the status
    is "fresh" and no [load_cache] of its fingerprint at the time of its
    own load or later returns anything to serve, so the next identical
    query runs the sources again.  (A load at an earlier time is
    included wherever files can be written or removed; in a cache
    directory where they can be neither, a stale entry stays, and a clock
    set back would have it served.) *)
Theorem perform_search_nothing_found_not_cached behaviour set_order cfg query
    cache_type sources search_methods t_load t_store spins w r w' :
  json_round_trip L → USE_CACHE cfg = true →
  perform_search behaviour set_order cfg query cache_type sources
    search_methods t_load t_store spins w = Return r w' →
  item "data" (response_body r) = Some (VList []) →
  item "status" (response_body r) = Some (VStr "fresh") ∧
  is_running (fingerprint query cache_type) w' = false ∧
  cache_dir w' = DirPresent ∧
  ∀ now, (t_load <= now)%Q ∨ write_ok w = true ∨ remove_ok w = true →
         py_truthy (load_cache (fingerprint query cache_type) now w').1 = false.
Proof.
  intros Hrt Hcache Hrun Hdata.
  destruct (perform_search_fresh_inv _ _ _ _ _ _ _ _ _ _ _ _ _ _ Hcache Hrun Hdata
              (or_intror eq_refl)) as (Hfree & Hmiss & Hstatus & b & Hstore).
  destruct (store_cache_ok _ _ _ _ _ _ Hstore) as (Hdir & Hb & Hrunning).
  split_and!; [done| |done|].
  - unfold is_running in *. by rewrite Hrunning, load_cache_running.
  - intros now Hnow. destruct b.
    + apply (load_cache_empty_entry _ _ _ (py_int t_store)).
      by apply (read_entry_stored _ _ _ _ _ Hrt Hstore).
    + apply (store_cache_unwritten _ _ _ _ _ _ Hstore).
      apply load_cache_miss_later; [done|].
      rewrite load_cache_write_ok in Hb.
      destruct Hnow as [?|[Hw|?]]; [by left|congruence|by right].
Qed.


End perform_search_twice.

Lemma perform_search_second_is_cached_witness :
  CrimeScrape.perform_search sample_behaviour reverse sample_settings "k" ""
    [0; 1] [()] (432020 # 1) (432021 # 1) 3 sample_world_searched =
  CrimeScrape.Return
    (CrimeScrape.Jsonify
       (VDict [("status", VStr "cached");
               ("data", VList [sample_interpol; sample_fbi])]))
    sample_world_searched.
Proof.
  apply (perform_search_second_is_cached sample_behaviour reverse sample_settings
           "k" "" [0; 1; 2; 3; 4; 5] [()] (10 # 1) (20 # 1) 0
           (sample_world (VList []))
           (CrimeScrape.Jsonify
              (VDict [("status", VStr "fresh");
                      ("data", VList [sample_interpol; sample_fbi])]))).
  - intros v. reflexivity.
  - reflexivity.
  - reflexivity.
  - reflexivity.
  - vm_compute. reflexivity.
  - reflexivity.
  - reflexivity.
  - discriminate.
  - vm_compute. discriminate.
Defined.

Lemma perform_search_nothing_found_not_cached_witness :
  item "status"
    (CrimeScrape.response_body
       (CrimeScrape.Jsonify (VDict [("status", VStr "fresh"); ("data", VList [])]))) =
  Some (VStr "fresh") ∧
  CrimeScrape.is_running (CrimeScrape.fingerprint (L:=CrimeScrape.sample_library) "k" "") sample_world_nothing = false ∧
  CrimeScrape.cache_dir sample_world_nothing = CrimeScrape.DirPresent ∧
  ∀ now, (10 # 1 <= now)%Q ∨
         CrimeScrape.write_ok (sample_world (VList [])) = true ∨
         CrimeScrape.remove_ok (sample_world (VList [])) = true →
         py_truthy (CrimeScrape.load_cache (CrimeScrape.fingerprint (L:=CrimeScrape.sample_library) "k" "") now
                      sample_world_nothing).1 = false.
Proof.
  apply (perform_search_nothing_found_not_cached sample_behaviour reverse
           sample_settings "k" "" [1; 2; 3; 4] [()] (10 # 1) (20 # 1) 0
           (sample_world (VList []))).
  - intros v. reflexivity.
  - reflexivity.
  - vm_compute. reflexivity.
  - reflexivity.
Defined.

(** Why the times of the later loads matter: where files can be neither
    written nor removed, a search that finds nothing leaves the stale
    entry it met, and a load with the clock set back serves it. *)
Lemma stale_entry_is_served_once_the_clock_is_set_back :
  CrimeScrape.perform_search sample_behaviour reverse sample_settings "k" ""
    [3] [()] (600000 # 1) (600001 # 1) 0
    (sample_world_read_only (VList [sample_fbi])) =
  CrimeScrape.Return
    (CrimeScrape.Jsonify (VDict [("status", VStr "fresh"); ("data", VList [])]))
    (sample_world_read_only (VList [sample_fbi])) ∧
  CrimeScrape.load_cache "k" (10 # 1)
    (sample_world_read_only (VList [sample_fbi])) =
  (VList [sample_fbi], sample_world_read_only (VList [sample_fbi])).
Proof. split; by vm_compute. Qed.



(** ** The routes *)

Section route_properties.
Import CrimeScrape Routes.
Context {L : Library} {Src : Type}.
Variable re_match : string → string → result bool.
Variable behaviour : Z → Z → string * string → Src → unit_outcome.
Variable set_order :
  list (Src * (string * string)) → list (Src * (string * string)).
Variable cfg : settings.
Variable name_sources : list Src.
Implicit Types (w : world) (now : Q).

(** X16 — The name search keys its cache on the concatenation of the
    two names: two searches whose first and last names concatenate to the
    same string share the entry, and the second is answered with the
    cached results of the first. *)
Theorem search_by_name_shares_cache fname lname fname' lname'
    t_load t_store spins w r w' results t_load' t_store' spins' :
  json_round_trip L → USE_CACHE cfg = true → write_ok w = true →
  fname +:+ lname = fname' +:+ lname' →
  search_by_name behaviour set_order cfg name_sources fname lname
    t_load t_store spins w = Return r w' →
  item "status" (response_body r) = Some (VStr "fresh") →
  item "data" (response_body r) = Some (VList results) →
  results ≠ [] →
  (t_load' - t_store <= inject_Z (5 * 86400))%Q →
  search_by_name behaviour set_order cfg name_sources fname' lname'
    t_load' t_store' spins' w' =
  Return (Jsonify (VDict [("status", VStr "cached"); ("data", VList results)])) w'.
Proof.
  unfold search_by_name.
  intros Hrt Hcache Hwrite Hname Hrun Hstatus Hdata Hne Hage.
  destruct (perform_search_stored _ _ _ _ _ _ _ _ _ _ _ _ _ _
              Hrt Hcache Hwrite Hrun Hstatus Hdata) as [Hfree Hentry].
  rewrite <- Hname, <- gen_results_cached.
  apply (perform_search_hit _ _ _ _ _ _ _ _ _ _ _ (py_int t_store));
    [done..|by apply stored_entry_age|].
  destruct results; [done|reflexivity].
Qed.

(** X17 — [PHONE_REGEX] has a closing parenthesis that closes no group,
    and no group that starts with a question mark (so no inline flag,
    under which a parenthesis can stand in a comment).  A regex engine
    that rejects such patterns, as [re] does, makes [search_by_phone]
    raise for every phone number, before anything is touched. *)
Theorem search_by_phone_raises phone t_load t_store spins w :
  (∀ pattern s,
     unbalanced pattern = true → str_in "(?" pattern = false →
     ∃ e, re_match pattern s = Raise e) →
  unbalanced PHONE_REGEX = true ∧ str_in "(?" PHONE_REGEX = false ∧
  ∃ e, search_by_phone re_match behaviour set_order cfg phone
         t_load t_store spins w = Throw e w.
Proof.
  intros Hre. assert (unbalanced PHONE_REGEX = true) as Hbad by by vm_compute.
  assert (str_in "(?" PHONE_REGEX = false) as Hplain by by vm_compute.
  split_and!; [done..|]. destruct (Hre PHONE_REGEX phone Hbad Hplain) as [e He].
  exists e. unfold search_by_phone. by rewrite He.
Qed.

(** A search with no sources.  With a pool of at least one worker it
    finds nothing, and when nothing in the cache would be served for its
    fingerprint, this is still so afterwards.  Without one, [ValueError]
    leaves it, and the fingerprint stays in the list. *)
Lemma perform_search_no_sources query cache_type t_load t_store spins w :
  json_round_trip L → set_order [] = [] →
  is_running (fingerprint query cache_type) w = false →
  cache_dir w ≠ DirBlocked →
  (∀ now, py_truthy (load_cache (fingerprint query cache_type) now w).1 = false) →
  ((0 < MAX_THREADS cfg)%Z →
   ∃ w',
     perform_search behaviour set_order cfg query cache_type [] []
       t_load t_store spins w =
     Return (let body := VDict [("status", VStr "fresh"); ("data", VList [])] in
             if STANDALONE cfg then Plain body else Jsonify body) w' ∧
     is_running (fingerprint query cache_type) w' = false ∧
     cache_dir w' ≠ DirBlocked ∧
     ∀ now, py_truthy (load_cache (fingerprint query cache_type) now w').1 = false) ∧
  ((MAX_THREADS cfg ≤ 0)%Z →
   ∃ w',
     perform_search behaviour set_order cfg query cache_type [] []
       t_load t_store spins w = Throw ValueError w' ∧
     is_running (fingerprint query cache_type) w' = true).
Proof.
  intros Hrt Horder Hfree Hdir Hmiss.
  rewrite perform_search_idle by done. cbv zeta.
  assert (USE_CACHE cfg &&
          py_truthy (if USE_CACHE cfg
                     then load_cache (fingerprint query cache_type) t_load w
                     else (VNone, w)).1 = false) as ->.
  { destruct (USE_CACHE cfg); [|done]. cbn [andb]. apply Hmiss. }
  unfold execute_search. cbn [mbind list_bind existsb List.filter app].
  rewrite Horder. cbn [collect]. split.
  - intros Hthreads. destruct (Z.leb_spec (MAX_THREADS cfg) 0) as [?|_]; [lia|].
    rewrite gen_results_fresh.
    destruct (USE_CACHE cfg) eqn:Hcache; cbn [fst snd].
    + destruct (store_cache _ _ t_store _) as [[b|e] w'] eqn:Hstore; cycle 1.
      { apply store_cache_raises in Hstore as (_ & _ & Hblocked).
        by rewrite load_cache_dir in Hblocked. }
      exists w'. cbn [fst snd].
      destruct (store_cache_ok _ _ _ _ _ _ Hstore) as (Hdir' & Hb & Hrunning).
      split_and!; [done| |by rewrite Hdir'|].
      * unfold is_running in *. by rewrite Hrunning, load_cache_running.
      * intros now. destruct b.
        -- apply (load_cache_empty_entry _ _ _ (py_int t_store)).
           by apply (read_entry_stored _ _ _ _ _ Hrt Hstore).
        -- apply (store_cache_unwritten _ _ _ _ _ _ Hstore).
           by apply load_cache_miss_stays.
    + by exists w.
  - intros Hthreads. destruct (Z.leb_spec (MAX_THREADS cfg) 0) as [_|?]; [|lia].
    eexists. split; [done|]. apply is_running_added.
Qed.

(** X18 — [search_by_ssn] has no sources.  With a pool of at least one
    worker, and nothing in the cache that would be served for the
    fingerprint, it returns the status "fresh" with an empty list, and
    afterwards again nothing in the cache would be served for it.  With
    [MAX_THREADS] not positive the pool cannot be made: [ValueError]
    leaves [search_by_ssn], and the fingerprint stays in the list of
    running searches. *)
Theorem search_by_ssn_finds_nothing ssn t_load t_store spins w :
  json_round_trip L → set_order [] = [] →
  is_running (fingerprint ssn "ssn") w = false →
  cache_dir w ≠ DirBlocked →
  (∀ now, py_truthy (load_cache (fingerprint ssn "ssn") now w).1 = false) →
  ((0 < MAX_THREADS cfg)%Z →
   ∃ w',
     search_by_ssn behaviour set_order cfg ssn t_load t_store spins w =
     Return (let body := VDict [("status", VStr "fresh"); ("data", VList [])] in
             if STANDALONE cfg then Plain body else Jsonify body) w' ∧
     is_running (fingerprint ssn "ssn") w' = false ∧
     cache_dir w' ≠ DirBlocked ∧
     ∀ now, py_truthy (load_cache (fingerprint ssn "ssn") now w').1 = false) ∧
  ((MAX_THREADS cfg ≤ 0)%Z →
   ∃ w',
     search_by_ssn behaviour set_order cfg ssn t_load t_store spins w =
     Throw ValueError w' ∧
     is_running (fingerprint ssn "ssn") w' = true).
Proof. apply perform_search_no_sources. Qed.

(** X19 — [search_by_host] by what the two patterns give.  When
    compiling or matching [IP_REGEX] raises, or it does not match and
    [HOST_REGEX] raises, the exception leaves [search_by_host] with the
    world as it is.  When neither pattern matches, the answer is the
    "Invalid hostname" error and the world is as it is.  When one of them
    matches, the search runs without sources: with a pool of at least one
    worker and nothing in the cache to serve for the host, it returns the
    status "fresh" with an empty list and leaves the cache with nothing
    to serve for it. *)
Theorem search_by_host_finds_nothing host t_load t_store spins w :
  (∀ e, re_match IP_REGEX host = Raise e →
        search_by_host re_match behaviour set_order cfg host
          t_load t_store spins w = Throw e w) ∧
  (∀ e, re_match IP_REGEX host = Ok false → re_match HOST_REGEX host = Raise e →
        search_by_host re_match behaviour set_order cfg host
          t_load t_store spins w = Throw e w) ∧
  (re_match IP_REGEX host = Ok false → re_match HOST_REGEX host = Ok false →
   search_by_host re_match behaviour set_order cfg host t_load t_store spins w =
   Return (Plain (VDict [("status", VStr "error");
                         ("info", VStr "Invalid hostname")])) w) ∧
  (re_match IP_REGEX host = Ok true ∨
   (re_match IP_REGEX host = Ok false ∧ re_match HOST_REGEX host = Ok true) →
   json_round_trip L → set_order [] = [] →
   is_running (fingerprint host "host") w = false →
   cache_dir w ≠ DirBlocked →
   (∀ now, py_truthy (load_cache (fingerprint host "host") now w).1 = false) →
   (0 < MAX_THREADS cfg)%Z →
   ∃ w',
     search_by_host re_match behaviour set_order cfg host t_load t_store spins w =
     Return (let body := VDict [("status", VStr "fresh"); ("data", VList [])] in
             if STANDALONE cfg then Plain body else Jsonify body) w' ∧
     is_running (fingerprint host "host") w' = false ∧
     cache_dir w' ≠ DirBlocked ∧
     ∀ now, py_truthy (load_cache (fingerprint host "host") now w').1 = false).
Proof.
  unfold search_by_host. split_and!.
  - by intros e ->.
  - by intros e -> ->.
  - by intros -> ->.
  - intros Hmatch Hrt Horder Hfree Hdir Hmiss Hthreads.
    destruct (perform_search_no_sources host "host" t_load t_store spins w
                Hrt Horder Hfree Hdir Hmiss) as [Hrun _].
    destruct (Hrun Hthreads) as (w' & Hw' & Hpost).
    exists w'. split; [|done].
    by destruct Hmatch as [-> | [-> ->]].
Qed.
End route_properties.

Lemma search_by_name_shares_cache_witness :
  Routes.search_by_name sample_name_behaviour reverse sample_settings [0; 1]
    "JoH" "nson" (1000 # 1) (1001 # 1) 5 sample_world_named =
  CrimeScrape.Return
    (CrimeScrape.Jsonify
       (VDict [("status", VStr "cached"); ("data", VList [sample_fbi])]))
    sample_world_named.
Proof.
  apply (search_by_name_shares_cache sample_name_behaviour reverse sample_settings
           [0; 1] "Jo" "Hnson" "JoH" "nson" (10 # 1) (20 # 1) 0
           (sample_world (VList []))
           (CrimeScrape.Jsonify
              (VDict [("status", VStr "fresh"); ("data", VList [sample_fbi])]))).
  - intros v. reflexivity.
  - reflexivity.
  - reflexivity.
  - reflexivity.
  - vm_compute. reflexivity.
  - reflexivity.
  - reflexivity.
  - discriminate.
  - vm_compute. discriminate.
Defined.

Lemma search_by_phone_raises_witness :
  Routes.unbalanced Routes.PHONE_REGEX = true ∧
  str_in "(?" Routes.PHONE_REGEX = false ∧
  ∃ e, Routes.search_by_phone sample_re_match sample_name_behaviour reverse
         sample_settings "+34 600 123 456" (10 # 1) (20 # 1) 0
         (sample_world (VList [])) =
       CrimeScrape.Throw e (sample_world (VList [])).
Proof.
  apply (search_by_phone_raises sample_re_match sample_name_behaviour reverse
           sample_settings).
  intros pattern s H _. exists ValueError. unfold sample_re_match. by rewrite H.
Defined.

Lemma search_by_ssn_finds_nothing_witness :
  ∃ w' : @CrimeScrape.world CrimeScrape.sample_library,
    Routes.search_by_ssn sample_name_behaviour reverse sample_settings "123-45-6789"
      (10 # 1) (20 # 1) 0 (sample_world (VList [])) =
    CrimeScrape.Return
      (CrimeScrape.Jsonify (VDict [("status", VStr "fresh"); ("data", VList [])])) w' ∧
    CrimeScrape.is_running
      (CrimeScrape.fingerprint (L:=CrimeScrape.sample_library) "123-45-6789" "ssn") w'
      = false ∧
    CrimeScrape.cache_dir w' ≠ CrimeScrape.DirBlocked ∧
    ∀ now, py_truthy (CrimeScrape.load_cache
                        (CrimeScrape.fingerprint (L:=CrimeScrape.sample_library)
                           "123-45-6789" "ssn") now w').1 = false.
Proof.
  apply (proj1 (search_by_ssn_finds_nothing sample_name_behaviour reverse
                  sample_settings "123-45-6789" (10 # 1) (20 # 1) 0
                  (sample_world (VList []))
                  (fun v => eq_refl) eq_refl eq_refl
                  ltac:(discriminate) (fun now => eq_refl))).
  done.
Defined.

Lemma search_by_host_finds_nothing_witness :
  ∃ w' : @CrimeScrape.world CrimeScrape.sample_library,
    Routes.search_by_host sample_re_match sample_name_behaviour reverse
      sample_settings "example.org" (10 # 1) (20 # 1) 0 (sample_world (VList [])) =
    CrimeScrape.Return
      (CrimeScrape.Jsonify (VDict [("status", VStr "fresh"); ("data", VList [])])) w' ∧
    CrimeScrape.is_running
      (CrimeScrape.fingerprint (L:=CrimeScrape.sample_library) "example.org" "host") w'
      = false ∧
    CrimeScrape.cache_dir w' ≠ CrimeScrape.DirBlocked ∧
    ∀ now, py_truthy (CrimeScrape.load_cache
                        (CrimeScrape.fingerprint (L:=CrimeScrape.sample_library)
                           "example.org" "host") now w').1 = false.
Proof.
  apply (proj2 (proj2 (proj2
           (search_by_host_finds_nothing sample_re_match sample_name_behaviour
              reverse sample_settings "example.org" (10 # 1) (20 # 1) 0
              (sample_world (VList [])))))).
  - left. reflexivity.
  - intros v. reflexivity.
  - reflexivity.
  - reflexivity.
  - discriminate.
  - intros now. reflexivity.
  - done.
Defined.

(** ** The standalone run *)

Section standalone_properties.
Import CrimeScrape Standalone.
Context {L : Library} {Engine : Type}.
Variable cfg : settings.
Variable class_name : Engine → string.
Variable search : Engine → value → value → unit_outcome.
Variable engine_files : gmap string text → gmap string text.
Variable as_completed : list Engine → list Engine.
Variable json_dump_sorted : value → text.
Variable abspath : string → string.
Implicit Types (d : disk) (engines : list Engine).

(** The first step of [run_standalone] leaves no result file. *)
Lemma remove_resultfile resultfile d :
  (if bool_decide (is_Some (files d !! resultfile))
   then set_files (delete resultfile (files d)) d
   else d) = set_files (delete resultfile (files d)) d.
Proof.
  case_bool_decide as Hsome; [done|].
  apply eq_None_not_Some in Hsome.
  rewrite delete_id by done. by destruct d.
Qed.



(** The loop over engines that have all finished: it ends with the
    exception of the first engine that raised one outside [Exception],
    and otherwise with the results of the engines that found
    something. *)
Lemma gather_found fname lname completed results :
  NoDup (class_name <$> completed) →
  (∀ engine, engine ∈ completed → class_name engine ∉ results.*1) →
  Forall (fun engine => finished (search engine fname lname) = true) completed →
  gather class_name search fname lname completed results =
  match first_exit search fname lname completed with
  | Some b => Exits b
  | None => Returns (results ++ found class_name search fname lname completed)
  end.
Proof.
  revert results. induction completed as [|engine completed IH];
    intros results Hnd Hdis Hdone.
  - cbn. by rewrite app_nil_r.
  - apply NoDup_cons in Hnd as [Hnew Hnd].
    apply Forall_cons in Hdone as [Hfin Hdone].
    assert (∀ e, e ∈ completed → class_name e ∉ results.*1) as Hdis'.
    { intros e He. apply Hdis. by right. }
    unfold first_exit in *. cbn [gather found omap list_omap].
    destruct (search engine fname lname) as [result|e|b| |]; try done;
      cbn [future_result try_except mbind ending_bind head].
    + destruct (py_truthy result); cbn [try_except mbind ending_bind];
        [|by apply IH].
      rewrite dict_set_keys_notin by (apply Hdis; by left).
      rewrite IH; [|done| |done].
      * destruct (head _); [done|]. by rewrite <- app_assoc.
      * intros e He. rewrite fmap_app, not_elem_of_app. split.
        -- apply Hdis. by right.
        -- cbn. rewrite list_elem_of_singleton. intros Heq. apply Hnew.
           rewrite <- Heq. by apply list_elem_of_fmap_2.
    + by apply IH.
Qed.

Lemma found_keys fname lname engines :
  (found class_name search fname lname engines).*1 `sublist_of` class_name <$> engines.
Proof.
  induction engines as [|engine engines IH]; [done|].
  cbn [found omap list_omap fmap list_fmap].
  destruct (search engine fname lname) as [result| | | |];
    try by apply sublist_cons.
  destruct (py_truthy result); [|by apply sublist_cons].
  by apply sublist_skip.
Qed.

End standalone_properties.



(** ** Strings *)

Lemma prefix_spec (needle s : string) :
  String.prefix needle s = true ↔ ∃ post, s = needle +:+ post.
Proof.
  revert s. induction needle as [|a needle IH]; intros s.
  - destruct s; (split; [|done]); intros _; by eexists.
  - destruct s as [|b s]; simpl; [split; [done|by intros [? [=]]]|].
    destruct (Ascii.ascii_dec a b) as [->|Hne].
    + rewrite IH. split.
      * intros [post ->]. by exists post.
      * intros [post [= ->]]. by exists post.
    + split; [done|]. intros [post [= -> _]]. done.
Qed.

Lemma str_in_spec (needle haystack : string) :
  str_in needle haystack = true ↔
  ∃ pre post, haystack = pre +:+ needle +:+ post.
Proof.
  induction haystack as [|c haystack IH]; cbn [str_in].
  - rewrite orb_false_r, prefix_spec. split.
    + intros [post ->]. by exists "", post.
    + intros (pre & post & H). destruct pre as [|? ?]; [|done].
      by exists post.
  - rewrite orb_true_iff, prefix_spec, IH. split.
    + intros [[post ->]|(pre & post & ->)].
      * by exists "", post.
      * by exists (String c pre), post.
    + intros (pre & post & H). destruct pre as [|c' pre].
      * left. by exists post.
      * right. injection H as -> ->. by exists pre, post.
Qed.

Lemma str_split_from_nonempty sep skip piece s :
  str_split_from sep skip piece s ≠ [].
Proof.
  revert skip piece.
  induction s as [|c s IH]; intros skip piece; cbn [str_split_from]; [done|].
  destruct skip; [|apply IH].
  destruct (String.prefix sep (String c s)); [discriminate|apply IH].
Qed.

Lemma str_split_nonempty sep s : str_split sep s ≠ [].
Proof. apply str_split_from_nonempty. Qed.

Lemma str_split_from_skip sep (passed : string) piece s :
  str_split_from sep (String.length passed) piece (passed +:+ s) =
  str_split_from sep 0 piece s.
Proof. induction passed as [|c passed IH]; [done|exact IH]. Qed.

Lemma string_app_cons c (a b : string) : String c a +:+ b = String c (a +:+ b).
Proof. reflexivity. Qed.

Lemma string_app_assoc (a b c : string) : (a +:+ b) +:+ c = a +:+ b +:+ c.
Proof.
  induction a as [|x a IH]; [done|]. by rewrite !string_app_cons, IH.
Qed.

Lemma string_app_nil_r (a : string) : a +:+ "" = a.
Proof. induction a as [|x a IH]; [done|]. by rewrite string_app_cons, IH. Qed.

Lemma string_app_length (a b : string) :
  String.length (a +:+ b) = String.length a + String.length b.
Proof.
  induction a as [|x a IH]; [done|].
  rewrite string_app_cons. cbn [String.length]. by rewrite IH.
Qed.

Lemma concat_cons_nonempty sep x (l : list string) :
  l ≠ [] → String.concat sep (x :: l) = x +:+ sep +:+ String.concat sep l.
Proof. by destruct l. Qed.

(** Joining the pieces with the separator gives the string back. *)
Lemma str_split_from_join sep piece s :
  sep ≠ EmptyString →
  String.concat sep (str_split_from sep 0 piece s) = piece +:+ s.
Proof.
  intros Hsep. remember (String.length s) as n eqn:Hn.
  revert piece s Hn. induction (lt_wf n) as [n _ IH]. intros piece s ->.
  destruct s as [|c s]; [by rewrite string_app_nil_r|]. cbn [str_split_from].
  destruct (String.prefix sep (String c s)) eqn:Hpre.
  - apply prefix_spec in Hpre as [post Hpost].
    destruct sep as [|c0 sep]; [done|]. injection Hpost as <- ->.
    cbn [String.length].
    replace (S (String.length sep) - 1) with (String.length sep) by lia.
    rewrite str_split_from_skip.
    rewrite concat_cons_nonempty by apply str_split_from_nonempty.
    rewrite (IH (String.length post)); [done| |done].
    cbn [String.length]. rewrite string_app_length. lia.
  - rewrite (IH (String.length s)); [|cbn [String.length]; lia|done].
    by rewrite string_app_assoc.
Qed.

Lemma str_split_join sep s :
  sep ≠ EmptyString → String.concat sep (str_split sep s) = s.
Proof. intros Hsep. by apply (str_split_from_join sep "" s). Qed.

(** ** The sources *)

(** A response with one notice whose charges are strings is well
    formed. *)
Lemma single_notice_wf (risk source notice_id : string) (charges : list string) :
  BaseSearch.in_risk_levels risk = true →
  wf_partial
    (VDict [("risk", VStr risk);
            ("notices",
              VDict [(source, VDict [("id", VStr notice_id);
                                     ("charges", VList (VStr <$> charges))])])]) = true.
Proof.
  intros Hr.
  apply (partial_items_wf (Partial true risk [(source, Notice true notice_id charges)])).
  split; [done|]. apply NoDup_singleton.
Qed.

Lemma wf_partial_truthy v : wf_partial v = true → py_truthy v = true.
Proof. intros (p & -> & _)%wf_partial_inv. by destruct p as [[] r ns]. Qed.

(** Merging well-formed responses gives a well-formed response with
    the most severe of their risks. *)
Lemma merge_responses_wf_max (rs : list value) :
  rs ≠ [] → Forall (fun v => wf_partial v = true) rs →
  ∃ m r,
    BaseSearch.merge_responses rs = Ok m ∧ wf_partial m = true ∧
    risk_of m = Some (VStr r) ∧
    (∃ x, x ∈ rs ∧ risk_of x = Some (VStr r)) ∧
    (∀ x r', x ∈ rs → risk_of x = Some (VStr r') → severity r' ≤ severity r).
Proof.
  intros Hne (ps & -> & Hps)%wf_partials_inv.
  destruct ps as [|p ps]; [done|].
  apply Forall_cons in Hps as [Hp Hps].
  exists (VDict (partial_items (foldl partial_merge p ps))),
         (p_risk (foldl partial_merge p ps)).
  destruct (foldl_risk_max_spec (p_risk p) (p_risk <$> ps)) as [Hin Hmax].
  rewrite <- foldl_partial_merge_risk in Hin, Hmax.
  split_and!.
  - by apply merge_responses_partials.
  - by apply partial_items_wf, foldl_partial_merge_ok.
  - apply risk_of_partial.
  - change (p_risk p :: (p_risk <$> ps)) with (p_risk <$> p :: ps) in Hin.
    apply list_elem_of_fmap in Hin as (q & Hq & Hin).
    exists (VDict (partial_items q)). split.
    + by apply (list_elem_of_fmap_2 (fun q => VDict (partial_items q))).
    + rewrite Hq. apply risk_of_partial.
  - intros x r' Hx Hr'.
    apply list_elem_of_fmap in Hx as (q & -> & Hq).
    rewrite risk_of_partial in Hr'. simplify_eq.
    apply Hmax. change (p_risk p :: (p_risk <$> ps)) with (p_risk <$> p :: ps).
    by apply list_elem_of_fmap_2.
Qed.

Lemma filter_truthy_wf (found : list value) :
  Forall (fun v => v = VNone ∨ wf_partial v = true) found →
  Forall (fun v => wf_partial v = true) (List.filter py_truthy found).
Proof.
  induction 1 as [|v found [->|Hwf] _ IH]; cbn [List.filter]; [done|done|].
  rewrite wf_partial_truthy by done. by constructor.
Qed.

(** *** The FBI *)

Section fbi.
Context `{CaseOps}.

(** X23 — Every response the FBI source builds, [_default_notice] and
    [_scrape_details] alike, is well formed and passes
    [validate_response]; the risk of [_scrape_details] is "High" or
    "Dangerous" and its notice has at least one charge. *)
Theorem fbi_responses_well_formed
    (name_banner charges warning_banner matched_name crime : string) :
  let default_notice := FBISearch._default_notice crime in
  let details := FBISearch._scrape_details name_banner charges warning_banner
                   matched_name crime in
  wf_partial default_notice = true ∧
  validate_response default_notice = Ok default_notice ∧
  wf_partial details = true ∧
  validate_response details = Ok details ∧
  (risk_of details = Some (VStr "High") ∨ risk_of details = Some (VStr "Dangerous")) ∧
  ∃ first rest,
    charges_of "fbi-most-wanted" details = Some (VList (VStr first :: rest)).
Proof.
  cbv zeta.
  assert (wf_partial (FBISearch._default_notice crime) = true) as Hdefault.
  { unfold FBISearch._default_notice.
    apply (single_notice_wf _ "fbi-most-wanted" "" ["Unknown"]).
    by destruct (existsb _ _). }
  assert (wf_partial (FBISearch._scrape_details name_banner charges warning_banner
                        matched_name crime) = true) as Hdetails.
  { unfold FBISearch._scrape_details.
    destruct (negb _); [done|].
    apply single_notice_wf. by destruct (str_in _ _). }
  split_and!; [done|by apply wf_partial_validates|done|by apply wf_partial_validates| |].
  - unfold FBISearch._scrape_details, FBISearch._default_notice.
    destruct (negb _).
    + destruct (existsb _ _); [by left|by right].
    + destruct (str_in _ _); [by right|by left].
  - unfold FBISearch._scrape_details, FBISearch._default_notice.
    destruct (negb _); [by eexists _, _|].
    unfold FBISearch._clean_charges.
    destruct (str_split "; " charges) as [|piece pieces] eqn:Hsplit.
    { by apply str_split_nonempty in Hsplit. }
    by eexists _, _.
Qed.

(** [search] on lookups that each found nothing or a well-formed
    response. *)
Lemma fbi_search_found (most_wanted fugitives terrorists : value) :
  Forall (fun v => v = VNone ∨ wf_partial v = true)
    [most_wanted; fugitives; terrorists] →
  FBISearch.search (Ok most_wanted) (Ok fugitives) (Ok terrorists) =
  match List.filter py_truthy [most_wanted; fugitives; terrorists] with
  | [] => Ok VNone
  | hits => BaseSearch.merge_responses hits
  end.
Proof.
  intros Hall.
  assert (∀ v, v = VNone ∨ wf_partial v = true →
            FBISearch.found v = py_truthy v) as Hfound.
  { intros v [->|(p & -> & _)%wf_partial_inv]; [done|by destruct p as [[] r ns]]. }
  apply Forall_cons in Hall as [H1 Hall].
  apply Forall_cons in Hall as [H2 Hall].
  apply Forall_cons in Hall as [H3 _].
  unfold FBISearch.search. cbn [mbind result_bind List.filter].
  rewrite !Hfound by done.
  destruct (py_truthy most_wanted), (py_truthy fugitives), (py_truthy terrorists);
    reflexivity.
Qed.

(** X24 — [FBISearch.search] on three lookups that each found nothing
    or a well-formed response: it returns [None] exactly when all three
    found nothing, and otherwise a well-formed response whose risk is the
    most severe of the responses found. *)
Theorem fbi_search_merges (most_wanted fugitives terrorists : value) :
  Forall (fun v => v = VNone ∨ wf_partial v = true)
    [most_wanted; fugitives; terrorists] →
  let hits := List.filter py_truthy [most_wanted; fugitives; terrorists] in
  (hits = [] ↔
   FBISearch.search (Ok most_wanted) (Ok fugitives) (Ok terrorists) = Ok VNone) ∧
  (hits ≠ [] →
   ∃ m r,
     FBISearch.search (Ok most_wanted) (Ok fugitives) (Ok terrorists) = Ok m ∧
     wf_partial m = true ∧ risk_of m = Some (VStr r) ∧
     (∃ x, x ∈ hits ∧ risk_of x = Some (VStr r)) ∧
     (∀ x r', x ∈ hits → risk_of x = Some (VStr r') → severity r' ≤ severity r)).
Proof.
  intros Hall hits. rewrite fbi_search_found by done. fold hits.
  pose proof (filter_truthy_wf _ Hall) as Hwf. fold hits in Hwf.
  destruct hits as [|hit hits'] eqn:Hhits.
  - split; [done|]. by intros [].
  - destruct (merge_responses_wf_max (hit :: hits')) as (m & r & Hm & Hmwf & Hrest);
      [done|done|].
    split.
    + split; [done|]. rewrite Hm. intros [= ->]. done.
    + intros _. by exists m, r.
Qed.
End fbi.

Lemma fbi_search_merges_witness :
  let hits := List.filter py_truthy [sample_fbi; VNone; sample_fbi_terror] in
  (hits = [] ↔
   FBISearch.search (Ok sample_fbi) (Ok VNone) (Ok sample_fbi_terror) = Ok VNone) ∧
  (hits ≠ [] →
   ∃ m r,
     FBISearch.search (Ok sample_fbi) (Ok VNone) (Ok sample_fbi_terror) = Ok m ∧
     wf_partial m = true ∧ risk_of m = Some (VStr r) ∧
     (∃ x, x ∈ hits ∧ risk_of x = Some (VStr r)) ∧
     (∀ x r', x ∈ hits → risk_of x = Some (VStr r') → severity r' ≤ severity r)).
Proof.
  apply (fbi_search_merges sample_fbi VNone sample_fbi_terror).
  repeat constructor; by right.
Defined.

(** *** Interpol *)

Lemma mapM_get_charge_dicts (warrants : list value) :
  Forall (fun w => ∃ d, w = VOb d) warrants →
  ∃ charges,
    mapM (fun warrant => py_get warrant "charge" (VStr "Unknown")) warrants =
    Ok charges.
Proof.
  induction 1 as [|w warrants [[d] ->] _ [charges IH]]; [by exists []|].
  cbn [mapM py_get mbind result_bind]. rewrite IH.
  cbn [mbind result_bind mret result_ret]. by eexists.
Qed.

(** X25 — [_process_notice] reads the charges of the first arrest
    warrant only: when its charge is a string, the charges of the notice
    are the pieces of this string between the separators, whatever the
    other warrants hold. *)
Theorem interpol_first_warrant_only
    (notice_data first_warrant : list (string * value)) (rest : list value)
    (charge notice_type : string) :
  dict_get "arrest_warrants" notice_data = Some (VList (VDict first_warrant :: rest)) →
  dict_get "charge" first_warrant = Some (VStr charge) →
  Forall (fun w => ∃ d, w = VOb d) rest →
  InterpolSearch._process_notice (VDict notice_data) notice_type =
  Ok (VDict [("risk", VStr "Dangerous");
             ("notices",
               VDict [("interpol-" +:+ notice_type +:+ "-notice",
                       VDict [("id", default VNone (dict_get "entity_id" notice_data));
                              ("charges",
                                VList (VStr <$> str_split InterpolSearch.charge_separator
                                                  charge))])])]).
Proof.
  intros Hwarrants Hcharge Hrest.
  unfold InterpolSearch._process_notice, InterpolSearch.charges_tmp.
  unfold value in *.
  cbn [py_get mbind result_bind]. rewrite Hwarrants.
  cbn [default from_option id py_iter mbind result_bind mapM py_get].
  rewrite Hcharge.
  destruct (mapM_get_charge_dicts rest Hrest) as [charges Hcharges].
  unfold value in Hcharges. rewrite Hcharges.
  cbn [default from_option id mbind result_bind mret result_ret
       InterpolSearch.split_first].
  destruct (str_split InterpolSearch.charge_separator charge) as [|piece pieces] eqn:Hs.
  { by apply str_split_nonempty in Hs. }
  reflexivity.
Qed.

Lemma interpol_first_warrant_only_witness :
  InterpolSearch._process_notice
    (VDict [("entity_id", VStr "2020/1");
            ("arrest_warrants",
              VList [VDict [("charge", VStr "fraud")];
                     VDict [("charge", VStr "murder")]])]) "red" =
  Ok (VDict [("risk", VStr "Dangerous");
             ("notices",
               VDict [("interpol-" +:+ "red" +:+ "-notice",
                       VDict [("id",
                                default VNone
                                  (dict_get "entity_id"
                                     [("entity_id", VStr "2020/1");
                                      ("arrest_warrants",
                                        VList [VDict [("charge", VStr "fraud")];
                                               VDict [("charge", VStr "murder")]])]));
                              ("charges",
                                VList (VStr <$> str_split InterpolSearch.charge_separator
                                                  "fraud"))])])]).
Proof.
  apply (interpol_first_warrant_only
           [("entity_id", VStr "2020/1");
            ("arrest_warrants",
              VList [VDict [("charge", VStr "fraud")];
                     VDict [("charge", VStr "murder")]])]
           [("charge", VStr "fraud")] [VDict [("charge", VStr "murder")]]).
  - reflexivity.
  - reflexivity.
  - repeat constructor. by eexists.
Defined.

(** X26 — The response of [_process_notice] passes
    [validate_response] exactly when the notice has a string ["entity_id"]
    and either no arrest warrant or a first warrant whose charge is a
    string. *)
Theorem interpol_notice_validates (notice_data : value) (notice_type : string)
    (v : value) :
  InterpolSearch._process_notice notice_data notice_type = Ok v →
  validate_response v = Ok v ↔
  (∃ entity_id, item "entity_id" notice_data = Some (VStr entity_id)) ∧
  ∃ charges_tmp,
    InterpolSearch.charges_tmp notice_data = Ok charges_tmp ∧
    (charges_tmp = [] ∨ ∃ first rest, charges_tmp = VStr first :: rest).
Proof.
  unfold InterpolSearch._process_notice.
  destruct (InterpolSearch.charges_tmp notice_data) as [tmp|] eqn:Htmp; [|done].
  cbn [mbind result_bind].
  destruct notice_data as [| | | |[nd]]; try done.
  cbn [py_get mbind result_bind mret result_ret item]. intros [= <-].
  rewrite validate_response_ok. cbn [item dict_get]. eqb_lit.
  split.
  - intros (r & ns & [= <-] & _ & [= <-] & Hns).
    cbn [validate_notices validate_details dict_get] in Hns. revert Hns. eqb_lit.
    destruct (dict_get "entity_id" nd) as [[| |entity_id| |]|]; try done.
    cbn [default]. intros Hns. split; [by exists entity_id|].
    exists tmp. split; [done|].
    destruct tmp as [|[| |first| |] rest]; try (by left); try (by right; eexists _, _);
      cbn [InterpolSearch.split_first py_truthy length Nat.eqb negb forallb is_str andb]
        in Hns; done.
  - intros ([entity_id Hid] & tmp' & [= <-] & Hcases).
    eexists _, _. split_and!; [done|done|done|].
    cbn [validate_notices validate_details dict_get]. eqb_lit.
    rewrite Hid. cbn [default].
    destruct Hcases as [->|(first & rest & ->)].
    + reflexivity.
    + cbn [InterpolSearch.split_first].
      destruct (str_split InterpolSearch.charge_separator first) as [|piece pieces].
      * reflexivity.
      * cbn [py_truthy]. rewrite length_fmap. cbn [length Nat.eqb negb].
        by rewrite (proj2 (forallb_is_str _) (ex_intro _ (piece :: pieces) eq_refl)).
Qed.

Lemma interpol_notice_validates_witness :
  validate_response
    (VDict [("risk", VStr "Dangerous");
            ("notices",
              VDict [("interpol-red-notice",
                      VDict [("id", VStr "2020/1");
                             ("charges", VList [VStr "No charges available"])])])]) =
  Ok (VDict [("risk", VStr "Dangerous");
             ("notices",
               VDict [("interpol-red-notice",
                       VDict [("id", VStr "2020/1");
                              ("charges", VList [VStr "No charges available"])])])]).
Proof.
  apply (proj2 (interpol_notice_validates
                  (VDict [("entity_id", VStr "2020/1")]) "red" _ eq_refl)).
  split; [by exists "2020/1"|]. exists []. by split; [|left].
Defined.

(** *** OFAC and OpenSanctions *)

(** X27 — The risk of an OFAC notice depends on the first keyword only:
    the keyword expression evaluates to "drug", and [_grab_details]
    returns a well-formed response whose risk is "Dangerous" exactly when
    "drug" occurs in the cell, and "High" otherwise. *)
Theorem ofac_risk_keyword (notice_id risk_cell charges_cell : string) :
  OFACSearch.risk_keyword = "drug" ∧
  ∃ v, OFACSearch._grab_details notice_id risk_cell charges_cell = Ok v ∧
       wf_partial v = true ∧
       (risk_of v = Some (VStr "Dangerous") ↔
        ∃ pre post, risk_cell = pre +:+ "drug" +:+ post) ∧
       (risk_of v = Some (VStr "High") ↔
        ¬ ∃ pre post, risk_cell = pre +:+ "drug" +:+ post).
Proof.
  split; [reflexivity|]. unfold OFACSearch._grab_details.
  change OFACSearch.risk_keyword with "drug".
  pose proof (str_in_spec "drug" risk_cell) as Hspec.
  destruct (str_in "drug" risk_cell).
  - eexists. split; [reflexivity|]. split_and!.
    + by apply (single_notice_wf "Dangerous" "ofac-sanctions" notice_id [charges_cell]).
    + split; [intros _; by apply Hspec|done].
    + split; [done|]. intros Hn. destruct Hn. by apply Hspec.
  - eexists. split; [reflexivity|]. split_and!.
    + by apply (single_notice_wf "High" "ofac-sanctions" notice_id [charges_cell]).
    + split; [done|]. intros Hin. by apply Hspec in Hin.
    + split; [|done]. intros _ Hin. by apply Hspec in Hin.
Qed.

Lemma opensanctions_level (tags : list string) :
  max_list (OpenSanctionsSearch.tag_level <$> tags) =
  if existsb (String.eqb "Wanted") tags then 3
  else if existsb (String.eqb "Crime") tags then 2
  else if existsb (String.eqb "Sanctioned entity") tags then 1
  else 0.
Proof.
  induction tags as [|tag tags IH]; [done|].
  cbn [fmap list_fmap max_list existsb]. rewrite IH.
  unfold OpenSanctionsSearch.tag_level.
  rewrite !(String.eqb_sym _ tag).
  destruct (String.eqb_spec tag "Wanted") as [->|_]; eqb_lit.
  { cbn [orb]. repeat destruct (existsb _ tags); reflexivity. }
  destruct (String.eqb_spec tag "Crime") as [->|_]; eqb_lit.
  { cbn [orb]. repeat destruct (existsb _ tags); reflexivity. }
  destruct (String.eqb_spec tag "Sanctioned entity") as [->|_]; eqb_lit;
    cbn [orb]; repeat destruct (existsb _ tags); reflexivity.
Qed.

(** X28 — The risk of an OpenSanctions response is the highest level
    one of the tags stands for ("Sanctioned entity": Medium, "Crime":
    High, "Wanted": Dangerous), and "Low" without such a tag; the response
    is well formed and its only charge is the address of the details. *)
Theorem opensanctions_risk (details_url : string) (tags : list string) :
  ∃ v r,
    OpenSanctionsSearch.search details_url tags = Ok v ∧
    wf_partial v = true ∧ risk_of v = Some (VStr r) ∧
    severity r = max_list (OpenSanctionsSearch.tag_level <$> tags) ∧
    charges_of "opensanctions" v = Some (VList [VStr details_url]).
Proof.
  rewrite opensanctions_level. unfold OpenSanctionsSearch.search.
  destruct (existsb (String.eqb "Wanted") tags),
    (existsb (String.eqb "Crime") tags),
    (existsb (String.eqb "Sanctioned entity") tags);
    eexists _, _; (split; [reflexivity|]); split_and!; try reflexivity;
    by apply (single_notice_wf _ "opensanctions" "" [details_url]).
Qed.

(** ** The browser of [StealthSearch] *)

Lemma without_fresh handle handles :
  Forall (fun h => h < handle) handles →
  StealthSearch.without handle (handles ++ [handle]) = handles.
Proof.
  intros Hlt. unfold StealthSearch.without.
  rewrite List.filter_app. cbn [List.filter]. rewrite Nat.eqb_refl. cbn [negb].
  rewrite app_nil_r.
  induction Hlt as [|h handles Hh _ IH]; [done|]. cbn [List.filter].
  rewrite (proj2 (Nat.eqb_neq h handle)) by lia. cbn [negb]. by rewrite IH.
Qed.

(** X29 — [fetch_url] without headers closes what it opens: when the
    browser starts, and closing works, the call ends with the three
    fields of the object reset and with the same browsers and Playwright
    instances running as before, whether the page was returned, a CAPTCHA
    was raised or loading failed. *)
Theorem fetch_url_closes_browser (s : StealthSearch.script)
    (captcha : string → bool) (self : StealthSearch.fields)
    (p : StealthSearch.processes) :
  StealthSearch.browser self = None → StealthSearch.playwright self = None →
  Forall (fun h => h < StealthSearch.next p) (StealthSearch.browsers p) →
  Forall (fun h => h < StealthSearch.next p) (StealthSearch.playwrights p) →
  StealthSearch.start_ok s = true → StealthSearch.launch_ok s = true →
  StealthSearch.page_ok s = true →
  StealthSearch.close_ok s = true → StealthSearch.stop_ok s = true →
  StealthSearch.fetch_url s captcha false self p =
  (match StealthSearch.page_source s with
   | Ok src => if captcha src then Raise CaptchaError else Ok (VStr src)
   | Raise CaptchaError => Raise CaptchaError
   | Raise _ => Ok VNone
   end,
   (StealthSearch.Fields None None None,
    StealthSearch.Processes (StealthSearch.browsers p) (StealthSearch.playwrights p)
      (S (S (S (StealthSearch.next p)))))).
Proof.
  intros Hb Hpw Hbs Hpws Hstart Hlaunch Hpage Hclose Hstop.
  unfold StealthSearch.fetch_url, StealthSearch._start_driver.
  rewrite Hstart, Hlaunch, Hpage. cbn [negb StealthSearch.driver andb].
  unfold StealthSearch._close_driver.
  cbn [StealthSearch.browser StealthSearch.playwright StealthSearch.browsers
       StealthSearch.playwrights StealthSearch.next].
  rewrite Hclose, Hstop.
  cbn [StealthSearch.browsers StealthSearch.playwrights StealthSearch.next].
  rewrite (without_fresh (StealthSearch.next p)) by done.
  rewrite (without_fresh (S (StealthSearch.next p))); [done|].
  eapply Forall_impl; [exact Hbs|]. intros h Hh. cbn beta in Hh |- *. lia.
Qed.

Lemma fetch_url_closes_browser_witness :
  StealthSearch.fetch_url sample_script
    (StealthSearch._check_for_captcha (H:=sample_case_ops) str_in) false
    (StealthSearch.Fields None None None) sample_processes =
  (match StealthSearch.page_source sample_script with
   | Ok src =>
       if StealthSearch._check_for_captcha (H:=sample_case_ops) str_in src
       then Raise CaptchaError else Ok (VStr src)
   | Raise CaptchaError => Raise CaptchaError
   | Raise _ => Ok VNone
   end,
   (StealthSearch.Fields None None None,
    StealthSearch.Processes (StealthSearch.browsers sample_processes)
      (StealthSearch.playwrights sample_processes)
      (S (S (S (StealthSearch.next sample_processes)))))).
Proof.
  apply (fetch_url_closes_browser sample_script
           (StealthSearch._check_for_captcha (H:=sample_case_ops) str_in)
           (StealthSearch.Fields None None None) sample_processes);
    try reflexivity; repeat constructor.
Defined.
